(** * THOR kd-tree builder (fastlib/thor/kdtree_builder.h)

    A shallow embedding of [Partition] and of the hybrid builder
    [KdTreeHybridBuilder] ([Build_], [Split_], [FindBoundingBox_]), with
    what they guarantee and where they fall short of it.

    - [index_t] and the [int] ranks are signed machine integers, modelled
      as [Z]; C's [/] on them is [÷]. The one [uint64] expression of
      [Split_] is written with its wrap-around. A sum of two indices is
      taken in [Z]; where a theorem says what such a sum is worth it asks
      that the sum fits [index_t] ([index_t_holds]).
    - [DEBUG_ASSERT] and [DEBUG_SAME_INT] are checks of DEBUG builds; the
      embedding is the program without them. What the check of the leaf
      branch asks is [leaf_same_block]: [Build_fresh_leaf], which says
      when a call makes a leaf, assumes it, and the evaluations that end
      with a leaf across two blocks are those of a build without DEBUG
      checks.
    - [double] is IEEE binary64: the kernel's primitive [float].
    - A [CacheArray] is a list addressed through [!!]; reading or swapping
      outside of it is fatal.
    - The node array is a list of nodes; a node is written through its
      index, so that what a child does while its parent is open for
      writing lands in the same array.
    - The calls into the distributed cache and into the pluggable
      statistic ([AllocD], [GiveOwnership], [Accumulate], [Postprocess])
      are recorded, in order, in a trace.
    - Loops and the recursion of [Build_] carry fuel; [OutOfFuel] is kept
      apart from [Fatal] so that termination is stated, never assumed.
    - Points, intervals and bounds are template parameters or classes of
      headers that are not part of the sources at hand; the builder is
      written over the operations it uses ([Bounds]), and an instance on
      doubles serves the evaluations.

    The source does not compile as it stands. Where it is ambiguous the
    embedding follows the text: [Build_] returns the node index its
    declaration and [set_child] ask for; [Split_] reads the [parent] of
    the [Build_] that called it; [wid()] is [width()]. [Doit] names a
    [node] that does not exist and is left out. *)

From Stdlib Require Import ZArith Lia Floats Uint63.
From stdpp Require Import base list.

Local Open Scope Z_scope.

(** ** Outcomes of fallible, possibly diverging code *)

Inductive outcome (A : Type) : Type :=
| Done (a : A)
| Fatal
| OutOfFuel.
Arguments Done {A} a.
Arguments Fatal {A}.
Arguments OutOfFuel {A}.

#[global] Instance outcome_ret : MRet outcome := @Done.

#[global] Instance outcome_bind : MBind outcome := λ A B k m,
  match m with
  | Done a => k a
  | Fatal => Fatal
  | OutOfFuel => OutOfFuel
  end.

Definition of_option {A : Type} (o : option A) : outcome A :=
  match o with
  | Some a => Done a
  | None => Fatal
  end.

(** ** The cache array of points *)

Section cache.
Context {A : Type}.

(** [CacheRead<Element> v(points, i)]: an index outside the array is a
    fatal precondition violation. *)
Definition CacheRead (points : list A) (i : Z) : option A :=
  if i <? 0 then None else points !! Z.to_nat i.

(** [points->Swap(i, j)] *)
Definition Swap (points : list A) (i j : Z) : option (list A) :=
  match CacheRead points i, CacheRead points j with
  | Some vi, Some vj => Some (<[Z.to_nat j := vi]> (<[Z.to_nat i := vj]> points))
  | _, _ => None
  end.
End cache.

(** ** Partition *)

Inductive loop_exit : Type :=
| Returned   (* [return left_i] was reached *)
| Broke.     (* the inner loop was left through [break] *)

Section partition.
Context {Point Bound : Type}.
(** [splitcond.is_left(v->vec())] *)
Variable is_left : Point → bool.
(** [*bound |= v->vec()] *)
Variable grow : Bound → Point → Bound.

(** The first inner loop: [left_i] walks right over left points. *)
Fixpoint scan_left (fuel : nat) (points : list Point)
    (left_i right_i : Z) (left_bound right_bound : Bound)
    : outcome (loop_exit * Z * Bound * Bound) :=
  match fuel with
  | O => OutOfFuel
  | S fuel' =>
      if left_i >? right_i then Done (Returned, left_i, left_bound, right_bound)
      else
        match CacheRead points left_i with
        | None => Fatal
        | Some left_v =>
            if negb (is_left left_v)
            then Done (Broke, left_i, left_bound, grow right_bound left_v)
            else scan_left fuel' points (left_i + 1) right_i
                   (grow left_bound left_v) right_bound
        end
  end.

(** The second inner loop: [right_i] walks left over right points. *)
Fixpoint scan_right (fuel : nat) (points : list Point)
    (left_i right_i : Z) (left_bound right_bound : Bound)
    : outcome (loop_exit * Z * Bound * Bound) :=
  match fuel with
  | O => OutOfFuel
  | S fuel' =>
      if left_i >? right_i then Done (Returned, right_i, left_bound, right_bound)
      else
        match CacheRead points right_i with
        | None => Fatal
        | Some right_v =>
            if is_left right_v
            then Done (Broke, right_i, grow left_bound right_v, right_bound)
            else scan_right fuel' points left_i (right_i - 1)
                   left_bound (grow right_bound right_v)
        end
  end.

(** The result of [Partition]: the split index, the reordered points and
    the two bounds it grew. *)
Record partitioned : Type := Partitioned {
  split_index : Z;
  points_out : list Point;
  left_out : Bound;
  right_out : Bound
}.

(** The outer [for (;;)]; [n] bounds each inner scan. *)
Fixpoint partition_loop (n fuel : nat) (points : list Point)
    (left_i right_i : Z) (left_bound right_bound : Bound)
    : outcome partitioned :=
  match fuel with
  | O => OutOfFuel
  | S fuel' =>
      '(e1, left_i, left_bound, right_bound) ←
         scan_left n points left_i right_i left_bound right_bound;
      match e1 with
      | Returned => Done (Partitioned left_i points left_bound right_bound)
      | Broke =>
          '(e2, right_i, left_bound, right_bound) ←
             scan_right n points left_i right_i left_bound right_bound;
          match e2 with
          | Returned => Done (Partitioned left_i points left_bound right_bound)
          | Broke =>
              points ← of_option (Swap points left_i right_i);
              partition_loop n fuel' points left_i (right_i - 1)
                left_bound right_bound
          end
      end
  end.

(** [Partition(splitcond, begin, count, points, left_bound, right_bound)];
    [count + 2] rounds are enough for every loop (see [Partition_spec]). *)
Definition Partition (begin count : Z) (points : list Point)
    (left_bound right_bound : Bound) : outcome partitioned :=
  let n := S (S (Z.to_nat count)) in
  partition_loop n n points begin (begin + count - 1) left_bound right_bound.
End partition.

(** ** What [Partition] keeps true while it runs *)
(** The points a node [begin, begin + count) holds. *)
Definition range_of {A : Type} (points : list A) (begin count : Z) : list A :=
  take (Z.to_nat count) (drop (Z.to_nat begin) points).

Section partition_invariant.
Context {Point Bound : Type}.
Variable is_left : Point → bool.
Variable grow : Bound → Point → Bound.
(** The array, the range [B, E] and the bounds [Partition] started from. *)
Variable points0 : list Point.
Variables B E : Z.
Variables lb0 rb0 : Bound.

Definition in_range (points : list Point) (v : Point) : Prop :=
  ∃ i, B ≤ i ≤ E ∧ CacheRead points i = Some v.

Record part_inv (points : list Point) (l r : Z) (lb rb : Bound)
    (L R : list Point) : Prop := {
  inv_len : length points = length points0;
  inv_perm : points ≡ₚ points0;
  inv_out : ∀ i, i < B ∨ E < i → CacheRead points i = CacheRead points0 i;
  inv_l : B ≤ l;
  inv_r : r ≤ E;
  inv_lr : l ≤ r + 1;
  inv_left : ∀ i v, B ≤ i < l → CacheRead points i = Some v → is_left v = true;
  inv_right : ∀ i v, r < i ≤ E → CacheRead points i = Some v → is_left v = false;
  inv_lb : lb = foldl grow lb0 L;
  inv_rb : rb = foldl grow rb0 R;
  inv_L : ∀ v, v ∈ L → is_left v = true ∧ in_range points v;
  inv_R : ∀ v, v ∈ R → is_left v = false ∧ in_range points v;
  inv_L_cover : ∀ i v, B ≤ i < l → CacheRead points i = Some v → v ∈ L;
  inv_R_cover : ∀ i v, r < i ≤ E → CacheRead points i = Some v → v ∈ R
}.
End partition_invariant.

(** ** Numbers of the builder *)

(** C's [double]. *)
Abbreviation double := float.

(** The conversion of an [index_t] to [double], as in
    [double(end_col - begin_col)]. *)
Definition double_of_index (z : Z) : double :=
  if z <? 0 then PrimFloat.opp (PrimFloat.of_uint63 (Uint63.of_Z (- z)))
  else PrimFloat.of_uint63 (Uint63.of_Z z).

(** The conversion to [uint64], and [uint64] arithmetic with its
    wrap-around. *)
Definition uint64 (z : Z) : Z := z mod 2 ^ 64.

Definition u64_mul (a b : Z) : Z := (a * b) mod 2 ^ 64.

Definition u64_add (a b : Z) : Z := (a + b) mod 2 ^ 64.

(** ** What the builder asks of points, intervals and bounds

    [TPoint], [DRange] and [TNode::Bound] are template parameters or
    classes of tree/bounds.h; the builder only uses the operations below. *)
Class Bounds (Point Range Bound : Type) : Type := {
  (** [point->vec().get(d)] *)
  point_get : Point → Z → double;
  (** [range.width()] (spelled [wid()] once in the source) *)
  range_width : Range → double;
  (** [range.mid()] *)
  range_mid : Range → double;
  (** [range.interpolate(factor)] *)
  range_interpolate : Range → double → double;
  (** [bound.Init(dim)] *)
  bound_Init : Z → Bound;
  (** [bound.Reset()] *)
  bound_Reset : Bound → Bound;
  (** [bound |= point->vec()] *)
  bound_or_point : Bound → Point → Bound;
  (** [bound |= other] *)
  bound_or : Bound → Bound → Bound;
  (** [bound.get(d)]; [None] when [d] is not a dimension of the bound *)
  bound_get : Bound → Z → option Range
}.

(** [HrectPartitionCondition] *)
Record HrectPartitionCondition : Type := {
  dimension : Z;
  value : double
}.

Definition is_left `{Bounds Point Range Bound}
    (splitcond : HrectPartitionCondition) (vector : Point) : bool :=
  PrimFloat.ltb (point_get vector (dimension splitcond)) (value splitcond).

(** ** Nodes, decomposition nodes and the builder's state *)

(** The fields of a [ThorNode] the builder reads or writes. *)
Record Node (Bound : Type) : Type := {
  node_begin : Z;
  node_count : Z;
  node_bound : Bound;
  node_leaf : bool;
  node_child0 : option Z;
  node_child1 : option Z
}.
Arguments node_begin {Bound} _.
Arguments node_count {Bound} _.
Arguments node_bound {Bound} _.
Arguments node_leaf {Bound} _.
Arguments node_child0 {Bound} _.
Arguments node_child1 {Bound} _.

Definition node_end {Bound : Type} (node : Node Bound) : Z :=
  node_begin node + node_count node.

Definition set_range {Bound : Type} (node : Node Bound) (begin count : Z) : Node Bound :=
  {| node_begin := begin; node_count := count; node_bound := node_bound node;
     node_leaf := node_leaf node; node_child0 := node_child0 node;
     node_child1 := node_child1 node |}.

Definition set_bound {Bound : Type} (node : Node Bound) (b : Bound) : Node Bound :=
  {| node_begin := node_begin node; node_count := node_count node; node_bound := b;
     node_leaf := node_leaf node; node_child0 := node_child0 node;
     node_child1 := node_child1 node |}.

Definition set_leaf {Bound : Type} (node : Node Bound) : Node Bound :=
  {| node_begin := node_begin node; node_count := node_count node;
     node_bound := node_bound node; node_leaf := true;
     node_child0 := node_child0 node; node_child1 := node_child1 node |}.

Definition set_child {Bound : Type} (node : Node Bound) (which : bool) (child : Z)
    : Node Bound :=
  {| node_begin := node_begin node; node_count := node_count node;
     node_bound := node_bound node; node_leaf := node_leaf node;
     node_child0 := if which then node_child0 node else Some child;
     node_child1 := if which then Some child else node_child1 node |}.

(** A [DecompNode]: [Info(begin_rank, end_rank)], the index of its tree
    node, [nodes_.end_index()] at its creation, and the two child slots
    [set_child] fills. *)
#[warnings="-register-all"]
Inductive DecompNode : Type :=
| MkDecomp (begin_rank end_rank : Z) (index end_index : Z)
    (child0 child1 : option DecompNode).

Definition decomp_info (d : DecompNode) : Z * Z :=
  match d with MkDecomp b e _ _ _ _ => (b, e) end.

Definition decomp_index (d : DecompNode) : Z :=
  match d with MkDecomp _ _ i _ _ _ => i end.

Definition decomp_child0 (d : DecompNode) : option DecompNode :=
  match d with MkDecomp _ _ _ _ c _ => c end.

Definition decomp_child1 (d : DecompNode) : option DecompNode :=
  match d with MkDecomp _ _ _ _ _ c => c end.

(** The calls the builder makes into its collaborators, in the order it
    makes them: the distributed caches ([AllocD] with the index it
    returned, [GiveOwnership]) and the pluggable statistic ([Accumulate]
    of a point, [Accumulate] of a child into its parent, [Postprocess]). *)
Inductive event : Type :=
| Alloc (owner node_i : Z)
| GiveOwnership (blockid rank : Z)
| AccumulatePoint (node_i point_i : Z)
| AccumulateChild (parent_i node_i : Z)
| Postprocess (node_i : Z).

#[global] Instance event_eq_dec : EqDecision event.
Proof. solve_decision. Defined.

Record state (Point Bound : Type) : Type := {
  points_ : list Point;
  nodes_ : list (Node Bound);
  trace : list event
}.
Arguments points_ {Point Bound} _.
Arguments nodes_ {Point Bound} _.
Arguments trace {Point Bound} _.

(** The members of [KdTreeHybridBuilder] and what it reads from its
    surroundings. *)
Record builder (Bound : Type) : Type := {
  leaf_size_ : Z;
  (** [chunk_size_ = points_.n_block_elems()] *)
  chunk_size_ : Z;
  n_points_ : Z;
  dim_ : Z;
  (** [rpc::n_peers()] *)
  n_peers : Z;
  (** the node [nodes_.StartWrite(node_i)] exposes right after
      [nodes_.AllocD], before the builder has written to it *)
  fresh_node : Z → Node Bound
}.
Arguments leaf_size_ {Bound} _.
Arguments chunk_size_ {Bound} _.
Arguments n_points_ {Bound} _.
Arguments dim_ {Bound} _.
Arguments n_peers {Bound} _.
Arguments fresh_node {Bound} _ _.

(** Modelled from the spec: the store groups elements in blocks of its
    block granularity (cachearray.h is not under src/);
    [points_.n_block_elems_mask()] selects the offset inside a block. *)
Definition n_block_elems_mask {Bound : Type} (kd : builder Bound) : Z :=
  chunk_size_ kd - 1.

(** Modelled from the spec: [points_.Blockid(i)], the block that holds
    index [i]. *)
Definition Blockid {Bound : Type} (kd : builder Bound) (i : Z) : Z :=
  i / chunk_size_ kd.

(** [BIG_BAD_NUMBER] of base/common.h. *)
Definition BIG_BAD_NUMBER : Z := 2147480000.

(** ** The builder *)

Section kdtree_builder.
Context {Point Range Bound : Type} `{!Bounds Point Range Bound}.
Variable kd : builder Bound.

Abbreviation State := (state Point Bound).

(** Writing through the pointer [nodes_.StartWrite(node_i)] returned. *)
Definition write_node (st : State) (node_i : Z) (f : Node Bound → Node Bound) : State :=
  {| points_ := points_ st;
     nodes_ := alter f (Z.to_nat node_i) (nodes_ st);
     trace := trace st |}.

Definition read_node (st : State) (node_i : Z) : option (Node Bound) :=
  CacheRead (nodes_ st) node_i.

Definition emit (st : State) (e : event) : State :=
  {| points_ := points_ st; nodes_ := nodes_ st; trace := trace st ++ [e] |}.

Definition set_points (st : State) (points : list Point) : State :=
  {| points_ := points; nodes_ := nodes_ st; trace := trace st |}.

(** [nodes_.AllocD(begin_rank)]: the next index of the node array, which
    from then on holds what the cache puts there. *)
Definition AllocD (st : State) (owner : Z) : Z * State :=
  let node_i := Z.of_nat (length (nodes_ st)) in
  (node_i,
   {| points_ := points_ st;
      nodes_ := nodes_ st ++ [fresh_node kd node_i];
      trace := trace st ++ [Alloc owner node_i] |}).

(** [nodes_.end_index()] *)
Definition end_index (st : State) : Z := Z.of_nat (length (nodes_ st)).

(** [FindBoundingBox_(begin, count, bound)], for [count >= 0] *)
Definition FindBoundingBox_ (points : list Point) (begin count : Z) (bound : Bound)
    : outcome Bound :=
  foldl (λ acc i, b ← acc; point ← of_option (CacheRead points i);
                  mret (bound_or_point b point))
    (Done bound) (seqZ begin count).

(** The short loop of [Build_] that finds the widest dimension. *)
Definition widest_dimension (bound : Bound) : outcome Z :=
  r ← foldl (λ acc d, '(split_dim, max_width) ← acc;
                      range ← of_option (bound_get bound d);
                      let w := range_width range in
                      if PrimFloat.ltb max_width w then mret (d, w)
                      else mret (split_dim, max_width))
        (Done (BIG_BAD_NUMBER, (-1)%float)) (seqZ 0 (dim_ kd));
  mret (fst r).

(** The goal index of a node with more than [chunk_size_] points, before
    it is rounded ([rpc::n_peers()] is not zero, and [begin_col + end_col]
    fits [index_t]). *)
Definition goal_col_of (begin_col end_col begin_rank end_rank : Z) : Z :=
  let split_rank := (begin_rank + end_rank) ÷ 2 in
  if end_rank <=? begin_rank + 1 then (begin_col + end_col) ÷ 2
  else
    u64_add (u64_mul (u64_mul (uint64 split_rank) 2) (uint64 (n_points_ kd)))
            (uint64 (n_peers kd))
      / uint64 (n_peers kd) / 2.

(** "Round the goal to the nearest block." *)
Definition round_to_chunk (goal_col : Z) : Z :=
  (goal_col + chunk_size_ kd ÷ 2) ÷ chunk_size_ kd * chunk_size_ kd.

(** The local variables of [Split_] that its interpolation loop reads and
    writes. *)
Record split_vars : Type := {
  sv_points : list Point;
  sv_begin_col : Z;
  sv_end_col : Z;
  sv_current_range : Range;
  sv_left_bound : Bound;
  sv_right_bound : Bound;
  sv_final_left_bound : Bound;
  sv_final_right_bound : Bound
}.

(** What [Split_] has decided when it reaches its two calls of [Build_]. *)
Record split_decision : Type := {
  sd_points : list Point;
  sd_begin_col : Z;
  sd_split_col : Z;
  sd_end_col : Z;
  sd_final_left_bound : Bound;
  sd_final_right_bound : Bound
}.

(** One round of the [for (;;)] of [Split_]: [inl] when the loop goes
    round again, [inr] when it is left through [break]. *)
Definition split_step (split_dim goal_col : Z) (v : split_vars)
    : outcome (split_vars + split_decision) :=
  let begin_col := sv_begin_col v in
  let end_col := sv_end_col v in
  let split_val :=
    range_interpolate (sv_current_range v)
      (double_of_index (goal_col - begin_col) / double_of_index (end_col - begin_col))%float in
  let left_bound := bound_Reset (sv_left_bound v) in
  let right_bound := bound_Reset (sv_right_bound v) in
  p ← Partition (is_left {| dimension := split_dim; value := split_val |})
        bound_or_point begin_col (end_col - begin_col) (sv_points v)
        left_bound right_bound;
  let split_col := split_index p in
  let left_bound := left_out p in
  let right_bound := right_out p in
  if split_col =? goal_col then
    mret (inr {| sd_points := points_out p;
                 sd_begin_col := begin_col;
                 sd_split_col := split_col;
                 sd_end_col := end_col;
                 sd_final_left_bound := bound_or (sv_final_left_bound v) left_bound;
                 sd_final_right_bound := bound_or (sv_final_right_bound v) right_bound |})
  else if split_col <? goal_col then
    let final_left_bound := bound_or (sv_final_left_bound v) left_bound in
    current_range ← of_option (bound_get right_bound split_dim);
    if PrimFloat.eqb (range_width current_range) 0 then
      mret (inr {| sd_points := points_out p;
                   sd_begin_col := begin_col;
                   sd_split_col := goal_col;
                   sd_end_col := end_col;
                   sd_final_left_bound := bound_or final_left_bound right_bound;
                   sd_final_right_bound := bound_or (sv_final_right_bound v) right_bound |})
    else
      mret (inl {| sv_points := points_out p;
                   sv_begin_col := split_col;
                   sv_end_col := end_col;
                   sv_current_range := current_range;
                   sv_left_bound := left_bound;
                   sv_right_bound := right_bound;
                   sv_final_left_bound := final_left_bound;
                   sv_final_right_bound := sv_final_right_bound v |})
  else
    let final_right_bound := bound_or (sv_final_right_bound v) right_bound in
    current_range ← of_option (bound_get left_bound split_dim);
    if PrimFloat.eqb (range_width current_range) 0 then
      mret (inr {| sd_points := points_out p;
                   sd_begin_col := begin_col;
                   sd_split_col := goal_col;
                   sd_end_col := end_col;
                   sd_final_left_bound := bound_or (sv_final_left_bound v) left_bound;
                   sd_final_right_bound := bound_or final_right_bound left_bound |})
    else
      mret (inl {| sv_points := points_out p;
                   sv_begin_col := begin_col;
                   sv_end_col := split_col;
                   sv_current_range := current_range;
                   sv_left_bound := left_bound;
                   sv_right_bound := right_bound;
                   sv_final_left_bound := sv_final_left_bound v;
                   sv_final_right_bound := final_right_bound |}).

(** The [for (;;)] of [Split_]. *)
Fixpoint split_loop (fuel : nat) (split_dim goal_col : Z) (v : split_vars)
    : outcome split_decision :=
  match fuel with
  | O => OutOfFuel
  | S fuel' =>
      r ← split_step split_dim goal_col v;
      match r with
      | inl v' => split_loop fuel' split_dim goal_col v'
      | inr d => mret d
      end
  end.

(** [Split_] up to its two calls of [Build_]: the transfer of ownership
    and the choice of the split. The source reads [parent] here, which
    [Split_] does not declare; it is the [parent] of the [Build_] that
    called it. *)
Definition give_ownership (st : State) (node : Node Bound) (begin_rank : Z)
    (parent : option Z) : outcome State :=
  parent_differs ←
    match parent with
    | None => mret true
    | Some parent_i =>
        p ← of_option (read_node st parent_i);
        mret (negb (node_begin p =? node_begin node))
    end;
  if (Z.land (node_begin node) (n_block_elems_mask kd) =? 0) && parent_differs
  then mret (emit st (GiveOwnership (Blockid kd (node_begin node)) begin_rank))
  else mret st.

Definition choose_split (fuel : nat) (points : list Point) (node : Node Bound)
    (begin_rank end_rank split_dim : Z) : outcome split_decision :=
  let begin_col := node_begin node in
  let end_col := node_end node in
  current_range ← of_option (bound_get (node_bound node) split_dim);
  let final_left_bound := bound_Init (dim_ kd) in
  let final_right_bound := bound_Init (dim_ kd) in
  if node_count node <=? chunk_size_ kd then
    let split_val := range_mid current_range in
    if PrimFloat.eqb (range_width current_range) 0 then
      mret {| sd_points := points;
              sd_begin_col := begin_col;
              sd_split_col := (node_begin node + node_end node) ÷ 2;
              sd_end_col := end_col;
              sd_final_left_bound := final_left_bound;
              sd_final_right_bound := final_right_bound |}
    else
      p ← Partition (is_left {| dimension := split_dim; value := split_val |})
            bound_or_point begin_col (end_col - begin_col) points
            final_left_bound final_right_bound;
      mret {| sd_points := points_out p;
              sd_begin_col := begin_col;
              sd_split_col := split_index p;
              sd_end_col := end_col;
              sd_final_left_bound := left_out p;
              sd_final_right_bound := right_out p |}
  else
    let goal_col := round_to_chunk (goal_col_of begin_col end_col begin_rank end_rank) in
    split_loop fuel split_dim goal_col
      {| sv_points := points;
         sv_begin_col := begin_col;
         sv_end_col := end_col;
         sv_current_range := current_range;
         sv_left_bound := bound_Init (dim_ kd);
         sv_right_bound := bound_Init (dim_ kd);
         sv_final_left_bound := final_left_bound;
         sv_final_right_bound := final_right_bound |}.

(** The leaf branch of [Build_]: every point of the node is read and
    accumulated. *)
Definition accumulate_points (st : State) (node_i : Z) (node : Node Bound)
    : outcome State :=
  foldl (λ acc i, st ← acc; _ ← of_option (CacheRead (points_ st) i);
                  mret (emit st (AccumulatePoint node_i i)))
    (Done st) (seqZ (node_begin node) (node_count node)).

(** The head of [Build_]: the node is allocated, the leaf decision is
    read off it, then its range and bound are set. *)
Definition Build_enter (st : State) (begin_col end_col begin_rank : Z) (bound : Bound)
    : outcome (State * Z * bool) :=
  let '(node_i, st) := AllocD st begin_rank in
  node ← of_option (read_node st node_i);
  let leaf := node_count node <=? leaf_size_ kd in
  let st := write_node st node_i (λ node, set_range node begin_col (end_col - begin_col)) in
  let st := write_node st node_i
              (λ node, set_bound node (bound_or (bound_Reset (node_bound node)) bound)) in
  mret (st, node_i, leaf).

(** The leaf branch of [Build_], without the [DEBUG_SAME_INT] of a DEBUG
    build. *)
Definition Build_leaf (st : State) (node_i : Z) : outcome State :=
  let st := write_node st node_i set_leaf in
  node ← of_option (read_node st node_i);
  accumulate_points st node_i node.

(** The non-leaf branch of [Build_] down to the two calls of [Build_] in
    [Split_]: the widest dimension, then [Split_]'s transfer of ownership
    and choice of the split. *)
Definition Split_enter (fuel : nat) (st : State) (node_i begin_rank end_rank : Z)
    (parent : option Z) : outcome (State * split_decision) :=
  node ← of_option (read_node st node_i);
  split_dim ← widest_dimension (node_bound node);
  st ← give_ownership st node begin_rank parent;
  d ← choose_split fuel (points_ st) node begin_rank end_rank split_dim;
  mret (set_points st (sd_points d), d).

(** The tail of [Build_]: the statistic is folded into the parent's, then
    finalized, and the decomposition node is made when it is asked for. *)
Definition Build_leave (st : State) (node_i begin_rank end_rank : Z)
    (parent : option Z) (decomp_pp : bool) (left_decomp right_decomp : option DecompNode)
    : State * Z * option DecompNode :=
  let st :=
    match parent with
    | Some parent_i => emit st (AccumulateChild parent_i node_i)
    | None => st
    end in
  let st := emit st (Postprocess node_i) in
  let decomp :=
    if decomp_pp then
      Some (match left_decomp with
            | Some _ =>
                MkDecomp begin_rank end_rank node_i (end_index st)
                  left_decomp right_decomp
            | None => MkDecomp begin_rank end_rank node_i (end_index st) None None
            end)
    else None in
  (st, node_i, decomp).

(** [Build_], with [Split_] unfolded at its one call site (the two call
    each other). [fuel] bounds the depth of the recursion and the rounds
    of the interpolation loop. The result is the index of the node, which
    [set_child] stores, and what was written through [decomp_pp]
    ([false] stands for a null [decomp_pp]). *)
Fixpoint Build_ (fuel : nat) (st : State) (begin_col end_col begin_rank end_rank : Z)
    (bound : Bound) (parent : option Z) (decomp_pp : bool)
    : outcome (State * Z * option DecompNode) :=
  match fuel with
  | O => OutOfFuel
  | S fuel' =>
      '(st, node_i, leaf) ← Build_enter st begin_col end_col begin_rank bound;
      '(st, left_decomp, right_decomp) ←
        (if negb leaf then
           '(st, d) ← Split_enter fuel' st node_i begin_rank end_rank parent;
           let split_rank := (begin_rank + end_rank) ÷ 2 in
           let child_decomp_pp := negb (end_rank - begin_rank <=? 1) in
           '(st, child0, left_decomp) ←
             Build_ fuel' st (sd_begin_col d) (sd_split_col d) begin_rank split_rank
               (sd_final_left_bound d) (Some node_i) child_decomp_pp;
           let st := write_node st node_i (λ node, set_child node false child0) in
           '(st, child1, right_decomp) ←
             Build_ fuel' st (sd_split_col d) (sd_end_col d) split_rank end_rank
               (sd_final_right_bound d) (Some node_i) child_decomp_pp;
           let st := write_node st node_i (λ node, set_child node true child1) in
           mret (st, left_decomp, right_decomp)
         else
           st ← Build_leaf st node_i;
           mret (st, None, None));
      mret (Build_leave st node_i begin_rank end_rank parent decomp_pp
              left_decomp right_decomp)
  end.
End kdtree_builder.

(** ** Intervals and boxes of doubles

    Modelled from the spec: the bounding region of a node is a
    per-dimension interval; tree/bounds.h (the classes [DRange] and
    [DHrectBound]) is not under src/. An interval keeps its two ends, is
    empty after [Reset] ([DBL_MAX], [-DBL_MAX]), grows by comparison, and
    interpolates linearly between its ends. Only the evaluations of the
    builder on concrete points use this instance. *)

Record DRange : Type := {
  lo : double;
  hi : double
}.

Definition DBL_MAX : double := 0x1.fffffffffffffp1023%float.

Definition InitEmptySet : DRange := {| lo := DBL_MAX; hi := (- DBL_MAX)%float |}.

Definition width (r : DRange) : double := (hi r - lo r)%float.

Definition mid (r : DRange) : double := ((hi r + lo r) / 2)%float.

Definition interpolate (r : DRange) (factor : double) : double :=
  (factor * width r + lo r)%float.

Definition DRange_or_double (r : DRange) (d : double) : DRange :=
  {| lo := if PrimFloat.ltb d (lo r) then d else lo r;
     hi := if PrimFloat.ltb (hi r) d then d else hi r |}.

Definition DRange_or (r other : DRange) : DRange :=
  {| lo := if PrimFloat.ltb (lo other) (lo r) then lo other else lo r;
     hi := if PrimFloat.ltb (hi r) (hi other) then hi other else hi r |}.

(** A point is its coordinate vector. *)
Definition Vector : Type := list double.

Definition DHrectBound : Type := list DRange.

Definition Vector_get (v : Vector) (d : Z) : double :=
  default nan (CacheRead v d).

#[global] Instance float_bounds : Bounds Vector DRange DHrectBound := {|
  point_get := Vector_get;
  range_width := width;
  range_mid := mid;
  range_interpolate := interpolate;
  bound_Init := λ dim, replicate (Z.to_nat dim) InitEmptySet;
  bound_Reset := λ b, (λ _, InitEmptySet) <$> b;
  bound_or_point := λ b v, zip_with DRange_or_double b v;
  bound_or := λ b other, zip_with DRange_or b other;
  bound_get := λ b d, CacheRead b d
|}.

(** A node cache whose fresh nodes are empty: no points, an empty box of
    [dim] dimensions, no children. *)
Definition empty_node (dim : Z) : Node DHrectBound :=
  {| node_begin := 0; node_count := 0;
     node_bound := replicate (Z.to_nat dim) InitEmptySet;
     node_leaf := false; node_child0 := None; node_child1 := None |}.

Definition initial_state (points : list Vector) : state Vector DHrectBound :=
  {| points_ := points; nodes_ := []; trace := [] |}.

(** ** Concrete inputs

    The builder on a line: one dimension, blocks of two points, one
    machine, leaves of one point, and a node cache that hands out empty
    nodes. *)
Definition line_builder : builder DHrectBound :=
  {| leaf_size_ := 1; chunk_size_ := 2; n_points_ := 4; dim_ := 1; n_peers := 1;
     fresh_node := λ _, empty_node 1 |}.

(** A node over [begin, begin + count) with the given box, as [Build_]
    leaves it before it calls [Split_]. *)
Definition node_over (begin count : Z) (bound : DHrectBound) : Node DHrectBound :=
  {| node_begin := begin; node_count := count; node_bound := bound;
     node_leaf := false; node_child0 := None; node_child1 := None |}.

(** Four points on a line, the last one far from the others. *)
Definition far_point : list Vector := [[0]; [1]; [2]; [8]]%float.

Definition far_point_root : Node DHrectBound :=
  node_over 0 4 [ {| lo := 0; hi := 8 |} ]%float.

(** Four points on a line that take two adjacent doubles, [1] and the
    next double above it. *)
Definition adjacent_doubles : list Vector :=
  [[1]; [1]; [0x1.0000000000001p0]; [0x1.0000000000001p0]]%float.

Definition adjacent_doubles_root : Node DHrectBound :=
  node_over 0 4 [ {| lo := 1; hi := 0x1.0000000000001p0 |} ]%float.

(** The variables of the interpolation loop when it starts on
    [adjacent_doubles], and after any number of rounds. *)
Definition adjacent_doubles_start : split_vars :=
  {| sv_points := adjacent_doubles;
     sv_begin_col := 0;
     sv_end_col := 4;
     sv_current_range := {| lo := 1; hi := 0x1.0000000000001p0 |}%float;
     sv_left_bound := [InitEmptySet];
     sv_right_bound := [InitEmptySet];
     sv_final_left_bound := [InitEmptySet];
     sv_final_right_bound := [InitEmptySet] |}.

Definition adjacent_doubles_stuck : split_vars :=
  {| sv_points := adjacent_doubles;
     sv_begin_col := 0;
     sv_end_col := 4;
     sv_current_range := {| lo := 1; hi := 0x1.0000000000001p0 |}%float;
     sv_left_bound := [InitEmptySet];
     sv_right_bound := [ {| lo := 1; hi := 0x1.0000000000001p0 |} ]%float;
     sv_final_left_bound := [InitEmptySet];
     sv_final_right_bound := [InitEmptySet] |}.

(** The builder in the plane: two dimensions, one machine, leaves of one
    point, blocks of [chunk] points. *)
Definition plane_builder (chunk : Z) : builder DHrectBound :=
  {| leaf_size_ := 1; chunk_size_ := chunk; n_points_ := 4; dim_ := 2; n_peers := 1;
     fresh_node := λ _, empty_node 2 |}.

(** Four times the point (5, 5). *)
Definition identical_points : list Vector := [[5; 5]; [5; 5]; [5; 5]; [5; 5]]%float.

Definition point_box : DHrectBound :=
  [ {| lo := 5; hi := 5 |}; {| lo := 5; hi := 5 |} ]%float.

(** Four points of which three share their first coordinate. *)
Definition column_points : list Vector := [[0; 0]; [10; 0]; [10; 1]; [10; 2]]%float.

Definition column_box : DHrectBound :=
  [ {| lo := 0; hi := 10 |}; {| lo := 0; hi := 2 |} ]%float.

(** Equality of boxes, end by end. *)
Definition DRange_eqb (r s : DRange) : bool :=
  PrimFloat.eqb (lo r) (lo s) && PrimFloat.eqb (hi r) (hi s).

Fixpoint DHrectBound_eqb (b c : DHrectBound) : bool :=
  match b, c with
  | [], [] => true
  | r :: b', s :: c' => DRange_eqb r s && DHrectBound_eqb b' c'
  | _, _ => false
  end.

(** One hundred points on four machines, in blocks of eight. *)
Definition four_machines : builder DHrectBound :=
  {| leaf_size_ := 32; chunk_size_ := 8; n_points_ := 100; dim_ := 1; n_peers := 4;
     fresh_node := λ _, empty_node 1 |}.

(** [kd] over a node cache whose node 0 carries the count [count] before
    it is written, so that [Build_] can be made to split its first node
    and nothing else. *)
Definition with_root_count (kd : builder DHrectBound) (count : Z) : builder DHrectBound :=
  {| leaf_size_ := leaf_size_ kd; chunk_size_ := chunk_size_ kd;
     n_points_ := n_points_ kd; dim_ := dim_ kd; n_peers := n_peers kd;
     fresh_node := λ i, if i =? 0 then set_range (fresh_node kd i) 0 count
                        else fresh_node kd i |}.

(** Leaves of up to four points, blocks of four points, on a line. *)
Definition wide_leaves : builder DHrectBound :=
  {| leaf_size_ := 4; chunk_size_ := 4; n_points_ := 4; dim_ := 1; n_peers := 1;
     fresh_node := λ _, empty_node 1 |}.

Definition is_GiveOwnership (e : event) : bool :=
  match e with
  | GiveOwnership _ _ => true
  | _ => false
  end.

(** Four points on two machines, over a node cache that makes [Build_]
    split its first node: the build, and the state and the decomposition
    it ends with. *)
Definition two_machines : builder DHrectBound :=
  with_root_count
    {| leaf_size_ := 1; chunk_size_ := 2; n_points_ := 4; dim_ := 1; n_peers := 2;
       fresh_node := λ _, empty_node 1 |} 4.

Definition two_machines_build
    : outcome (state Vector DHrectBound * Z * option DecompNode) :=
  Build_ two_machines 3 (initial_state far_point) 0 4 0 2
    (node_bound far_point_root) None true.

Definition two_machines_state : state Vector DHrectBound :=
  Eval vm_compute in
    match two_machines_build with
    | Done (st, _, _) => st
    | _ => initial_state []
    end.

Definition two_machines_decomp : DecompNode :=
  Eval vm_compute in
    match two_machines_build with
    | Done (_, _, Some d) => d
    | _ => MkDecomp 0 0 0 0 None None
    end.

(** ** Runs of [Build_] *)

Section build_runs.
Context {Point Range Bound : Type} `{!Bounds Point Range Bound}.
Variable kd : builder Bound.

Abbreviation State := (state Point Bound).

(** Whether [Build_] takes its leaf branch for the node of index
    [node_i]: the test it makes on the fresh node. *)
Definition took_leaf (node_i : Z) : bool :=
  node_count (fresh_node kd node_i) <=? leaf_size_ kd.

(** The node as [Build_] leaves it before it branches. *)
Definition entered (node_i begin_col end_col : Z) (bound : Bound) : Node Bound :=
  set_bound (set_range (fresh_node kd node_i) begin_col (end_col - begin_col))
    (bound_or (bound_Reset (node_bound (fresh_node kd node_i))) bound).

(** The transfer [Split_] makes for a node, given where its parent begins
    when it has one. *)
Definition transfer (node : Node Bound) (begin_rank : Z) (parent_begin : option Z)
    : list event :=
  if (Z.land (node_begin node) (n_block_elems_mask kd) =? 0)
     && match parent_begin with
        | None => true
        | Some b => negb (b =? node_begin node)
        end
  then [GiveOwnership (Blockid kd (node_begin node)) begin_rank]
  else [].

(** The two calls on the statistic at the end of [Build_]. *)
Definition stat_events (parent : option Z) (node_i : Z) : list event :=
  match parent with
  | Some parent_i => [AccumulateChild parent_i node_i; Postprocess node_i]
  | None => [Postprocess node_i]
  end.

(** A call of [Build_] that returns, as a derivation: one rule for the
    leaf branch, one for the branch through [Split_] with the two calls
    it makes. [Build_run_of] shows that every [Done] of [Build_] has one. *)
Inductive Build_run :
    State → Z → Z → Z → Z → Bound → option Z → bool
    → State * Z * option DecompNode → Prop :=
| run_leaf st begin_col end_col begin_rank end_rank bound parent decomp_pp
    st1 node_i st2 :
    Build_enter kd st begin_col end_col begin_rank bound = Done (st1, node_i, true) →
    Build_leaf st1 node_i = Done st2 →
    Build_run st begin_col end_col begin_rank end_rank bound parent decomp_pp
      (Build_leave st2 node_i begin_rank end_rank parent decomp_pp None None)
| run_split fuel st begin_col end_col begin_rank end_rank bound parent decomp_pp
    st1 node_i st2 d st3 child0 left_decomp st4 child1 right_decomp :
    Build_enter kd st begin_col end_col begin_rank bound = Done (st1, node_i, false) →
    Split_enter kd fuel st1 node_i begin_rank end_rank parent = Done (st2, d) →
    Build_run st2 (sd_begin_col d) (sd_split_col d)
      begin_rank ((begin_rank + end_rank) ÷ 2) (sd_final_left_bound d)
      (Some node_i) (negb (end_rank - begin_rank <=? 1)) (st3, child0, left_decomp) →
    Build_run (write_node st3 node_i (λ node, set_child node false child0))
      (sd_split_col d) (sd_end_col d)
      ((begin_rank + end_rank) ÷ 2) end_rank (sd_final_right_bound d)
      (Some node_i) (negb (end_rank - begin_rank <=? 1)) (st4, child1, right_decomp) →
    Build_run st begin_col end_col begin_rank end_rank bound parent decomp_pp
      (Build_leave (write_node st4 node_i (λ node, set_child node true child1))
         node_i begin_rank end_rank parent decomp_pp left_decomp right_decomp).

(** Where the parent of a node begins, in the node array of [st]. *)
Definition parent_begin (st : State) (parent : option Z) : option Z :=
  parent_i ← parent; node_begin <$> read_node st parent_i.

(** The calls a run makes for the node [node_i] and below, given the
    nodes [st] it ends with: [node_events parent node_i end_i evs] when
    [evs] are the calls for the nodes [node_i, end_i). *)
Inductive node_events (st : State) : option Z → Z → Z → list event → Prop :=
| leaf_events parent node_i begin_rank node :
    read_node st node_i = Some node →
    took_leaf node_i = true →
    node_events st parent node_i (node_i + 1)
      (Alloc begin_rank node_i
         :: (AccumulatePoint node_i <$> seqZ (node_begin node) (node_count node))
         ++ stat_events parent node_i)
| split_events parent node_i begin_rank node end0 end1 evs0 evs1 :
    read_node st node_i = Some node →
    took_leaf node_i = false →
    node_child0 node = Some (node_i + 1) →
    node_child1 node = Some end0 →
    node_events st (Some node_i) (node_i + 1) end0 evs0 →
    node_events st (Some node_i) end0 end1 evs1 →
    node_events st parent node_i end1
      (Alloc begin_rank node_i
         :: transfer node begin_rank (parent_begin st parent)
         ++ evs0 ++ evs1 ++ stat_events parent node_i).

(** [child_of st p j]: the node [p] of [st] went through [Split_] and
    has [j] as one of its two children. *)
Definition child_of (st : State) (p j : Z) : Prop :=
  took_leaf p = false
  ∧ ∃ node, read_node st p = Some node
            ∧ (node_child0 node = Some j ∨ node_child1 node = Some j).

(** [parent_in st parent node_i p j]: in the build of the node [node_i],
    called with [parent], the node [j] has the parent [p]. *)
Definition parent_in (st : State) (parent : option Z) (node_i p j : Z) : Prop :=
  (j = node_i ∧ parent = Some p) ∨ (node_i ≤ p ∧ child_of st p j).

(** [begins_elsewhere st parent node]: [node] has no parent, or its parent
    begins at another index. *)
Definition begins_elsewhere (st : State) (parent : option Z) (node : Node Bound) : Prop :=
  match parent_begin st parent with
  | None => True
  | Some b => b ≠ node_begin node
  end.

(** [nested st node_i]: from the node [node_i] on, every node of [st]
    that went through [Split_] holds at least one point, and its two
    children lie inside its range, one after the other. *)
Definition nested (st : State) (node_i : Z) : Prop :=
  ∀ p node c0 c1 n0 n1,
    node_i ≤ p →
    read_node st p = Some node →
    took_leaf p = false →
    node_child0 node = Some c0 →
    node_child1 node = Some c1 →
    read_node st c0 = Some n0 →
    read_node st c1 = Some n1 →
    node_begin node < node_end node
    ∧ node_begin node ≤ node_begin n0
    ∧ node_begin n0 ≤ node_end n0
    ∧ node_end n0 ≤ node_begin n1
    ∧ node_begin n1 ≤ node_end n1
    ∧ node_end n1 ≤ node_end node.

(** The nodes whose statistic a list of calls finalizes, in order. *)
Definition finalized (evs : list event) : list Z :=
  omap (λ e, match e with Postprocess node_i => Some node_i | _ => None end) evs.

(** The blocks a list of calls gives away, in order. *)
Definition transferred (evs : list event) : list Z :=
  omap (λ e, match e with GiveOwnership blockid _ => Some blockid | _ => None end) evs.
End build_runs.

(** ** Decomposition nodes that fit the tree *)

Definition decomp_end (d : DecompNode) : Z :=
  match d with MkDecomp _ _ _ e _ _ => e end.

(** [decomp_ok st d]: the decomposition node [d] and those below it each
    stand for a node of [st]; each has no child or two; children come
    with a rank range of more than one machine, which they split at its
    midpoint, and they stand for the two children of the tree node. *)
Fixpoint decomp_ok {Point Bound : Type} (st : state Point Bound) (d : DecompNode) : Prop :=
  match d with
  | MkDecomp begin_rank end_rank index end_index child0 child1 =>
      index < end_index
      ∧ is_Some (CacheRead (nodes_ st) index)
      ∧ match child0, child1 with
        | None, None => True
        | Some d0, Some d1 =>
            end_rank - begin_rank > 1
            ∧ decomp_info d0 = (begin_rank, (begin_rank + end_rank) ÷ 2)
            ∧ decomp_info d1 = ((begin_rank + end_rank) ÷ 2, end_rank)
            ∧ (∃ node, CacheRead (nodes_ st) index = Some node
                 ∧ node_child0 node = Some (decomp_index d0)
                 ∧ node_child1 node = Some (decomp_index d1))
            ∧ decomp_index d0 = index + 1
            ∧ decomp_end d0 = decomp_index d1
            ∧ decomp_end d1 = end_index
            ∧ decomp_ok st d0
            ∧ decomp_ok st d1
        | _, _ => False
        end
  end.

(** An event that names a node names one of [lo, hi). *)
Definition event_within (lo hi : Z) (e : event) : Prop :=
  match e with
  | Alloc _ j | AccumulatePoint j _ | AccumulateChild _ j | Postprocess j => lo ≤ j < hi
  | GiveOwnership _ _ => True
  end.

(** ** The shape of the tree in the node array *)

(** How the ranges of the two children of a node, [begin0, split_col) and
    [split_col, end1), sit in the range [begin_col, end_col) of the node:
    anyhow; inside it; inside it and, for a node of more than [chunk]
    points, split at a multiple of [chunk] with points on both sides; or
    so that they tile it. *)
Definition any_split (begin_col end_col begin0 split_col end1 : Z) : Prop := True.

Definition inside_split (begin_col end_col begin0 split_col end1 : Z) : Prop :=
  begin_col ≤ begin0 ∧ begin0 ≤ split_col ∧ split_col ≤ end1 ∧ end1 ≤ end_col.

Definition block_split (chunk begin_col end_col begin0 split_col end1 : Z) : Prop :=
  inside_split begin_col end_col begin0 split_col end1
  ∧ (chunk < end_col - begin_col →
     (chunk | split_col) ∧ begin0 < split_col ∧ split_col < end1).

Definition tiled_split (begin_col end_col begin0 split_col end1 : Z) : Prop :=
  begin0 = begin_col ∧ end1 = end_col ∧ begin_col ≤ split_col ∧ split_col ≤ end_col.

Section build_shape.
Context {Point Range Bound : Type} `{!Bounds Point Range Bound}.
Variable kd : builder Bound.

(** [laid_out fits st node_i end_i begin_col end_col]: the nodes
    [node_i, end_i) of [st] are the tree below the node [node_i], in
    preorder, and that node has the range [begin_col, end_col). A node that
    took the leaf branch is marked as a leaf and nothing follows it. A node
    that went through [Split_] keeps the leaf mark the node cache gave it
    and is followed by its first child with all the nodes below that
    child, then by its second child with all the nodes below it; the first
    child ends where the second begins, and the ranges of the three
    satisfy [fits]. *)
Inductive laid_out (fits : Z → Z → Z → Z → Z → Prop) (st : state Point Bound)
    : Z → Z → Z → Z → Prop :=
| laid_leaf node_i node :
    read_node st node_i = Some node →
    took_leaf kd node_i = true →
    node_leaf node = true →
    laid_out fits st node_i (node_i + 1) (node_begin node) (node_end node)
| laid_split node_i node end0 end1 begin0 split_col end_col1 :
    read_node st node_i = Some node →
    took_leaf kd node_i = false →
    node_leaf node = node_leaf (fresh_node kd node_i) →
    node_child0 node = Some (node_i + 1) →
    node_child1 node = Some end0 →
    fits (node_begin node) (node_end node) begin0 split_col end_col1 →
    laid_out fits st (node_i + 1) end0 begin0 split_col →
    laid_out fits st end0 end1 split_col end_col1 →
    laid_out fits st node_i end1 (node_begin node) (node_end node).
End build_shape.

(** [in_one_block kd begin_col end_col]: the indices of [begin_col, end_col),
    when there are any, are in one block of the point array. *)
Definition in_one_block {Bound : Type} (kd : builder Bound) (begin_col end_col : Z) : Prop :=
  begin_col < end_col → Blockid kd begin_col = Blockid kd (end_col - 1).

(** ** Reading the calls of a build *)

(** [served begin_rank end_rank e]: a call that names a machine (the
    allocation of a node, the transfer of a block) names one of the rank
    range [begin_rank, end_rank), or [begin_rank] itself when that range
    is empty. *)
Definition served (begin_rank end_rank : Z) (e : event) : Prop :=
  match e with
  | Alloc rank _ | GiveOwnership _ rank =>
      begin_rank ≤ rank ∧ (rank < end_rank ∨ rank = begin_rank)
  | _ => True
  end.

(** The point indices a list of calls accumulates into the statistic of
    the node [node_i], in order. *)
Definition accumulated_into (node_i : Z) (evs : list event) : list Z :=
  omap (λ e, match e with
             | AccumulatePoint j point_i => if decide (j = node_i) then Some point_i else None
             | _ => None
             end) evs.

(** The point indices a list of calls accumulates into any leaf, in
    order. *)
Definition accumulated_points (evs : list event) : list Z :=
  omap (λ e, match e with AccumulatePoint _ point_i => Some point_i | _ => None end) evs.

(** ** Machine indices

    [index_t] is a signed machine integer of [bits] bits (base/common.h,
    which sets its width, is not under src/). *)

(** [z] is a value of [index_t]. *)
Definition index_t_holds (bits z : Z) : Prop :=
  - 2 ^ (bits - 1) ≤ z < 2 ^ (bits - 1).

(** What a two's complement machine keeps of [z] in an [index_t]. *)
Definition index_t_wrap (bits z : Z) : Z :=
  (z + 2 ^ (bits - 1)) mod 2 ^ bits - 2 ^ (bits - 1).

(** [(begin_col + end_col) / 2] of [Split_], as the machine computes it. *)
Definition midpoint_goal (bits begin_col end_col : Z) : Z :=
  index_t_wrap bits (begin_col + end_col) ÷ 2.

(** What [DEBUG_SAME_INT] checks in the leaf branch of [Build_]: the first
    and the last index of the leaf are in one block. *)
Definition leaf_same_block {Bound : Type} (kd : builder Bound) (begin_col end_col : Z)
    : Prop :=
  begin_col ÷ chunk_size_ kd = (end_col - 1) ÷ chunk_size_ kd.

(** Four points on a line on one machine, over a node cache that makes
    [Build_] split its first node: the build and the state it ends
    with. *)
Definition one_machine : builder DHrectBound := with_root_count line_builder 4.

Definition one_machine_build
    : outcome (state Vector DHrectBound * Z * option DecompNode) :=
  Build_ one_machine 3 (initial_state far_point) 0 4 0 1
    (node_bound far_point_root) None true.

Definition one_machine_state : state Vector DHrectBound :=
  Eval vm_compute in
    match one_machine_build with
    | Done (st, _, _) => st
    | _ => initial_state []
    end.

(** Four points in the plane in one block of four, over a node cache
    that makes [Build_] split its first node: the build and the state it
    ends with. *)
Definition one_block : builder DHrectBound := with_root_count (plane_builder 4) 4.

Definition one_block_build
    : outcome (state Vector DHrectBound * Z * option DecompNode) :=
  Build_ one_block 3 (initial_state column_points) 0 4 0 1 column_box None true.

Definition one_block_state : state Vector DHrectBound :=
  Eval vm_compute in
    match one_block_build with
    | Done (st, _, _) => st
    | _ => initial_state []
    end.

(** Seven integers, and "less than five" on them. *)
Definition seven_numbers : list Z := [9; 7; 1; 8; 2; 3; 0].

Definition below_five (x : Z) : bool := x <? 5.

(** Eight points on a line on one machine, in blocks of two, over a node
    cache that makes [Build_] split its first node and the second child
    of it: the build and the state it ends with. *)
Definition eight_points : list Vector :=
  [[0]; [1]; [2]; [3]; [4]; [5]; [6]; [7]]%float.

Definition two_splits : builder DHrectBound :=
  {| leaf_size_ := 1; chunk_size_ := 2; n_points_ := 8; dim_ := 1; n_peers := 1;
     fresh_node := λ i, if (i =? 0) || (i =? 2) then set_range (empty_node 1) 0 8
                        else empty_node 1 |}.

Definition two_splits_build
    : outcome (state Vector DHrectBound * Z * option DecompNode) :=
  Build_ two_splits 4 (initial_state eight_points) 0 8 0 1
    [ {| lo := 0; hi := 7 |} ]%float None true.

Definition two_splits_state : state Vector DHrectBound :=
  Eval vm_compute in
    match two_splits_build with
    | Done (st, _, _) => st
    | _ => initial_state []
    end.

(** * Proofs *)

(** ** The cache array *)

Section cache_facts.
Context {A : Type}.
Implicit Types (points : list A) (i j k : Z) (v : A).

Lemma CacheRead_Some points i v :
  CacheRead points i = Some v ↔ 0 ≤ i ∧ points !! Z.to_nat i = Some v.
Proof.
  unfold CacheRead. destruct (Z.ltb_spec i 0) as [Hlt|Hge]; split.
  - done.
  - intros [? _]; lia.
  - done.
  - by intros [_ ?].
Qed.

Lemma CacheRead_in_range points i :
  0 ≤ i < Z.of_nat (length points) → is_Some (CacheRead points i).
Proof.
  intros [H0 H1]. unfold CacheRead.
  destruct (Z.ltb_spec i 0); [lia|]. apply lookup_lt_is_Some. lia.
Qed.

Lemma CacheRead_lt points i v :
  CacheRead points i = Some v → 0 ≤ i < Z.of_nat (length points).
Proof.
  intros [H0 H1]%CacheRead_Some. apply lookup_lt_Some in H1. lia.
Qed.

Lemma CacheRead_elem_of points i v : CacheRead points i = Some v → v ∈ points.
Proof. intros [_ H]%CacheRead_Some. by eapply list_elem_of_lookup_2. Qed.

Lemma Swap_Some points i j vi vj :
  CacheRead points i = Some vi → CacheRead points j = Some vj →
  ∃ points', Swap points i j = Some points'
    ∧ length points' = length points
    ∧ points' ≡ₚ points
    ∧ CacheRead points' i = Some vj
    ∧ CacheRead points' j = Some vi
    ∧ ∀ k, k ≠ i → k ≠ j → CacheRead points' k = CacheRead points k.
Proof.
  intros Hi Hj. unfold Swap. rewrite Hi, Hj. eexists; split; [done|].
  pose proof (CacheRead_lt _ _ _ Hi) as Li. pose proof (CacheRead_lt _ _ _ Hj) as Lj.
  apply CacheRead_Some in Hi as [Hi0 Hi]. apply CacheRead_Some in Hj as [Hj0 Hj].
  split; [by rewrite !length_insert|].
  split; [by apply Permutation_insert_swap|].
  split; [|split].
  - apply CacheRead_Some; split; [done|].
    destruct (decide (Z.to_nat i = Z.to_nat j)) as [E|N].
    + rewrite E. rewrite list_lookup_insert_eq by (rewrite length_insert; lia).
      congruence.
    + rewrite list_lookup_insert_ne by done.
      rewrite list_lookup_insert_eq by lia. done.
  - apply CacheRead_Some; split; [done|].
    rewrite list_lookup_insert_eq by (rewrite length_insert; lia). done.
  - intros k Hki Hkj. unfold CacheRead. destruct (Z.ltb_spec k 0); [done|].
    rewrite !list_lookup_insert_ne by lia. done.
Qed.
End cache_facts.

(** ** [Partition] *)

Section partition_facts.
Context {Point Bound : Type}.
Variable is_left : Point → bool.
Variable grow : Bound → Point → Bound.
Variable points0 : list Point.
Variables B E : Z.
Variables lb0 rb0 : Bound.
Hypothesis B_nonneg : 0 ≤ B.
Hypothesis E_inside : E < Z.of_nat (length points0).

Local Abbreviation part_inv := (part_inv is_left grow points0 B E lb0 rb0).
Local Abbreviation in_range := (in_range B E).

Lemma scan_left_spec fuel : ∀ points l r lb rb L R,
  part_inv points l r lb rb L R →
  (Z.to_nat (r - l + 1) < fuel)%nat →
  ∃ e l' lb' rb' L' R',
    scan_left is_left grow fuel points l r lb rb = Done (e, l', lb', rb')
    ∧ part_inv points l' r lb' rb' L' R'
    ∧ l ≤ l'
    ∧ match e with
      | Returned => l' = r + 1 ∧ R' = R
      | Broke => l' ≤ r ∧ ∃ v, CacheRead points l' = Some v
                   ∧ is_left v = false ∧ R' = R ++ [v]
      end.
Proof.
  induction fuel as [|fuel IH]; intros points l r lb rb L R I Hf; [lia|].
  simpl. destruct (Z.gtb_spec l r) as [Hgt|Hle].
  { exists Returned, l, lb, rb, L, R. split; [done|]. split; [done|]. destruct I. split; [lia|]. split; [lia|done]. }
  destruct (CacheRead_in_range points l) as [v Hv].
  { destruct I. lia. }
  rewrite Hv. destruct (is_left v) eqn:Hlv; simpl.
  - destruct (IH points (l + 1) r (grow lb v) rb (L ++ [v]) R) as
      (e & l' & lb' & rb' & L' & R' & Hs & I' & Hll & He); [|lia|].
    { destruct I. split; auto; try lia.
      - intros i w Hi Hw. destruct (decide (i = l)) as [->|]; [congruence|].
        eapply inv_left0; [|done]. lia.
      - rewrite foldl_app. simpl. congruence.
      - intros w [Hw| ->%list_elem_of_singleton]%elem_of_app; [auto|].
        split; [done|]. exists l. split; [lia|done].
      - intros i w Hi Hw. apply elem_of_app.
        destruct (decide (i = l)) as [->|].
        + right. apply list_elem_of_singleton. congruence.
        + left. eapply inv_L_cover0; [|done]. lia. }
    exists e, l', lb', rb', L', R'. split; [done|]. split; [done|].
    split; [lia|done].
  - exists Broke, l, lb, (grow rb v), L, (R ++ [v]). split; [done|].
    split.
    + destruct I. split; auto.
      * rewrite foldl_app. simpl. congruence.
      * intros w [Hw| ->%list_elem_of_singleton]%elem_of_app; [auto|].
        split; [done|]. exists l. split; [lia|done].
      * intros i w Hi Hw. apply elem_of_app. left. eauto.
    + split; [lia|]. split; [lia|]. exists v. done.
Qed.

Lemma scan_right_spec fuel : ∀ points l r lb rb L R,
  part_inv points l r lb rb L R →
  (Z.to_nat (r - l + 1) < fuel)%nat →
  ∃ e r' lb' rb' L' R',
    scan_right is_left grow fuel points l r lb rb = Done (e, r', lb', rb')
    ∧ part_inv points l r' lb' rb' L' R'
    ∧ (∀ v, v ∈ R → v ∈ R')
    ∧ r' ≤ r
    ∧ match e with
      | Returned => l = r' + 1
      | Broke => l ≤ r' ∧ ∃ v, CacheRead points r' = Some v ∧ is_left v = true
      end.
Proof.
  induction fuel as [|fuel IH]; intros points l r lb rb L R I Hf; [lia|].
  simpl. destruct (Z.gtb_spec l r) as [Hgt|Hle].
  { exists Returned, r, lb, rb, L, R. split; [done|]. split; [done|]. split; [done|]. destruct I. lia. }
  destruct (CacheRead_in_range points r) as [v Hv].
  { destruct I. lia. }
  rewrite Hv. destruct (is_left v) eqn:Hlv; simpl.
  - exists Broke, r, (grow lb v), rb, (L ++ [v]), R. split; [done|].
    split; [|split; [done|split; [lia|split; [lia|by exists v]]]].
    destruct I. split; auto.
    + rewrite foldl_app. simpl. congruence.
    + intros w [Hw| ->%list_elem_of_singleton]%elem_of_app; [auto|].
      split; [done|]. exists r. split; [lia|done].
    + intros i w Hi Hw. apply elem_of_app. left. eauto.
  - destruct (IH points l (r - 1) lb (grow rb v) L (R ++ [v])) as
      (e & r' & lb' & rb' & L' & R' & Hs & I' & HR & Hrr & He); [|lia|].
    { destruct I. split; auto; try lia.
      - intros i w Hi Hw. destruct (decide (i = r)) as [->|]; [congruence|].
        eapply inv_right0; [|done]. lia.
      - rewrite foldl_app. simpl. congruence.
      - intros w [Hw| ->%list_elem_of_singleton]%elem_of_app; [auto|].
        split; [done|]. exists r. split; [lia|done].
      - intros i w Hi Hw. apply elem_of_app.
        destruct (decide (i = r)) as [->|].
        + right. apply list_elem_of_singleton. congruence.
        + left. eapply inv_R_cover0; [|done]. lia. }
    exists e, r', lb', rb', L', R'. split; [done|]. split; [done|].
    split; [|split; [lia|done]]. intros w Hw. apply HR, elem_of_app. by left.
Qed.

Lemma partition_loop_spec n fuel : ∀ points l r lb rb L R,
  part_inv points l r lb rb L R →
  (Z.to_nat (E - B + 1) < n)%nat →
  (Z.to_nat (r - l + 1) < fuel)%nat →
  ∃ s points' lb' rb' L' R',
    partition_loop is_left grow n fuel points l r lb rb
      = Done (Partitioned s points' lb' rb')
    ∧ part_inv points' s (s - 1) lb' rb' L' R'.
Proof.
  induction fuel as [|fuel IH]; intros points l r lb rb L R I Hn Hf; [lia|].
  simpl.
  destruct (scan_left_spec n points l r lb rb L R I) as
    (e1 & l1 & lb1 & rb1 & L1 & R1 & Hs1 & I1 & Hll1 & He1).
  { destruct I. lia. }
  rewrite Hs1. simpl. destruct e1.
  { destruct He1 as [-> _]. exists (r + 1), points, lb1, rb1, L1, R1.
    split; [done|]. by replace (r + 1 - 1) with r by lia. }
  destruct He1 as (Hl1 & vl & Hvl & Hvl_left & ->).
  destruct (scan_right_spec n points l1 r lb1 rb1 L1 (R ++ [vl]) I1) as
    (e2 & r2 & lb2 & rb2 & L2 & R2 & Hs2 & I2 & HR & Hrr2 & He2).
  { destruct I1. lia. }
  rewrite Hs2. simpl. destruct e2.
  { subst l1. exists (r2 + 1), points, lb2, rb2, L2, R2.
    split; [done|]. by replace (r2 + 1 - 1) with r2 by lia. }
  destruct He2 as (Hr2 & vr & Hvr & Hvr_left).
  assert (l1 ≠ r2) as Hne by (intros ->; congruence).
  destruct (Swap_Some points l1 r2 vl vr Hvl Hvr) as
    (points' & Hsw & Hlen & Hperm & Hrl & Hrr & Hother).
  rewrite Hsw. simpl.
  assert (∀ v, in_range points v → in_range points' v) as Hin.
  { intros v (i & Hi & Hv). destruct I2.
    destruct (decide (i = l1)) as [->|]; [|destruct (decide (i = r2)) as [->|]].
    - exists r2. split; [lia|congruence].
    - exists l1. split; [lia|congruence].
    - exists i. split; [done|]. by rewrite Hother. }
  apply (IH points' l1 (r2 - 1) lb2 rb2 L2 R2); [|done|lia].
  destruct I2. split; auto; try lia; try congruence.
  - by rewrite Hperm.
  - intros i Hi. rewrite Hother by lia. auto.
  - intros i v Hi. rewrite Hother by lia. eauto.
  - intros i v Hi Hv. destruct (decide (i = r2)) as [->|]; [congruence|].
    rewrite Hother in Hv by lia. eapply inv_right0; [|done]. lia.
  - intros v Hv. destruct (inv_L0 v Hv). auto.
  - intros v Hv. destruct (inv_R0 v Hv). auto.
  - intros i v Hi. rewrite Hother by lia. eauto.
  - intros i v Hi Hv. destruct (decide (i = r2)) as [->|].
    + apply HR, elem_of_app. right. apply list_elem_of_singleton. congruence.
    + rewrite Hother in Hv by lia. eapply inv_R_cover0; [|done]. lia.
Qed.
End partition_facts.

Section range_facts.
Context {A : Type}.
Implicit Types (points : list A) (v : A).

Lemma elem_of_range_of points begin count v :
  0 ≤ begin →
  v ∈ range_of points begin count
  ↔ ∃ i, begin ≤ i < begin + count ∧ CacheRead points i = Some v.
Proof.
  intros Hb. unfold range_of. rewrite list_elem_of_lookup. split.
  - intros [k Hk]. apply lookup_take_Some in Hk as [Hk Hlt].
    rewrite lookup_drop in Hk.
    exists (begin + Z.of_nat k). split; [lia|].
    apply CacheRead_Some. split; [lia|].
    by replace (Z.to_nat (begin + Z.of_nat k)) with (Z.to_nat begin + k)%nat by lia.
  - intros (i & Hi & [_ Hv]%CacheRead_Some).
    exists (Z.to_nat (i - begin)). apply lookup_take_Some. split; [|lia].
    rewrite lookup_drop.
    by replace (Z.to_nat begin + Z.to_nat (i - begin))%nat with (Z.to_nat i) by lia.
Qed.

Lemma range_of_split points begin count :
  0 ≤ begin → 0 ≤ count →
  points = take (Z.to_nat begin) points ++ range_of points begin count
             ++ drop (Z.to_nat (begin + count)) points.
Proof.
  intros Hb Hc. unfold range_of.
  replace (Z.to_nat (begin + count)) with (Z.to_nat begin + Z.to_nat count)%nat by lia.
  rewrite <- drop_drop. by rewrite !take_drop.
Qed.

Lemma range_of_perm points points' begin count :
  0 ≤ begin → 0 ≤ count →
  length points' = length points →
  points' ≡ₚ points →
  (∀ i, i < begin ∨ begin + count ≤ i → CacheRead points' i = CacheRead points i) →
  range_of points' begin count ≡ₚ range_of points begin count.
Proof.
  intros Hb Hc Hlen Hperm Hout.
  assert (∀ k : nat, (Z.of_nat k < begin ∨ begin + count ≤ Z.of_nat k) →
            points' !! k = points !! k) as Hout'.
  { intros k Hk. specialize (Hout (Z.of_nat k) Hk). unfold CacheRead in Hout.
    destruct (Z.ltb_spec (Z.of_nat k) 0); [lia|]. by rewrite Nat2Z.id in Hout. }
  assert (take (Z.to_nat begin) points' = take (Z.to_nat begin) points) as Ht.
  { apply list_eq. intros k. destruct (decide (k < Z.to_nat begin)%nat).
    - rewrite !lookup_take_lt by done. apply Hout'. lia.
    - rewrite !lookup_take_ge by lia. done. }
  assert (drop (Z.to_nat (begin + count)) points'
          = drop (Z.to_nat (begin + count)) points) as Hd.
  { apply list_eq. intros k. rewrite !lookup_drop. apply Hout'. lia. }
  rewrite (range_of_split points begin count Hb Hc) in Hperm at 1.
  rewrite (range_of_split points' begin count Hb Hc) in Hperm at 1.
  rewrite Ht, Hd in Hperm.
  apply Permutation_app_inv_l in Hperm.
  by apply Permutation_app_inv_r in Hperm.
Qed.
End range_facts.

Section partition_correct.
Context {Point Bound : Type}.
Variable is_left : Point → bool.
Variable grow : Bound → Point → Bound.

Lemma Partition_inv begin count (points : list Point) (lb rb : Bound) :
  0 ≤ begin → 0 ≤ count → begin + count ≤ Z.of_nat (length points) →
  ∃ s points' lb' rb' L R,
    Partition is_left grow begin count points lb rb
      = Done (Partitioned s points' lb' rb')
    ∧ part_inv is_left grow points begin (begin + count - 1) lb rb
        points' s (s - 1) lb' rb' L R.
Proof.
  intros Hb Hc Hlen. unfold Partition.
  apply (partition_loop_spec is_left grow points begin (begin + count - 1) lb rb)
    with (L := []) (R := []); try lia.
  split; try done; try lia.
  all: first [ intros v Hv; by apply elem_of_nil in Hv | intros i v Hi; lia ].
Qed.
End partition_correct.

Section partition_theorems.
Context {Point Bound : Type}.
Variable is_left : Point → bool.
Variable grow : Bound → Point → Bound.

(** Zero-width range: [left_i > right_i] holds at once, nothing is read. *)
Lemma Partition_zero_width begin (points : list Point) (lb rb : Bound) :
  Partition is_left grow begin 0 points lb rb = Done (Partitioned begin points lb rb).
Proof.
  unfold Partition. simpl.
  destruct (Z.gtb_spec begin (begin + 0 - 1)); [done|lia].
Qed.


(** C1. [Partition] on a range [begin, begin + count) of the array, with
    [count >= 0], returns; it permutes the points of the range among
    themselves and leaves every other index alone; every index of the
    range below the split index holds a point that satisfies the
    predicate and every index from the split index on holds one that does
    not. A zero-width range returns [begin] at once, a range whose points
    all satisfy the predicate returns [begin + count], and one where none
    does returns [begin]. *)
Theorem Partition_spec begin count (points : list Point) (lb rb : Bound) :
  0 ≤ begin → 0 ≤ count → begin + count ≤ Z.of_nat (length points) →
  ∃ p,
    Partition is_left grow begin count points lb rb = Done p
    ∧ begin ≤ split_index p ≤ begin + count
    ∧ length (points_out p) = length points
    ∧ (∀ i, i < begin ∨ begin + count ≤ i →
            CacheRead (points_out p) i = CacheRead points i)
    ∧ range_of (points_out p) begin count ≡ₚ range_of points begin count
    ∧ (∀ i v, begin ≤ i < split_index p →
              CacheRead (points_out p) i = Some v → is_left v = true)
    ∧ (∀ i v, split_index p ≤ i < begin + count →
              CacheRead (points_out p) i = Some v → is_left v = false)
    ∧ (count = 0 → p = Partitioned begin points lb rb)
    ∧ (Forall (λ v, is_left v = true) (range_of points begin count) →
       split_index p = begin + count)
    ∧ (Forall (λ v, is_left v = false) (range_of points begin count) →
       split_index p = begin).
Proof.
  intros Hb Hc Hlen.
  destruct (Partition_inv is_left grow begin count points lb rb Hb Hc Hlen)
    as (s & points' & lb' & rb' & L & R & HP & I).
  exists (Partitioned s points' lb' rb'). simpl.
  assert (range_of points' begin count ≡ₚ range_of points begin count) as Hperm.
  { destruct I. apply range_of_perm; try done.
    intros i Hi. apply inv_out0. lia. }
  assert (∀ i, begin ≤ i < begin + count → ∃ v, CacheRead points' i = Some v
            ∧ v ∈ range_of points begin count) as Hmem.
  { intros i Hi. destruct (CacheRead_in_range points' i) as [v Hv].
    { destruct I. lia. }
    exists v. split; [done|]. rewrite <- Hperm.
    apply elem_of_range_of; [done|]. by exists i. }
  destruct I. repeat (split; [first [done | lia]|]).
  split; [intros i Hi; apply inv_out0; lia|].
  split; [done|].
  split; [intros i v Hi; apply inv_left0; lia|].
  split; [intros i v Hi; apply inv_right0; lia|].
  split; [|split].
  - intros ->. rewrite Partition_zero_width in HP. by inversion HP.
  - intros Hall. destruct (decide (s < begin + count)); [|lia].
    destruct (Hmem s) as (v & Hv & Hin); [lia|].
    rewrite Forall_forall in Hall. specialize (Hall v Hin).
    assert (is_left v = false) by (eapply inv_right0; [|done]; lia). congruence.
  - intros Hnone. destruct (decide (begin < s)); [|lia].
    destruct (Hmem begin) as (v & Hv & Hin); [lia|].
    rewrite Forall_forall in Hnone. specialize (Hnone v Hin).
    assert (is_left v = true) by (eapply inv_left0; [|done]; lia). congruence.
Qed.
End partition_theorems.

(** [Partition_spec] at work: the range [1, 6) of seven integers, split
    at "less than 5". *)
Lemma Partition_spec_witness :
  ∃ p, Partition (λ x, x <? 5) (λ (b : list Z) x, x :: b) 1 5 [9; 7; 1; 8; 2; 3; 0] [] []
       = Done p
     ∧ split_index p = 4
     ∧ points_out p = [9; 3; 1; 2; 8; 7; 0].
Proof.
  destruct (Partition_spec (λ x, x <? 5) (λ (b : list Z) x, x :: b) 1 5
              [9; 7; 1; 8; 2; 3; 0] [] []) as (p & Hp & _);
    [lia | lia | simpl; lia |].
  exists p. split; [exact Hp|].
  vm_compute in Hp. injection Hp as <-. split; reflexivity.
Defined.

(** ** The goal index of [Split_] *)

Section goal.
Context {Point Range Bound : Type} `{!Bounds Point Range Bound}.
Variable kd : builder Bound.

(** Above [chunk_size_] points, [Split_] runs its interpolation loop
    towards the rounded goal. *)
Lemma choose_split_goal fuel (points : list Point) (node : Node Bound)
    begin_rank end_rank split_dim range :
  chunk_size_ kd < node_count node →
  bound_get (node_bound node) split_dim = Some range →
  choose_split kd fuel points node begin_rank end_rank split_dim
  = split_loop fuel split_dim
      (round_to_chunk kd
         (goal_col_of kd (node_begin node) (node_end node) begin_rank end_rank))
      {| sv_points := points;
         sv_begin_col := node_begin node;
         sv_end_col := node_end node;
         sv_current_range := range;
         sv_left_bound := bound_Init (dim_ kd);
         sv_right_bound := bound_Init (dim_ kd);
         sv_final_left_bound := bound_Init (dim_ kd);
         sv_final_right_bound := bound_Init (dim_ kd) |}.
Proof.
  intros Hc Hget. unfold choose_split. rewrite Hget. simpl.
  destruct (Z.leb_spec (node_count node) (chunk_size_ kd)); [lia|done].
Qed.

Lemma goal_col_one_machine begin_col end_col begin_rank end_rank :
  end_rank ≤ begin_rank + 1 →
  goal_col_of kd begin_col end_col begin_rank end_rank = (begin_col + end_col) ÷ 2.
Proof.
  intros H. unfold goal_col_of. destruct (Z.leb_spec end_rank (begin_rank + 1)); [done|lia].
Qed.

Lemma goal_col_machines begin_col end_col begin_rank end_rank :
  begin_rank + 1 < end_rank →
  0 ≤ (begin_rank + end_rank) ÷ 2 < 2 ^ 31 → 0 < n_peers kd < 2 ^ 31 →
  0 ≤ n_points_ kd < 2 ^ 63 →
  2 * ((begin_rank + end_rank) ÷ 2) * n_points_ kd + n_peers kd < 2 ^ 64 →
  let split_rank := (begin_rank + end_rank) ÷ 2 in
  let goal := goal_col_of kd begin_col end_col begin_rank end_rank in
  2 * n_peers kd * goal ≤ 2 * split_rank * n_points_ kd + n_peers kd
    < 2 * n_peers kd * (goal + 1).
Proof.
  intros Hr Hs Hp Hn Hov. cbv zeta. unfold goal_col_of.
  destruct (Z.leb_spec end_rank (begin_rank + 1)); [lia|].
  set (s := (begin_rank + end_rank) ÷ 2) in *.
  set (n := n_points_ kd) in *. set (P := n_peers kd) in *.
  assert (0 ≤ s * n) by nia.
  unfold u64_add, u64_mul, uint64.
  rewrite (Z.mod_small s) by nia.
  rewrite (Z.mod_small (s * 2)) by nia.
  rewrite (Z.mod_small n) by nia.
  rewrite (Z.mod_small (s * 2 * n)) by nia.
  rewrite (Z.mod_small P) by nia.
  rewrite (Z.mod_small (s * 2 * n + P)) by nia.
  rewrite Z.div_div by lia.
  pose proof (Z.div_mod (s * 2 * n + P) (P * 2) ltac:(lia)) as D.
  pose proof (Z.mod_pos_bound (s * 2 * n + P) (P * 2) ltac:(lia)) as M.
  nia.
Qed.

Lemma round_to_chunk_nearest goal :
  0 < chunk_size_ kd → 0 ≤ goal →
  let r := round_to_chunk kd goal in
  (chunk_size_ kd | r) ∧ - chunk_size_ kd ≤ 2 * (r - goal) ≤ chunk_size_ kd.
Proof.
  intros Hc Hg. cbv zeta. unfold round_to_chunk.
  set (c := chunk_size_ kd) in *.
  rewrite (Z.quot_div_nonneg c 2) by lia.
  rewrite Z.quot_div_nonneg by (try apply Z.add_nonneg_nonneg; try apply Z.div_pos; lia).
  split; [apply Z.divide_factor_r|].
  pose proof (Z.div_mod c 2 ltac:(lia)) as D2.
  pose proof (Z.mod_pos_bound c 2 ltac:(lia)) as M2.
  pose proof (Z.div_mod (goal + c / 2) c ltac:(lia)) as D.
  pose proof (Z.mod_pos_bound (goal + c / 2) c ltac:(lia)) as M.
  nia.
Qed.

(** A sum that fits [index_t] is the sum the machine computes. *)
Lemma index_t_wrap_holds bits z :
  0 < bits → index_t_holds bits z → index_t_wrap bits z = z.
Proof.
  unfold index_t_holds, index_t_wrap. intros Hb Hz.
  assert (2 ^ bits = 2 * 2 ^ (bits - 1)) as Hpow.
  { replace bits with (1 + (bits - 1)) at 1 by lia.
    rewrite Z.pow_add_r by lia. done. }
  rewrite Z.mod_small by lia. lia.
Qed.

(** C5 (amended). For a node of more than [chunk_size_] points [Split_]
    seeks the rounded goal, where the goal index is the index midpoint
    [(begin + end) / 2] when the rank range holds at most one machine
    ([end_rank <= begin_rank + 1], an empty rank range included) and
    [begin + end] fits [index_t]: then the midpoint the machine computes
    is the one of the integers. Otherwise, on several machines, the goal
    is [split_rank / n_peers] of the global point count, rounded to the
    nearest integer. Either goal is then rounded to the nearest multiple
    of the chunk size. *)
Theorem goal_col_spec begin_col end_col begin_rank end_rank :
  0 < chunk_size_ kd →
  0 ≤ (begin_rank + end_rank) ÷ 2 < 2 ^ 31 → 0 < n_peers kd < 2 ^ 31 →
  0 ≤ n_points_ kd < 2 ^ 63 →
  2 * ((begin_rank + end_rank) ÷ 2) * n_points_ kd + n_peers kd < 2 ^ 64 →
  let split_rank := (begin_rank + end_rank) ÷ 2 in
  let goal := goal_col_of kd begin_col end_col begin_rank end_rank in
  let rounded := round_to_chunk kd goal in
  (∀ fuel (points : list Point) node split_dim range,
     node_begin node = begin_col → node_end node = end_col →
     chunk_size_ kd < node_count node →
     bound_get (node_bound node) split_dim = Some range →
     choose_split kd fuel points node begin_rank end_rank split_dim
     = split_loop fuel split_dim rounded
         {| sv_points := points;
            sv_begin_col := begin_col;
            sv_end_col := end_col;
            sv_current_range := range;
            sv_left_bound := bound_Init (dim_ kd);
            sv_right_bound := bound_Init (dim_ kd);
            sv_final_left_bound := bound_Init (dim_ kd);
            sv_final_right_bound := bound_Init (dim_ kd) |})
  ∧ (end_rank ≤ begin_rank + 1 →
     ∀ bits, 0 < bits → index_t_holds bits (begin_col + end_col) →
       goal = midpoint_goal bits begin_col end_col
       ∧ goal = (begin_col + end_col) ÷ 2)
  ∧ (begin_rank + 1 < end_rank →
     2 * n_peers kd * goal ≤ 2 * split_rank * n_points_ kd + n_peers kd
       < 2 * n_peers kd * (goal + 1))
  ∧ (0 ≤ goal →
     (chunk_size_ kd | rounded)
     ∧ - chunk_size_ kd ≤ 2 * (rounded - goal) ≤ chunk_size_ kd).
Proof.
  intros Hc Hs Hp Hn Hov. cbv zeta. split; [|split; [|split]].
  - intros fuel points node split_dim range <- <- Hcount Hget.
    by apply choose_split_goal.
  - intros Hr bits Hb Hfit. unfold midpoint_goal.
    rewrite index_t_wrap_holds by done. split; by apply goal_col_one_machine.
  - intros Hr. by apply goal_col_machines.
  - intros Hg. by apply round_to_chunk_nearest.
Qed.
End goal.

Lemma goal_col_spec_witness :
  goal_col_of four_machines 0 100 0 4 = 50
  ∧ (chunk_size_ four_machines | round_to_chunk four_machines 50)
  ∧ round_to_chunk four_machines 50 = 48
  ∧ goal_col_of four_machines 0 100 0 1 = midpoint_goal 32 0 100.
Proof.
  destruct (goal_col_spec four_machines 0 100 0 4) as (_ & _ & _ & H);
    [ vm_compute; repeat split; first [ reflexivity | intros ?; discriminate ] .. | ].
  split; [reflexivity|]. split; [|split; [reflexivity|]].
  { apply H. vm_compute. intros ?; discriminate. }
  destruct (goal_col_spec four_machines 0 100 0 1) as (_ & Hmid & _);
    [ vm_compute; repeat split; first [ reflexivity | intros ?; discriminate ] .. | ].
  assert (1 ≤ 0 + 1) as Hone by lia.
  assert (0 < 32) as Hbits by lia.
  assert (index_t_holds 32 (0 + 100)) as Hfit
    by (vm_compute; split; [intros ?; discriminate | reflexivity]).
  exact (proj1 (Hmid Hone 32 Hbits Hfit)).
Defined.

(** C5 as stated fails on a rank range that holds no machine, such as
    the [0, 0) that a node with rank range [0, 1) passes to its first
    child: it is not "exactly one machine", yet for a node over
    [0, 100), with blocks of 8, the goal is the index midpoint 50 and not
    the rounded fraction, which is 0. *)
Lemma goal_col_empty_rank_range :
  0 - 0 ≠ 1
  ∧ chunk_size_ four_machines < 100 - 0
  ∧ goal_col_of four_machines 0 100 0 0 = 50
  ∧ ¬ (2 * n_peers four_machines * 50
         ≤ 2 * ((0 + 0) ÷ 2) * n_points_ four_machines + n_peers four_machines).
Proof.
  split; [lia|]. split; [reflexivity|]. split; [reflexivity|].
  vm_compute. intros H. by apply H.
Qed.

(** ** The builder on concrete points *)

(** The leaf decision of [Build_] is read off the node the cache hands
    out, before [set_range]: the range has no part in it. *)
Lemma Build_enter_leaf {Point Range Bound : Type} `{!Bounds Point Range Bound}
    (kd : builder Bound) (st : state Point Bound)
    (begin_col end_col begin_rank : Z) (bound : Bound) :
  ∃ st1, Build_enter kd st begin_col end_col begin_rank bound
         = Done (st1, end_index st,
                 node_count (fresh_node kd (end_index st)) <=? leaf_size_ kd).
Proof.
  unfold Build_enter, AllocD, read_node, end_index, CacheRead. simpl.
  destruct (Z.ltb_spec (Z.of_nat (length (nodes_ st))) 0) as [|_]; [lia|].
  rewrite Nat2Z.id, lookup_app_r, Nat.sub_diag by lia. simpl. by eexists.
Qed.

(** C2 on the code. [Split_] on the node [0, 4) over the points 0, 1, 2,
    8 (blocks of two points, one machine): the first round of the
    interpolation loop overshoots the goal 2 and narrows [end_col] to 3,
    the second round hits the goal, and the narrowed [end_col] is what the
    second child gets. The children are [0, 2) and [2, 3); index 3 is in
    neither, and [child1.end] is not [node.end]. The same shows in the
    nodes of a build whose first node is split. *)
Theorem Split_children_miss_points :
  (∃ d, choose_split line_builder 2 far_point far_point_root 0 1 0 = Done d
        ∧ (sd_begin_col d, sd_split_col d, sd_end_col d) = (0, 2, 3)
        ∧ node_end far_point_root = 4)
  ∧ (∃ st i decomp root child0 child1,
        Build_ (with_root_count line_builder 4) 3 (initial_state far_point)
          0 4 0 1 (node_bound far_point_root) None true = Done (st, i, decomp)
        ∧ read_node st 0 = Some root
        ∧ (node_begin root, node_end root) = (0, 4)
        ∧ (node_child0 root, node_child1 root) = (Some 1, Some 2)
        ∧ read_node st 1 = Some child0
        ∧ read_node st 2 = Some child1
        ∧ (node_begin child0, node_end child0) = (0, 2)
        ∧ (node_begin child1, node_end child1) = (2, 3)).
Proof.
  split.
  - eexists. split; [vm_compute; reflexivity|]. split; reflexivity.
  - do 6 eexists. split; [vm_compute; reflexivity|].
    repeat split; reflexivity.
Qed.

(** C4 on the code. Four points, [leaf_size] 1, blocks of two points, a
    node cache that hands out nodes of count 0: [Build_] reads the count
    of the node before [set_range], finds 0 <= 1, and makes one leaf of
    four points, which lies across two blocks. *)
Theorem Build_leaf_of_four_points :
  ∃ st decomp leaf,
    Build_ line_builder 1 (initial_state far_point) 0 4 0 1
      (node_bound far_point_root) None true = Done (st, 0, decomp)
    ∧ nodes_ st = [leaf]
    ∧ node_leaf leaf = true
    ∧ node_count leaf = 4
    ∧ leaf_size_ line_builder = 1
    ∧ Blockid line_builder (node_begin leaf) = 0
    ∧ Blockid line_builder (node_end leaf - 1) = 1.
Proof.
  do 3 eexists. split; [vm_compute; reflexivity|]. repeat split; reflexivity.
Qed.

(** One round of the interpolation loop on [adjacent_doubles] changes
    neither [begin_col] nor [end_col], and the next round starts from the
    same variables. *)
Lemma adjacent_doubles_round :
  split_step 0 2 adjacent_doubles_start = Done (inl adjacent_doubles_stuck)
  ∧ split_step 0 2 adjacent_doubles_stuck = Done (inl adjacent_doubles_stuck).
Proof. split; vm_compute; reflexivity. Qed.

Lemma split_loop_round {Point Range Bound : Type} `{!Bounds Point Range Bound}
    fuel split_dim goal_col (v v' : split_vars (Point := Point) (Range := Range)) :
  split_step split_dim goal_col v = Done (inl v') →
  split_loop (S fuel) split_dim goal_col v = split_loop fuel split_dim goal_col v'.
Proof. intros H. simpl. by rewrite H. Qed.

Lemma adjacent_doubles_loop fuel :
  split_loop fuel 0 2 adjacent_doubles_stuck = OutOfFuel.
Proof.
  induction fuel as [|fuel IH]; [done|].
  rewrite (split_loop_round _ _ _ _ _ (proj2 adjacent_doubles_round)). exact IH.
Qed.

(** C6 on the code. The points 1, 1, 1 + 2^-52, 1 + 2^-52 (blocks of two
    points, one machine): the goal is index 2 and the interpolated split
    value 0.5 * 2^-52 + 1 rounds to 1, so no point is left of it;
    [Partition] returns 0, below the goal, the right bound has a width
    that is not zero, and [begin_col = split_col] leaves the range
    [0, 4) as it was. No number of rounds ends the loop. *)
Theorem Split_loop_stuck_between_doubles :
  ∀ fuel, choose_split line_builder fuel adjacent_doubles adjacent_doubles_root 0 1 0
          = OutOfFuel.
Proof.
  intros [|fuel]; [done|].
  change (choose_split line_builder (S fuel) adjacent_doubles adjacent_doubles_root 0 1 0)
    with (split_loop (S fuel) 0 2 adjacent_doubles_start).
  rewrite (split_loop_round _ _ _ _ _ (proj1 adjacent_doubles_round)).
  apply adjacent_doubles_loop.
Qed.

(** C7 on the code. Four times the point (5, 5) with [leaf_size] 1: the
    build ends, but with one leaf of four points, since the leaf decision
    is read off the fresh node. And when [Split_] runs on such a node of
    at most [chunk_size_] points, the index-midpoint path hands both
    children the boxes [Init] made, which are empty, not the zero-width
    box of the point. *)
Theorem Build_identical_points :
  (∀ fuel, ∃ st decomp leaf,
      Build_ (plane_builder 1) (S fuel) (initial_state identical_points) 0 4 0 1
        point_box None true = Done (st, 0, decomp)
      ∧ nodes_ st = [leaf]
      ∧ node_leaf leaf = true
      ∧ node_count leaf = 4)
  ∧ (∃ d, choose_split (plane_builder 4) 0 identical_points (node_over 0 4 point_box)
            0 1 0 = Done d
          ∧ sd_split_col d = 2
          ∧ sd_final_left_bound d = [InitEmptySet; InitEmptySet]
          ∧ sd_final_right_bound d = [InitEmptySet; InitEmptySet]
          ∧ DHrectBound_eqb (sd_final_left_bound d) point_box = false).
Proof.
  split.
  - intros fuel. do 3 eexists. split; [vm_compute; reflexivity|].
    repeat split; reflexivity.
  - eexists. split; [vm_compute; reflexivity|]. repeat split; reflexivity.
Qed.


(** C8 as stated fails on a leaf. Four points, leaves of up to four
    points, blocks of four: the root begins at index 0, on a block
    boundary, and has no parent, yet it is a leaf, [Split_] never runs,
    and no ownership is given. *)
Lemma leaf_on_boundary_keeps_block :
  ∃ st decomp,
    Build_ wide_leaves 1 (initial_state far_point) 0 4 0 1
      (node_bound far_point_root) None true = Done (st, 0, decomp)
    ∧ Z.land 0 (n_block_elems_mask wide_leaves) = 0
    ∧ filter is_GiveOwnership (trace st) = [].
Proof.
  do 2 eexists. split; [vm_compute; reflexivity|]. split; reflexivity.
Qed.

(** ** The state of the builder *)

Section state_facts.
Context {Point Range Bound : Type} `{!Bounds Point Range Bound}.
Variable kd : builder Bound.
Implicit Types (st : state Point Bound) (node : Node Bound).

Lemma end_index_nonneg st : 0 ≤ end_index st.
Proof. unfold end_index. lia. Qed.

Lemma read_node_lt st i node : read_node st i = Some node → 0 ≤ i < end_index st.
Proof. intros H%CacheRead_lt. by unfold end_index. Qed.

Lemma read_node_is_Some st i : 0 ≤ i < end_index st → is_Some (read_node st i).
Proof. intros Hi. by apply CacheRead_in_range. Qed.

Lemma read_node_ge st i : end_index st ≤ i → read_node st i = None.
Proof.
  intros Hi. destruct (read_node st i) eqn:E; [|done].
  apply read_node_lt in E. lia.
Qed.

Lemma read_write_node st i f j :
  0 ≤ i →
  read_node (write_node st i f) j
  = if decide (j = i) then f <$> read_node st i else read_node st j.
Proof.
  intros Hi. unfold read_node, write_node, CacheRead. simpl.
  destruct (decide (j = i)) as [->|Hne].
  - destruct (Z.ltb_spec i 0); [lia|]. by rewrite list_lookup_alter_eq.
  - destruct (Z.ltb_spec j 0); [done|]. rewrite list_lookup_alter_ne by lia. done.
Qed.

Lemma end_index_write_node st i f : end_index (write_node st i f) = end_index st.
Proof. unfold end_index, write_node. simpl. by rewrite length_alter. Qed.

Lemma accumulate_points_spec st node_i node st' :
  accumulate_points st node_i node = Done st' →
  nodes_ st' = nodes_ st
  ∧ points_ st' = points_ st
  ∧ trace st' = trace st
      ++ (AccumulatePoint node_i <$> seqZ (node_begin node) (node_count node)).
Proof.
  unfold accumulate_points.
  generalize (seqZ (node_begin node) (node_count node)) as l.
  intros l. revert st'. induction l as [|i l IH] using rev_ind; intros st'.
  - simpl. intros [= <-]. by rewrite app_nil_r.
  - rewrite foldl_app. simpl.
    destruct (foldl _ (Done st) l) as [st1| |] eqn:E; try done.
    destruct (IH st1 eq_refl) as (Hn & Hp & Ht).
    simpl. destruct (CacheRead (points_ st1) i); simpl; [|done].
    intros [= <-]. simpl. rewrite Hn, Hp, Ht, fmap_app, app_assoc. done.
Qed.

Lemma Build_enter_spec st begin_col end_col begin_rank bound st1 node_i leaf :
  Build_enter kd st begin_col end_col begin_rank bound = Done (st1, node_i, leaf) →
  node_i = end_index st
  ∧ leaf = took_leaf kd node_i
  ∧ nodes_ st1 = nodes_ st ++ [entered kd node_i begin_col end_col bound]
  ∧ points_ st1 = points_ st
  ∧ trace st1 = trace st ++ [Alloc begin_rank node_i].
Proof.
  unfold Build_enter, AllocD, read_node, end_index, CacheRead, took_leaf, entered.
  simpl. destruct (Z.ltb_spec (Z.of_nat (length (nodes_ st))) 0) as [|_]; [lia|].
  rewrite Nat2Z.id, lookup_app_r, Nat.sub_diag by lia. simpl.
  intros [= <- <- <-]. unfold write_node. simpl.
  repeat split; try done.
  rewrite Nat2Z.id.
  rewrite !alter_app_r_alt by lia. rewrite Nat.sub_diag. done.
Qed.

Lemma Build_leaf_spec st node_i st' :
  0 ≤ node_i →
  Build_leaf st node_i = Done st' →
  ∃ node, read_node st node_i = Some node
    ∧ nodes_ st' = alter set_leaf (Z.to_nat node_i) (nodes_ st)
    ∧ points_ st' = points_ st
    ∧ trace st' = trace st
        ++ (AccumulatePoint node_i <$> seqZ (node_begin node) (node_count node)).
Proof.
  intros Hi. unfold Build_leaf. rewrite read_write_node by done.
  rewrite decide_True by done.
  destruct (read_node st node_i) as [node|] eqn:E; [|done]. simpl.
  intros (Hn & Hp & Ht)%accumulate_points_spec.
  exists node. split; [done|]. done.
Qed.

Lemma give_ownership_spec st node begin_rank parent st' :
  give_ownership kd st node begin_rank parent = Done st' →
  nodes_ st' = nodes_ st
  ∧ points_ st' = points_ st
  ∧ match parent with Some parent_i => is_Some (read_node st parent_i) | None => True end
  ∧ trace st' = trace st ++ transfer kd node begin_rank (parent_begin st parent).
Proof.
  unfold give_ownership, transfer, parent_begin.
  destruct parent as [parent_i|]; simpl.
  - destruct (read_node st parent_i) as [p|]; [|done]. simpl.
    destruct (_ && _); intros [= <-]; simpl; rewrite ?app_nil_r; eauto.
  - destruct (_ && _); intros [= <-]; simpl; rewrite ?app_nil_r; eauto.
Qed.

Lemma Split_enter_spec fuel st node_i begin_rank end_rank parent st' d :
  Split_enter kd fuel st node_i begin_rank end_rank parent = Done (st', d) →
  ∃ node split_dim, read_node st node_i = Some node
    ∧ widest_dimension kd (node_bound node) = Done split_dim
    ∧ choose_split kd fuel (points_ st) node begin_rank end_rank split_dim = Done d
    ∧ nodes_ st' = nodes_ st
    ∧ points_ st' = sd_points d
    ∧ match parent with Some parent_i => is_Some (read_node st parent_i) | None => True end
    ∧ trace st' = trace st ++ transfer kd node begin_rank (parent_begin st parent).
Proof.
  unfold Split_enter.
  destruct (read_node st node_i) as [node|]; [|done]. simpl.
  destruct (widest_dimension kd (node_bound node)) as [split_dim| |] eqn:W; try done.
  simpl.
  destruct (give_ownership kd st node begin_rank parent) as [st1| |] eqn:G; try done.
  simpl. apply give_ownership_spec in G as (Hn & Hp & Hpar & Ht).
  rewrite Hp.
  destruct (choose_split kd fuel (points_ st) node begin_rank end_rank split_dim)
    as [d'| |] eqn:C; try done.
  simpl. intros [= <- <-]. exists node, split_dim. simpl.
  repeat split; try done.
Qed.
End state_facts.

(** ** Every [Done] of [Build_] is a run, and what a run leaves alone *)

Section run_facts.
Context {Point Range Bound : Type} `{!Bounds Point Range Bound}.
Variable kd : builder Bound.
Implicit Types (st : state Point Bound) (node : Node Bound).

Lemma Build_run_of fuel :
  ∀ st begin_col end_col begin_rank end_rank bound parent decomp_pp r,
    Build_ kd fuel st begin_col end_col begin_rank end_rank bound parent decomp_pp
      = Done r →
    Build_run kd st begin_col end_col begin_rank end_rank bound parent decomp_pp r.
Proof.
  induction fuel as [|fuel IH]; [done|].
  intros st b e br er bound parent dpp r. simpl.
  destruct (Build_enter kd st b e br bound) as [[[st1 i] leaf]| |] eqn:E; try done.
  simpl. destruct leaf; simpl.
  - destruct (Build_leaf st1 i) as [st2| |] eqn:L; try done. simpl.
    intros [= <-]. by eapply run_leaf.
  - destruct (Split_enter kd fuel st1 i br er parent) as [[st2 d]| |] eqn:S; try done.
    simpl.
    destruct (Build_ kd fuel st2 _ _ _ _ _ _ _) as [[[st3 c0] d0]| |] eqn:B0; try done.
    simpl.
    destruct (Build_ kd fuel (write_node st3 i _) _ _ _ _ _ _ _)
      as [[[st4 c1] d1]| |] eqn:B1; try done.
    simpl. intros [= <-].
    eapply run_split; eauto.
Qed.

Lemma read_node_same_nodes st st' j :
  nodes_ st' = nodes_ st → read_node st' j = read_node st j.
Proof. unfold read_node. by intros ->. Qed.

Lemma end_index_same_nodes st st' :
  nodes_ st' = nodes_ st → end_index st' = end_index st.
Proof. unfold end_index. by intros ->. Qed.

Lemma nodes_Build_leave st i br er parent dpp l r :
  nodes_ (Build_leave st i br er parent dpp l r).1.1 = nodes_ st.
Proof. unfold Build_leave. by destruct parent. Qed.

Lemma index_Build_leave st i br er parent dpp l r :
  (Build_leave st i br er parent dpp l r).1.2 = i.
Proof. done. Qed.

Lemma trace_Build_leave st i br er parent dpp l r :
  trace (Build_leave st i br er parent dpp l r).1.1 = trace st ++ stat_events parent i.
Proof. unfold Build_leave, stat_events. destruct parent; simpl; by rewrite <- ?app_assoc. Qed.

Lemma Build_enter_reads st b e br bound st1 i leaf :
  Build_enter kd st b e br bound = Done (st1, i, leaf) →
  end_index st1 = end_index st + 1
  ∧ read_node st1 i = Some (entered kd i b e bound)
  ∧ ∀ j, j < end_index st → read_node st1 j = read_node st j.
Proof.
  intros (-> & _ & Hn & _ & _)%Build_enter_spec.
  unfold end_index, read_node, CacheRead. rewrite Hn.
  split; [rewrite length_app; simpl; lia|]. split.
  - destruct (Z.ltb_spec (Z.of_nat (length (nodes_ st))) 0); [lia|].
    rewrite Nat2Z.id, lookup_app_r, Nat.sub_diag by lia. done.
  - intros j Hj. destruct (Z.ltb_spec j 0); [done|].
    rewrite lookup_app_l by lia. done.
Qed.

(** A run allocates the next node index, writes there and above, and
    nowhere else. *)
Lemma Build_run_frame st b e br er bound parent dpp r :
  Build_run kd st b e br er bound parent dpp r →
  r.1.2 = end_index st
  ∧ end_index st < end_index r.1.1
  ∧ (∀ j, j < end_index st → read_node r.1.1 j = read_node st j).
Proof.
  induction 1 as
    [st b e br er bound parent dpp st1 i st2 HE HL
    |fuel st b e br er bound parent dpp st1 i st2 d st3 c0 d0 st4 c1 d1
       HE HS _ IH0 _ IH1].
  - pose proof (Build_enter_spec _ _ _ _ _ _ _ _ _ HE) as (Hi & _).
    pose proof (Build_enter_reads _ _ _ _ _ _ _ _ HE) as (He1 & Hr1 & Hf1).
    pose proof (end_index_nonneg st). assert (0 ≤ i) as Hi0 by lia.
    destruct (Build_leaf_spec _ _ _ Hi0 HL) as (node & _ & Hn2 & _ & _).
    assert (nodes_ st2 = nodes_ (write_node st1 i set_leaf)) as Hn2' by done.
    rewrite index_Build_leave. split; [done|].
    pose proof (nodes_Build_leave st2 i br er parent dpp None None) as HnL.
    split.
    + rewrite (end_index_same_nodes _ _ HnL), (end_index_same_nodes _ _ Hn2').
      rewrite end_index_write_node. lia.
    + intros j Hj.
      rewrite (read_node_same_nodes _ _ _ HnL), (read_node_same_nodes _ _ _ Hn2').
      rewrite read_write_node by lia. rewrite decide_False by lia. auto.
  - pose proof (Build_enter_spec _ _ _ _ _ _ _ _ _ HE) as (Hi & _).
    pose proof (Build_enter_reads _ _ _ _ _ _ _ _ HE) as (He1 & Hr1 & Hf1).
    pose proof (end_index_nonneg st).
    destruct (Split_enter_spec _ _ _ _ _ _ _ _ _ HS)
      as (node & sdim & _ & _ & _ & Hn2 & _ & _ & _).
    simpl in IH0, IH1. destruct IH0 as (Hc0 & He3 & Hf3). destruct IH1 as (Hc1 & He4 & Hf4).
    rewrite end_index_write_node in *.
    rewrite (end_index_same_nodes _ _ Hn2) in *.
    pose proof (nodes_Build_leave (write_node st4 i (λ node, set_child node true c1))
                  i br er parent dpp d0 d1) as HnL.
    rewrite index_Build_leave. split; [done|]. split.
    + rewrite (end_index_same_nodes _ _ HnL), end_index_write_node. lia.
    + intros j Hj. rewrite (read_node_same_nodes _ _ _ HnL).
      rewrite read_write_node, decide_False by lia.
      rewrite Hf4 by lia. rewrite read_write_node, decide_False by lia.
      rewrite Hf3 by lia. rewrite (read_node_same_nodes _ _ _ Hn2). auto.
Qed.
End run_facts.

(** ** The decomposition tree *)

Section decomposition.
Context {Point Range Bound : Type} `{!Bounds Point Range Bound}.
Variable kd : builder Bound.
Implicit Types (st : state Point Bound) (node : Node Bound) (d : DecompNode).

(** [decomp_ok] only looks at the nodes the decomposition node spans. *)
Lemma decomp_ok_stable st st' :
  ∀ d, decomp_ok st d →
       (∀ j, decomp_index d ≤ j < decomp_end d → read_node st' j = read_node st j) →
       decomp_ok st' d.
Proof.
  fix IH 1. intros [br er idx eidx c0 c1]. simpl.
  intros (Hlt & Hsome & Hc) Hsame.
  fold (read_node st idx) in Hsome. fold (read_node st' idx).
  split; [done|]. split; [rewrite Hsame by lia; done|].
  destruct c0 as [d0|], c1 as [d1|]; try done.
  destruct Hc as (Hspan & Hi0 & Hi1 & (node & Hnode & Hch0 & Hch1) & Hd0 & Hd01 & Hd1
                  & Hok0 & Hok1).
  fold (read_node st idx) in Hnode.
  assert (decomp_index d0 < decomp_end d0) as Hr0 by (destruct d0; simpl in *; tauto).
  assert (decomp_index d1 < decomp_end d1) as Hr1 by (destruct d1; simpl in *; tauto).
  repeat (split; [done|]). split.
  { exists node. fold (read_node st' idx). rewrite Hsame by lia. done. }
  repeat (split; [done|]). split.
  - apply IH; [done|]. intros j Hj. apply Hsame. lia.
  - apply IH; [done|]. intros j Hj. apply Hsame. lia.
Qed.

Lemma Build_run_decomposition st b e br er bound parent dpp r :
  Build_run kd st b e br er bound parent dpp r →
  match r.2 with
  | None => dpp = false
  | Some d =>
      dpp = true
      ∧ decomp_info d = (br, er)
      ∧ decomp_index d = r.1.2
      ∧ decomp_end d = end_index r.1.1
      ∧ decomp_ok r.1.1 d
  end.
Proof.
  induction 1 as
    [st b e br er bound parent dpp st1 i st2 HE HL
    |fuel st b e br er bound parent dpp st1 i st2 d st3 c0 d0 st4 c1 d1
       HE HS R0 IH0 R1 IH1].
  - pose proof (Build_run_frame kd _ _ _ _ _ _ _ _ _
                  (run_leaf kd _ _ _ _ er _ parent dpp _ _ _ HE HL)) as (Hi & Hlt & _).
    rewrite index_Build_leave in Hi.
    remember (Build_leave st2 i br er parent dpp None None) as r eqn:Er.
    assert (r.2 = if dpp then Some (MkDecomp br er i (end_index r.1.1) None None)
                  else None) as -> by (subst r; unfold Build_leave; by destruct dpp, parent).
    assert (r.1.2 = i) as Hidx by (by subst r).
    clear Er.
    destruct dpp; [|done]. simpl.
    repeat (split; [first [done | lia]|]). split; [|done].
    apply read_node_is_Some. pose proof (end_index_nonneg st). lia.
  - pose proof (Build_run_frame kd _ _ _ _ _ _ _ _ _
                  (run_split kd _ _ _ _ _ _ _ parent dpp _ _ _ _ _ _ _ _ _ _
                     HE HS R0 R1)) as (Hi & Hlt & _).
    rewrite index_Build_leave in Hi.
    pose proof (Build_run_frame kd _ _ _ _ _ _ _ _ _ R0) as (Hc0 & He3 & Hf3).
    pose proof (Build_run_frame kd _ _ _ _ _ _ _ _ _ R1) as (Hc1 & He4 & Hf4).
    simpl in Hc0, He3, Hf3, Hc1, He4, Hf4, IH0, IH1.
    rewrite end_index_write_node in *.
    pose proof (Build_enter_reads kd _ _ _ _ _ _ _ _ HE) as (He1 & Hr1 & Hf1).
    destruct (Split_enter_spec _ _ _ _ _ _ _ _ _ HS)
      as (node & sdim & _ & _ & _ & Hn2 & _ & _ & _).
    rewrite (end_index_same_nodes _ _ Hn2) in *.
    pose proof (end_index_nonneg st).
    pose proof (nodes_Build_leave (write_node st4 i (λ node, set_child node true c1))
                  i br er parent dpp d0 d1) as HnL.
    remember (write_node st4 i (λ node, set_child node true c1)) as stw eqn:Ew.
    remember (Build_leave stw i br er parent dpp d0 d1) as r eqn:Er.
    assert (r.2 = if dpp then
                    Some (match d0 with
                          | Some _ => MkDecomp br er i (end_index r.1.1) d0 d1
                          | None => MkDecomp br er i (end_index r.1.1) None None
                          end)
                  else None) as Hr2 by (subst r; unfold Build_leave; by destruct dpp, parent).
    assert (r.1.2 = i) as Hidx by (by subst r).
    clear Er.
    assert (end_index r.1.1 = end_index st4) as HeL.
    { rewrite (end_index_same_nodes _ _ HnL). subst stw. apply end_index_write_node. }
    (* the nodes of the final state *)
    assert (∀ j, j ≠ i → read_node r.1.1 j = read_node st4 j) as Hrd4.
    { intros j Hj. rewrite (read_node_same_nodes _ _ _ HnL). subst stw.
      rewrite read_write_node, decide_False by lia. done. }
    assert (∀ j, c0 ≤ j < c1 → read_node r.1.1 j = read_node st3 j) as Hrd3.
    { intros j Hj. rewrite Hrd4 by lia. rewrite Hf4 by lia.
      rewrite read_write_node, decide_False by lia. done. }
    assert (∃ n, read_node r.1.1 i = Some n
               ∧ node_child0 n = Some c0 ∧ node_child1 n = Some c1) as Hroot.
    { rewrite (read_node_same_nodes _ _ _ HnL). subst stw.
      rewrite read_write_node, decide_True by lia.
      rewrite Hf4 by lia. rewrite read_write_node, decide_True by lia.
      rewrite Hf3 by lia. rewrite (read_node_same_nodes _ _ _ Hn2), Hr1.
      simpl. eexists. split; [done|]. done. }
    clear Ew. rewrite Hr2. clear Hr2.
    destruct dpp; [|done].
    assert (is_Some (read_node r.1.1 i)) as Hsome
      by (destruct Hroot as (n & -> & _); eauto).
    destruct d0 as [dn0|]; [|simpl; repeat (split; [first [done | lia]|]); done].
    destruct IH0 as (Hpp & Hinfo0 & Hidx0 & Hend0 & Hok0).
    rewrite Hpp in IH1. destruct d1 as [dn1|]; [|done].
    destruct IH1 as (_ & Hinfo1 & Hidx1 & Hend1 & Hok1).
    apply negb_true_iff, Z.leb_gt in Hpp.
    simpl. repeat (split; [first [done | lia]|]).
    split.
    { destruct Hroot as (n & Hn & Hch0 & Hch1). exists n.
      fold (read_node r.1.1 i). rewrite Hidx0, Hidx1. done. }
    repeat (split; [first [done | lia]|]).
    split.
    + apply (decomp_ok_stable st3); [done|].
      intros j Hj. apply Hrd3. lia.
    + apply (decomp_ok_stable st4); [done|].
      intros j Hj. apply Hrd4. lia.
Qed.

(** C9. The decomposition node [Build_] makes (when it is asked for one
    through [decomp_pp]) carries the rank range of the call and stands
    for the tree node of the call; it and every decomposition node below
    it stands for one tree node, has no child or two, has children only
    when its rank range spans more than one machine, and then the
    children split the rank range at [(begin_rank + end_rank) / 2] and
    stand for the two children of the tree node. *)
Theorem Build_decomposition fuel st begin_col end_col begin_rank end_rank bound parent
    decomp_pp st' node_i decomp :
  Build_ kd fuel st begin_col end_col begin_rank end_rank bound parent decomp_pp
    = Done (st', node_i, decomp) →
  match decomp with
  | None => decomp_pp = false
  | Some d =>
      decomp_pp = true
      ∧ decomp_info d = (begin_rank, end_rank)
      ∧ decomp_index d = node_i
      ∧ decomp_ok st' d
  end.
Proof.
  intros R%Build_run_of. apply Build_run_decomposition in R. simpl in R.
  destruct decomp; [|done]. tauto.
Qed.
End decomposition.

(** ** The calls of a run *)

Section events.
Context {Point Range Bound : Type} `{!Bounds Point Range Bound}.
Variable kd : builder Bound.
Implicit Types (st : state Point Bound) (node : Node Bound) (evs : list event).

Lemma node_events_range st parent i ei evs :
  node_events kd st parent i ei evs → i < ei.
Proof. induction 1; lia. Qed.

Lemma transfer_begin node node' begin_rank pb :
  node_begin node' = node_begin node →
  transfer kd node' begin_rank pb = transfer kd node begin_rank pb.
Proof. unfold transfer. by intros ->. Qed.

(** [node_events] only looks at the nodes it spans and at where the
    parent begins. *)
Lemma node_events_stable st st' parent i ei evs :
  node_events kd st parent i ei evs →
  (∀ j, i ≤ j < ei → read_node st' j = read_node st j) →
  parent_begin st' parent = parent_begin st parent →
  node_events kd st' parent i ei evs.
Proof.
  induction 1 as [parent i br node Hn Hl
                 |parent i br node e0 e1 evs0 evs1 Hn Hl Hch0 Hch1 R0 IH0 R1 IH1];
    intros Hsame Hpb.
  - apply leaf_events; [|done]. rewrite Hsame by lia. done.
  - pose proof (node_events_range _ _ _ _ _ R0). pose proof (node_events_range _ _ _ _ _ R1).
    assert (parent_begin st' (Some i) = parent_begin st (Some i)) as Hpi.
    { unfold parent_begin. simpl. rewrite Hsame by lia. done. }
    rewrite <- Hpb. apply split_events with (end0 := e0); try done.
    + rewrite Hsame by lia. done.
    + apply IH0; [|done]. intros j Hj. apply Hsame. lia.
    + apply IH1; [|done]. intros j Hj. apply Hsame. lia.
Qed.

(** The calls of a run are the calls for its node and the nodes below. *)
Lemma Build_run_events st b e br er bound parent dpp r :
  Build_run kd st b e br er bound parent dpp r →
  ∃ evs, trace r.1.1 = trace st ++ evs
       ∧ node_events kd r.1.1 parent r.1.2 (end_index r.1.1) evs.
Proof.
  induction 1 as
    [st b e br er bound parent dpp st1 i st2 HE HL
    |fuel st b e br er bound parent dpp st1 i st2 d st3 c0 d0 st4 c1 d1
       HE HS R0 IH0 R1 IH1].
  - pose proof (Build_enter_spec _ _ _ _ _ _ _ _ _ HE) as (Hi & Hleaf & _ & _ & Ht1).
    pose proof (Build_enter_reads kd _ _ _ _ _ _ _ _ HE) as (He1 & Hr1 & Hf1).
    pose proof (end_index_nonneg st). assert (0 ≤ i) as Hi0 by lia.
    destruct (Build_leaf_spec _ _ _ Hi0 HL) as (node & Hnode & Hn2 & _ & Ht2).
    pose proof (nodes_Build_leave st2 i br er parent dpp None None) as HnL.
    pose proof (trace_Build_leave st2 i br er parent dpp None None) as HtL.
    rewrite index_Build_leave.
    remember (Build_leave st2 i br er parent dpp None None) as r eqn:Er. clear Er.
    assert (nodes_ r.1.1 = nodes_ (write_node st1 i set_leaf)) as Hnr
      by (rewrite HnL, Hn2; reflexivity).
    rewrite Hr1 in Hnode. injection Hnode as <-.
    eexists. split.
    { rewrite HtL, Ht2, Ht1. rewrite <- !app_assoc. reflexivity. }
    simpl.
    replace (end_index r.1.1) with (i + 1).
    2:{ rewrite (end_index_same_nodes _ _ Hnr), end_index_write_node. lia. }
    apply (leaf_events kd r.1.1 parent i br (set_leaf (entered kd i b e bound))).
    + rewrite (read_node_same_nodes _ _ _ Hnr).
      rewrite read_write_node, decide_True by done. by rewrite Hr1.
    + done.
  - pose proof (Build_enter_spec _ _ _ _ _ _ _ _ _ HE) as (Hi & Hleaf & _ & _ & Ht1).
    pose proof (Build_enter_reads kd _ _ _ _ _ _ _ _ HE) as (He1 & Hr1 & Hf1).
    pose proof (end_index_nonneg st). assert (0 ≤ i) as Hi0 by lia.
    destruct (Split_enter_spec _ _ _ _ _ _ _ _ _ HS)
      as (node & sdim & Hnode & _ & _ & Hn2 & _ & Hpar & Ht2).
    rewrite Hr1 in Hnode. injection Hnode as <-.
    pose proof (Build_run_frame kd _ _ _ _ _ _ _ _ _ R0) as (Hc0 & He3 & Hf3).
    pose proof (Build_run_frame kd _ _ _ _ _ _ _ _ _ R1) as (Hc1 & He4 & Hf4).
    simpl in Hc0, He3, Hf3, Hc1, He4, Hf4, IH0, IH1.
    destruct IH0 as (evs0 & Ht3 & G0). destruct IH1 as (evs1 & Ht4 & G1).
    rewrite end_index_write_node in *.
    rewrite (end_index_same_nodes _ _ Hn2) in *.
    pose proof (nodes_Build_leave (write_node st4 i (λ node, set_child node true c1))
                  i br er parent dpp d0 d1) as HnL.
    pose proof (trace_Build_leave (write_node st4 i (λ node, set_child node true c1))
                  i br er parent dpp d0 d1) as HtL.
    rewrite index_Build_leave.
    remember (Build_leave (write_node st4 i (λ node, set_child node true c1))
                i br er parent dpp d0 d1) as r eqn:Er. clear Er.
    simpl in HtL, Ht4.
    assert (end_index r.1.1 = end_index st4) as HeL.
    { rewrite (end_index_same_nodes _ _ HnL). apply end_index_write_node. }
    assert (∀ j, j ≠ i → read_node r.1.1 j = read_node st4 j) as Hrd4.
    { intros j Hj. rewrite (read_node_same_nodes _ _ _ HnL).
      rewrite read_write_node, decide_False by lia. done. }
    assert (∀ j, c0 ≤ j < c1 → read_node r.1.1 j = read_node st3 j) as Hrd3.
    { intros j Hj. rewrite Hrd4 by lia. rewrite Hf4 by lia.
      rewrite read_write_node, decide_False by lia. done. }
    assert (∀ j, j < i → read_node r.1.1 j = read_node st1 j) as Hrd1.
    { intros j Hj. rewrite Hrd4 by lia. rewrite Hf4 by lia.
      rewrite read_write_node, decide_False by lia.
      rewrite Hf3 by lia. apply read_node_same_nodes. done. }
    assert (read_node st3 i = Some (entered kd i b e bound)) as Hr3.
    { rewrite Hf3 by lia. rewrite (read_node_same_nodes _ _ _ Hn2). done. }
    assert (read_node st4 i
            = Some (set_child (entered kd i b e bound) false c0)) as Hr4.
    { rewrite Hf4 by lia. rewrite read_write_node, decide_True by done.
      by rewrite Hr3. }
    assert (read_node r.1.1 i
            = Some (set_child (set_child (entered kd i b e bound) false c0) true c1))
      as Hrr.
    { rewrite (read_node_same_nodes _ _ _ HnL).
      rewrite read_write_node, decide_True by done. by rewrite Hr4. }
    assert (parent_begin r.1.1 parent = parent_begin st1 parent) as Hpb.
    { destruct parent as [p|]; [|done]. unfold parent_begin. simpl.
      destruct Hpar as [pn Hpn]. pose proof (read_node_lt _ _ _ Hpn).
      destruct (decide (p = i)) as [->|].
      - rewrite Hrr, Hr1. done.
      - rewrite Hrd1 by lia. done. }
    eexists. split.
    { rewrite HtL, Ht4, Ht3, Ht2, Ht1. rewrite <- !app_assoc. reflexivity. }
    simpl. rewrite HeL. rewrite <- Hpb.
    rewrite <- (transfer_begin (entered kd i b e bound)
                  (set_child (set_child (entered kd i b e bound) false c0) true c1))
      by done.
    apply split_events with (end0 := c1); try done.
    + simpl. f_equal. lia.
    + replace (i + 1) with c0 by lia.
      apply (node_events_stable st3); [by rewrite Hc1|done|].
      unfold parent_begin. simpl. by rewrite Hrr, Hr3.
    + apply (node_events_stable st4); [done| |].
      * intros j Hj. apply Hrd4. lia.
      * unfold parent_begin. simpl. by rewrite Hrr, Hr4.
Qed.
End events.

(** ** The order of the calls *)

Section segments.
Context {A : Type}.
Implicit Types (a x : A) (T U V W : list A).

(** Where an element of [a :: T ++ U ++ V ++ W] sits. *)
Lemma lookup_segments a T U V W k x :
  (a :: T ++ U ++ V ++ W) !! k = Some x →
  (k = 0%nat ∧ x = a)
  ∨ (∃ k', k = (1 + k')%nat ∧ T !! k' = Some x)
  ∨ (∃ k', k = (1 + length T + k')%nat ∧ U !! k' = Some x)
  ∨ (∃ k', k = (1 + length T + length U + k')%nat ∧ V !! k' = Some x)
  ∨ (∃ k', k = (1 + length T + length U + length V + k')%nat ∧ W !! k' = Some x).
Proof.
  intros [[-> ->]|[Hk H]]%lookup_cons_Some; [by left|right].
  apply lookup_app_Some in H as [H|[H1 H]].
  { left. exists (k - 1)%nat. split; [lia|done]. }
  right. apply lookup_app_Some in H as [H|[H2 H]].
  { left. exists (k - 1 - length T)%nat. split; [lia|done]. }
  right. apply lookup_app_Some in H as [H|[H3 H]].
  { left. exists (k - 1 - length T - length U)%nat. split; [lia|done]. }
  right. exists (k - 1 - length T - length U - length V)%nat. split; [lia|done].
Qed.

Lemma lookup_segment_T a T U V W k x :
  T !! k = Some x → (a :: T ++ U ++ V ++ W) !! (1 + k)%nat = Some x.
Proof. intros H. simpl. by apply lookup_app_l_Some. Qed.

Lemma lookup_segment_U a T U V W k x :
  U !! k = Some x → (a :: T ++ U ++ V ++ W) !! (1 + length T + k)%nat = Some x.
Proof.
  intros H. simpl. rewrite lookup_app_r by lia.
  replace (length T + k - length T)%nat with k by lia. by apply lookup_app_l_Some.
Qed.

Lemma lookup_segment_V a T U V W k x :
  V !! k = Some x →
  (a :: T ++ U ++ V ++ W) !! (1 + length T + length U + k)%nat = Some x.
Proof.
  intros H. simpl. rewrite lookup_app_r by lia. rewrite lookup_app_r by lia.
  replace (length T + length U + k - length T - length U)%nat with k by lia.
  by apply lookup_app_l_Some.
Qed.

Lemma lookup_segment_W a T U V W k x :
  W !! k = Some x →
  (a :: T ++ U ++ V ++ W) !! (1 + length T + length U + length V + k)%nat = Some x.
Proof.
  intros H. simpl. rewrite lookup_app_r by lia. rewrite lookup_app_r by lia.
  rewrite lookup_app_r by lia.
  by replace (length T + length U + length V + k - length T - length U - length V)%nat
    with k by lia.
Qed.
End segments.

Section statistics.
Context {Point Range Bound : Type} `{!Bounds Point Range Bound}.
Variable kd : builder Bound.
Implicit Types (st : state Point Bound) (node : Node Bound) (evs : list event).

Lemma event_within_mono lo hi lo' hi' e :
  lo' ≤ lo → hi ≤ hi' → event_within lo hi e → event_within lo' hi' e.
Proof. destruct e; simpl; lia. Qed.

Lemma stat_events_within parent i : Forall (event_within i (i + 1)) (stat_events parent i).
Proof. destruct parent; repeat constructor; simpl; lia. Qed.

Lemma node_events_within st parent i ei evs :
  node_events kd st parent i ei evs → Forall (event_within i ei) evs.
Proof.
  induction 1 as [parent i br node Hn Hl
                 |parent i br node e0 e1 evs0 evs1 Hn Hl Hch0 Hch1 R0 IH0 R1 IH1].
  - constructor; [simpl; lia|]. apply Forall_app. split.
    + apply Forall_fmap, Forall_true. intros x. simpl. lia.
    + apply stat_events_within.
  - pose proof (node_events_range _ _ _ _ _ _ R0).
    pose proof (node_events_range _ _ _ _ _ _ R1).
    constructor; [simpl; lia|]. rewrite !Forall_app. repeat split.
    + unfold transfer. destruct (_ && _); repeat constructor.
    + eapply Forall_impl; [exact IH0|]. intros x. apply event_within_mono; lia.
    + eapply Forall_impl; [exact IH1|]. intros x. apply event_within_mono; lia.
    + eapply Forall_impl; [apply stat_events_within|].
      intros x. apply event_within_mono; lia.
Qed.

Lemma node_events_end st parent i ei evs :
  node_events kd st parent i ei evs → ∃ pre, evs = pre ++ stat_events parent i.
Proof.
  destruct 1 as [parent i br node Hn Hl
                |parent i br node e0 e1 evs0 evs1 Hn Hl Hch0 Hch1 R0 R1].
  - by exists (Alloc br i
               :: (AccumulatePoint i <$> seqZ (node_begin node) (node_count node))).
  - exists (Alloc br i :: transfer kd node br (parent_begin st parent) ++ evs0 ++ evs1).
    simpl. by rewrite <- !app_assoc.
Qed.

Lemma finalized_app evs1 evs2 : finalized (evs1 ++ evs2) = finalized evs1 ++ finalized evs2.
Proof. apply omap_app. Qed.

Lemma finalized_points i (l : list Z) : finalized (AccumulatePoint i <$> l) = [].
Proof. induction l; [done|]. simpl. done. Qed.

Lemma finalized_stat parent i : finalized (stat_events parent i) = [i].
Proof. by destruct parent. Qed.

Lemma finalized_transfer node br pb : finalized (transfer kd node br pb) = [].
Proof. unfold transfer. by destruct (_ && _). Qed.

(** Every node of the run is finalized once. *)
Lemma node_events_finalized st parent i ei evs :
  node_events kd st parent i ei evs → finalized evs ≡ₚ seqZ i (ei - i).
Proof.
  induction 1 as [parent i br node Hn Hl
                 |parent i br node e0 e1 evs0 evs1 Hn Hl Hch0 Hch1 R0 IH0 R1 IH1].
  - change (finalized (Alloc br i :: ?l)) with (finalized l).
    rewrite finalized_app, finalized_points, finalized_stat.
    replace (i + 1 - i) with 1 by lia. done.
  - pose proof (node_events_range _ _ _ _ _ _ R0).
    pose proof (node_events_range _ _ _ _ _ _ R1).
    change (finalized (Alloc br i :: ?l)) with (finalized l).
    rewrite !finalized_app, finalized_transfer, finalized_stat, IH0, IH1. simpl.
    replace (e1 - i) with (1 + ((e0 - (i + 1)) + (e1 - e0))) by lia.
    rewrite (seqZ_app i 1) by lia. rewrite seqZ_app by lia.
    replace (i + 1 + (e0 - (i + 1))) with e0 by lia.
    change (seqZ i 1) with [i]. simpl.
    rewrite app_assoc. symmetry. apply Permutation_cons_append.
Qed.

Lemma stat_events_accumulate parent i k p j :
  stat_events parent i !! k = Some (AccumulateChild p j) →
  k = 0%nat ∧ parent = Some p ∧ j = i
  ∧ stat_events parent i !! 1%nat = Some (Postprocess i).
Proof.
  destruct parent as [p'|]; simpl.
  - destruct k as [|[|k]]; simpl; [|done..]. intros [= -> ->]. done.
  - destruct k as [|k]; done.
Qed.

Lemma transfer_lookup node br pb k x :
  transfer kd node br pb !! k = Some x →
  k = 0%nat ∧ x = GiveOwnership (Blockid kd (node_begin node)) br.
Proof.
  unfold transfer. destruct (_ && _); [|done].
  destruct k as [|k]; [|done]. by intros [= <-].
Qed.

Lemma points_lookup i (l : list Z) k x :
  (AccumulatePoint i <$> l) !! k = Some x → ∃ point_i, x = AccumulatePoint i point_i.
Proof. intros (y & -> & _)%list_lookup_fmap_Some. by eexists. Qed.

(** An accumulation into a parent is for a child of that parent, and the
    next call finalizes the child. *)
Lemma node_events_accumulate st parent i ei evs :
  node_events kd st parent i ei evs →
  ∀ k p j, evs !! k = Some (AccumulateChild p j) →
    evs !! S k = Some (Postprocess j)
    ∧ ((j = i ∧ parent = Some p) ∨ (i ≤ p < ei ∧ child_of kd st p j)).
Proof.
  induction 1 as [parent i br node Hn Hl
                 |parent i br node e0 e1 evs0 evs1 Hn Hl Hch0 Hch1 R0 IH0 R1 IH1];
    intros k p j Hk.
  - change (Alloc br i :: ?T ++ ?W) with (Alloc br i :: T ++ [] ++ [] ++ W) in *.
    apply lookup_segments in Hk
        as [[_ [=]]|[(k' & -> & Hk)|[(k' & -> & Hk)|[(k' & -> & Hk)|(k' & -> & Hk)]]]];
      try done.
    + by apply points_lookup in Hk as [? [=]].
    + apply stat_events_accumulate in Hk as (-> & -> & -> & Hnext).
      split; [|by left].
      rewrite <- Nat.add_succ_r. by apply lookup_segment_W.
  - pose proof (node_events_range _ _ _ _ _ _ R0).
    pose proof (node_events_range _ _ _ _ _ _ R1).
    apply lookup_segments in Hk
        as [[_ [=]]|[(k' & -> & Hk)|[(k' & -> & Hk)|[(k' & -> & Hk)|(k' & -> & Hk)]]]].
    + by apply transfer_lookup in Hk as [_ [=]].
    + destruct (IH0 _ _ _ Hk) as [Hnext Hpar]. split.
      { rewrite <- Nat.add_succ_r. by apply lookup_segment_U. }
      right. destruct Hpar as [[-> [= <-]]|[Hp Hc]]; [|split; [lia|done]].
      split; [lia|]. split; [done|]. exists node. auto.
    + destruct (IH1 _ _ _ Hk) as [Hnext Hpar]. split.
      { rewrite <- Nat.add_succ_r. by apply lookup_segment_V. }
      right. destruct Hpar as [[-> [= <-]]|[Hp Hc]]; [|split; [lia|done]].
      split; [lia|]. split; [done|]. exists node. auto.
    + apply stat_events_accumulate in Hk as (-> & -> & -> & Hnext).
      split; [|by left].
      rewrite <- Nat.add_succ_r. by apply lookup_segment_W.
Qed.

Lemma node_events_root_accumulated st p i ei evs :
  node_events kd st (Some p) i ei evs →
  ∃ k, evs !! k = Some (AccumulateChild p i).
Proof.
  intros [pre ->]%node_events_end. exists (length pre).
  rewrite lookup_app_r, Nat.sub_diag by lia. done.
Qed.

(** Every child is accumulated into its parent. *)
Lemma node_events_accumulated st parent i ei evs :
  node_events kd st parent i ei evs →
  ∀ p j, i ≤ p < ei → child_of kd st p j →
    ∃ k, evs !! k = Some (AccumulateChild p j).
Proof.
  induction 1 as [parent i br node Hn Hl
                 |parent i br node e0 e1 evs0 evs1 Hn Hl Hch0 Hch1 R0 IH0 R1 IH1];
    intros p j Hp (Hlp & pn & Hpn & Hch).
  - assert (p = i) as -> by lia. congruence.
  - pose proof (node_events_range _ _ _ _ _ _ R0).
    pose proof (node_events_range _ _ _ _ _ _ R1).
    destruct (decide (p = i)) as [->|Hne].
    + rewrite Hn in Hpn. injection Hpn as <-.
      destruct Hch as [Hj|Hj]; rewrite Hj in *.
      * injection Hch0 as ->.
        destruct (node_events_root_accumulated _ _ _ _ _ R0) as [k Hk].
        eexists. by apply lookup_segment_U.
      * injection Hch1 as ->.
        destruct (node_events_root_accumulated _ _ _ _ _ R1) as [k Hk].
        eexists. by apply lookup_segment_V.
    + destruct (decide (p < e0)).
      * destruct (IH0 p j) as [k Hk]; [lia|split; eauto|].
        eexists. by apply lookup_segment_U.
      * destruct (IH1 p j) as [k Hk]; [lia|split; eauto|].
        eexists. by apply lookup_segment_V.
Qed.

(** C10. In the calls of a build: every node of the build is finalized
    ([Postprocess]) once; every accumulation of a node into a parent is
    for a child of that parent, and the very next call finalizes that
    child, so the parent folds in the statistic of the child before it is
    finalized; and every node with a parent is so accumulated. *)
Theorem Build_statistics fuel st begin_col end_col begin_rank end_rank bound parent
    decomp_pp st' node_i decomp :
  Build_ kd fuel st begin_col end_col begin_rank end_rank bound parent decomp_pp
    = Done (st', node_i, decomp) →
  ∃ evs,
    trace st' = trace st ++ evs
    ∧ finalized evs ≡ₚ seqZ node_i (end_index st' - node_i)
    ∧ (∀ k p j, evs !! k = Some (AccumulateChild p j) →
         evs !! S k = Some (Postprocess j) ∧ parent_in kd st' parent node_i p j)
    ∧ (∀ p j, parent_in kd st' parent node_i p j →
         ∃ k, evs !! k = Some (AccumulateChild p j)).
Proof.
  intros R%Build_run_of. apply Build_run_events in R as (evs & Ht & G). simpl in *.
  exists evs. split; [done|]. split; [by eapply node_events_finalized|]. split.
  - intros k p j Hk.
    destruct (node_events_accumulate _ _ _ _ _ G _ _ _ Hk) as [Hnext Hpar].
    split; [done|]. destruct Hpar as [?|[? ?]]; [by left|right]. split; [lia|done].
  - intros p j [[-> ->]|[Hp Hc]].
    + by eapply node_events_root_accumulated.
    + eapply node_events_accumulated; [done| |done].
      destruct Hc as (_ & pn & Hpn & _). apply read_node_lt in Hpn. lia.
Qed.
End statistics.

(** ** The transfers of ownership *)

Section ownership.
Context {Point Range Bound : Type} `{!Bounds Point Range Bound}.
Variable kd : builder Bound.
Implicit Types (st : state Point Bound) (node : Node Bound) (evs : list event).

Lemma transfer_made st parent node br :
  Z.land (node_begin node) (n_block_elems_mask kd) = 0 →
  begins_elsewhere st parent node →
  transfer kd node br (parent_begin st parent)
  = [GiveOwnership (Blockid kd (node_begin node)) br].
Proof.
  unfold transfer, begins_elsewhere. intros -> Hpb. simpl.
  destruct (parent_begin st parent) as [pb|]; [|done].
  destruct (Z.eqb_spec pb (node_begin node)); done.
Qed.

Lemma transfer_when st parent node br k x :
  transfer kd node br (parent_begin st parent) !! k = Some x →
  Z.land (node_begin node) (n_block_elems_mask kd) = 0
  ∧ begins_elsewhere st parent node.
Proof.
  unfold transfer, begins_elsewhere.
  destruct (Z.eqb_spec (Z.land (node_begin node) (n_block_elems_mask kd)) 0);
    [|done]. simpl.
  destruct (parent_begin st parent) as [pb|]; [|done].
  destruct (Z.eqb_spec pb (node_begin node)); [done|]. done.
Qed.

Lemma stat_events_no_transfer parent i k blk r :
  stat_events parent i !! k ≠ Some (GiveOwnership blk r).
Proof. destruct parent; destruct k as [|[|k]]; done. Qed.

Lemma stat_events_no_alloc parent i k r j :
  stat_events parent i !! k ≠ Some (Alloc r j).
Proof. destruct parent; destruct k as [|[|k]]; done. Qed.

(** A transfer follows the allocation of a node that went through
    [Split_], begins on a block boundary and has a parent, if any, that
    begins elsewhere. *)
Lemma node_events_transfer st parent i ei evs :
  node_events kd st parent i ei evs →
  ∀ k blk r, evs !! k = Some (GiveOwnership blk r) →
    ∃ k' j node,
      k = S k'
      ∧ evs !! k' = Some (Alloc r j)
      ∧ read_node st j = Some node
      ∧ took_leaf kd j = false
      ∧ Z.land (node_begin node) (n_block_elems_mask kd) = 0
      ∧ blk = Blockid kd (node_begin node)
      ∧ ((j = i ∧ begins_elsewhere st parent node)
         ∨ (∃ p, i ≤ p < ei ∧ child_of kd st p j
                 ∧ begins_elsewhere st (Some p) node)).
Proof.
  induction 1 as [parent i br node Hn Hl
                 |parent i br node e0 e1 evs0 evs1 Hn Hl Hch0 Hch1 R0 IH0 R1 IH1];
    intros k blk r Hk.
  - change (Alloc br i :: ?T ++ ?W) with (Alloc br i :: T ++ [] ++ [] ++ W) in *.
    apply lookup_segments in Hk
        as [[_ [=]]|[(k' & -> & Hk)|[(k' & -> & Hk)|[(k' & -> & Hk)|(k' & -> & Hk)]]]];
      try done.
    + by apply points_lookup in Hk as [? [=]].
    + by apply stat_events_no_transfer in Hk.
  - pose proof (node_events_range _ _ _ _ _ _ R0).
    pose proof (node_events_range _ _ _ _ _ _ R1).
    apply lookup_segments in Hk
        as [[_ [=]]|[(k' & -> & Hk)|[(k' & -> & Hk)|[(k' & -> & Hk)|(k' & -> & Hk)]]]].
    + destruct (transfer_when _ _ _ _ _ _ Hk) as [Hland Hpb].
      apply (transfer_lookup kd) in Hk as [-> [= -> ->]].
      exists 0%nat, i, node. repeat (split; [done|]). by left.
    + destruct (IH0 _ _ _ Hk) as (k'' & j & n & -> & Ha & Hr & Hlf & Hland & Hb & Hpar).
      exists (1 + length (transfer kd node br (parent_begin st parent)) + k'')%nat, j, n.
      split; [lia|]. split; [by apply lookup_segment_U|].
      repeat (split; [done|]). right.
      destruct Hpar as [[-> Hpb]|(p & Hp & Hc & Hpb)].
      * exists i. split; [lia|]. split; [|done]. split; [done|]. exists node. auto.
      * exists p. split; [lia|done].
    + destruct (IH1 _ _ _ Hk) as (k'' & j & n & -> & Ha & Hr & Hlf & Hland & Hb & Hpar).
      exists (1 + length (transfer kd node br (parent_begin st parent))
              + length evs0 + k'')%nat, j, n.
      split; [lia|]. split; [by apply lookup_segment_V|].
      repeat (split; [done|]). right.
      destruct Hpar as [[-> Hpb]|(p & Hp & Hc & Hpb)].
      * exists i. split; [lia|]. split; [|done]. split; [done|]. exists node. auto.
      * exists p. split; [lia|done].
    + by apply stat_events_no_transfer in Hk.
Qed.

(** The allocation of a node that went through [Split_], begins on a
    block boundary and whose parent, if any, begins elsewhere, is
    followed at once by the transfer of its block to its rank. *)
Lemma node_events_transferred st parent i ei evs :
  node_events kd st parent i ei evs →
  ∀ k r j node, evs !! k = Some (Alloc r j) →
    read_node st j = Some node →
    took_leaf kd j = false →
    Z.land (node_begin node) (n_block_elems_mask kd) = 0 →
    (j = i → begins_elsewhere st parent node) →
    (∀ p, i ≤ p < ei → child_of kd st p j → begins_elsewhere st (Some p) node) →
    evs !! S k = Some (GiveOwnership (Blockid kd (node_begin node)) r).
Proof.
  induction 1 as [parent i br node Hn Hl
                 |parent i br node e0 e1 evs0 evs1 Hn Hl Hch0 Hch1 R0 IH0 R1 IH1];
    intros k r j n Hk Hr Hlf Hland Hroot Hpar.
  - change (Alloc br i :: ?T ++ ?W) with (Alloc br i :: T ++ [] ++ [] ++ W) in *.
    apply lookup_segments in Hk
        as [[_ [=]]|[(k' & -> & Hk)|[(k' & -> & Hk)|[(k' & -> & Hk)|(k' & -> & Hk)]]]];
      try done.
    + congruence.
    + by apply points_lookup in Hk as [? [=]].
    + by apply stat_events_no_alloc in Hk.
  - pose proof (node_events_range _ _ _ _ _ _ R0) as Hr0.
    pose proof (node_events_range _ _ _ _ _ _ R1) as Hr1.
    pose proof (node_events_within _ _ _ _ _ _ R0) as W0.
    pose proof (node_events_within _ _ _ _ _ _ R1) as W1.
    rewrite Forall_lookup in W0, W1.
    apply lookup_segments in Hk
        as [[-> [= -> ->]]|[(k' & -> & Hk)|[(k' & -> & Hk)|[(k' & -> & Hk)|(k' & -> & Hk)]]]].
    + rewrite Hn in Hr. injection Hr as <-.
      rewrite (transfer_made st parent node br) by auto. done.
    + by apply (transfer_lookup kd) in Hk as [_ [=]].
    + pose proof (W0 _ _ Hk) as Hj. simpl in Hj.
      rewrite <- Nat.add_succ_r. apply lookup_segment_U.
      apply (IH0 k' r j n); try done.
      * intros ->. apply Hpar; [lia|]. split; [done|]. exists node. auto.
      * intros p Hp. apply Hpar. lia.
    + pose proof (W1 _ _ Hk) as Hj. simpl in Hj.
      rewrite <- Nat.add_succ_r. apply lookup_segment_V.
      apply (IH1 k' r j n); try done.
      * intros ->. apply Hpar; [lia|]. split; [done|]. exists node. auto.
      * intros p Hp. apply Hpar. lia.
    + by apply stat_events_no_alloc in Hk.
Qed.

Lemma transferred_app evs1 evs2 :
  transferred (evs1 ++ evs2) = transferred evs1 ++ transferred evs2.
Proof. apply omap_app. Qed.

Lemma transferred_points i (l : list Z) : transferred (AccumulatePoint i <$> l) = [].
Proof. induction l; [done|]. simpl. done. Qed.

Lemma transferred_stat parent i : transferred (stat_events parent i) = [].
Proof. by destruct parent. Qed.

Lemma node_events_root st parent i ei evs :
  node_events kd st parent i ei evs → is_Some (read_node st i).
Proof. destruct 1; eauto. Qed.

(** With blocks of [2 ^ k] elements, the first index of a block names
    the block. *)
Lemma Blockid_inj k b b' :
  0 ≤ k → chunk_size_ kd = 2 ^ k →
  Z.land b (n_block_elems_mask kd) = 0 →
  Z.land b' (n_block_elems_mask kd) = 0 →
  Blockid kd b = Blockid kd b' → b = b'.
Proof.
  unfold n_block_elems_mask, Blockid. intros Hk ->.
  replace (2 ^ k - 1) with (Z.ones k) by (rewrite Z.ones_equiv; lia).
  rewrite !Z.land_ones by done. intros Hb Hb' Hd.
  assert (0 < 2 ^ k) by (apply Z.pow_pos_nonneg; lia).
  rewrite (Z.div_mod b (2 ^ k)), (Z.div_mod b' (2 ^ k)) by lia.
  rewrite Hb, Hb', Hd. done.
Qed.

(** In a nested tree the transfers are for different first indices, all
    inside the range of the node, and above its first index when the
    parent begins there too. *)
Lemma node_events_transfers_apart st parent i ei evs :
  node_events kd st parent i ei evs →
  nested kd st i →
  ∀ node, read_node st i = Some node →
    ∃ B, transferred evs = Blockid kd <$> B
      ∧ Forall (λ b, Z.land b (n_block_elems_mask kd) = 0) B
      ∧ NoDup B
      ∧ Forall (λ b, node_begin node ≤ b < node_end node) B
      ∧ (parent_begin st parent = Some (node_begin node) →
         Forall (λ b, node_begin node < b) B).
Proof.
  induction 1 as [parent i br node Hn Hl
                 |parent i br node e0 e1 evs0 evs1 Hn Hl Hch0 Hch1 R0 IH0 R1 IH1];
    intros Hnest n Hrd.
  - exists []. change (transferred (Alloc br i :: ?l)) with (transferred l).
    rewrite transferred_app, transferred_points, transferred_stat.
    repeat split; try done; try constructor.
  - rewrite Hn in Hrd. injection Hrd as <-.
    pose proof (node_events_range _ _ _ _ _ _ R0) as Hr0.
    pose proof (node_events_range _ _ _ _ _ _ R1) as Hr1.
    destruct (node_events_root _ _ _ _ _ R0) as [n0 Hn0].
    destruct (node_events_root _ _ _ _ _ R1) as [n1 Hn1].
    destruct (Hnest i node (i + 1) e0 n0 n1) as (Hne & H0 & H1 & H2 & H3 & H4);
      try done.
    destruct (IH0 ltac:(intros p; intros; eapply (Hnest p); eauto; lia) n0 Hn0)
      as (B0 & Ht0 & Ha0 & Hd0 & Hin0 & Hab0).
    destruct (IH1 ltac:(intros p; intros; eapply (Hnest p); eauto; lia) n1 Hn1)
      as (B1 & Ht1 & Ha1 & Hd1 & Hin1 & Hab1).
    rewrite Forall_forall in Hin0, Hin1.
    (* the transfers below the node are above its first index *)
    assert (∀ b, b ∈ B0 → node_begin node < b) as Hab0'.
    { intros b Hb. destruct (decide (node_begin n0 = node_begin node)) as [E|].
      - assert (Forall (λ b, node_begin n0 < b) B0) as HF.
        { apply Hab0. unfold parent_begin. simpl. rewrite Hn. simpl. by rewrite E. }
        rewrite Forall_forall in HF. specialize (HF b Hb). lia.
      - specialize (Hin0 b Hb). lia. }
    assert (∀ b, b ∈ B1 → node_begin node < b) as Hab1'.
    { intros b Hb. destruct (decide (node_begin n1 = node_begin node)) as [E|].
      - assert (Forall (λ b, node_begin n1 < b) B1) as HF.
        { apply Hab1. unfold parent_begin. simpl. rewrite Hn. simpl. by rewrite E. }
        rewrite Forall_forall in HF. specialize (HF b Hb). lia.
      - specialize (Hin1 b Hb). lia. }
    assert (NoDup (B0 ++ B1)) as Hd01.
    { apply NoDup_app. split; [done|]. split; [|done].
      intros b Hb0 Hb1. specialize (Hin0 b Hb0). specialize (Hin1 b Hb1). lia. }
    change (transferred (Alloc br i :: ?l)) with (transferred l).
    rewrite !transferred_app, transferred_stat, app_nil_r, Ht0, Ht1.
    unfold transfer.
    destruct (Z.eqb_spec (Z.land (node_begin node) (n_block_elems_mask kd)) 0)
      as [Hland|Hland]; simpl.
    2:{ exists (B0 ++ B1). rewrite fmap_app. split; [done|].
        split; [by apply Forall_app|]. split; [done|]. split.
        - apply Forall_forall. intros b [Hb|Hb]%elem_of_app.
          + specialize (Hin0 b Hb). lia.
          + specialize (Hin1 b Hb). lia.
        - intros _. apply Forall_forall. intros b [Hb|Hb]%elem_of_app; auto. }
    destruct (parent_begin st parent) as [pb|] eqn:Hpb.
    + destruct (Z.eqb_spec pb (node_begin node)) as [->|Hpne]; simpl.
      * exists (B0 ++ B1). rewrite fmap_app. split; [done|].
        split; [by apply Forall_app|]. split; [done|]. split.
        -- apply Forall_forall. intros b [Hb|Hb]%elem_of_app.
           ++ specialize (Hin0 b Hb). lia.
           ++ specialize (Hin1 b Hb). lia.
        -- intros _. apply Forall_forall. intros b [Hb|Hb]%elem_of_app; auto.
      * exists (node_begin node :: B0 ++ B1). rewrite fmap_cons, fmap_app.
        split; [done|]. split; [constructor; [done|by apply Forall_app]|].
        split.
        { apply NoDup_cons. split; [|done].
          intros [Hb|Hb]%elem_of_app; [specialize (Hab0' _ Hb)|specialize (Hab1' _ Hb)];
            lia. }
        split.
        -- constructor; [lia|]. apply Forall_forall.
           intros b [Hb|Hb]%elem_of_app.
           ++ specialize (Hin0 b Hb). lia.
           ++ specialize (Hin1 b Hb). lia.
        -- intros [= E]. done.
    + exists (node_begin node :: B0 ++ B1). rewrite fmap_cons, fmap_app.
      split; [done|]. split; [constructor; [done|by apply Forall_app]|].
      split.
      { apply NoDup_cons. split; [|done].
        intros [Hb|Hb]%elem_of_app; [specialize (Hab0' _ Hb)|specialize (Hab1' _ Hb)];
          lia. }
      split.
      * constructor; [lia|]. apply Forall_forall.
        intros b [Hb|Hb]%elem_of_app.
        -- specialize (Hin0 b Hb). lia.
        -- specialize (Hin1 b Hb). lia.
      * intros [=].
Qed.

(** C8 (amended). Ownership is given away by [Split_] only, so never for
    a leaf. In the calls of a build, every transfer comes right after the
    allocation of a node that is not a leaf, that begins on a block
    boundary and that has no parent or a parent that begins at another
    index; it gives the block of that node's first index to the rank the
    node was allocated for ([begin_rank]), before anything is built below
    the node. And every such node makes this transfer. In a build whose
    nodes are nested (a node that is split holds a point, and its
    children lie inside it, one after the other), with blocks of a power
    of two elements, no block is given away twice. *)
Theorem Build_ownership fuel st begin_col end_col begin_rank end_rank bound parent
    decomp_pp st' node_i decomp :
  Build_ kd fuel st begin_col end_col begin_rank end_rank bound parent decomp_pp
    = Done (st', node_i, decomp) →
  ∃ evs,
    trace st' = trace st ++ evs
    ∧ (∀ k blk r, evs !! k = Some (GiveOwnership blk r) →
         ∃ k' j node,
           k = S k'
           ∧ evs !! k' = Some (Alloc r j)
           ∧ read_node st' j = Some node
           ∧ took_leaf kd j = false
           ∧ Z.land (node_begin node) (n_block_elems_mask kd) = 0
           ∧ blk = Blockid kd (node_begin node)
           ∧ ((j = node_i ∧ begins_elsewhere st' parent node)
              ∨ (∃ p, node_i ≤ p ∧ child_of kd st' p j
                      ∧ begins_elsewhere st' (Some p) node)))
    ∧ (∀ k r j node, evs !! k = Some (Alloc r j) →
         read_node st' j = Some node →
         took_leaf kd j = false →
         Z.land (node_begin node) (n_block_elems_mask kd) = 0 →
         (j = node_i → begins_elsewhere st' parent node) →
         (∀ p, node_i ≤ p → child_of kd st' p j → begins_elsewhere st' (Some p) node) →
         evs !! S k = Some (GiveOwnership (Blockid kd (node_begin node)) r))
    ∧ (∀ k, 0 ≤ k → chunk_size_ kd = 2 ^ k → nested kd st' node_i →
         NoDup (transferred evs)).
Proof.
  intros R%Build_run_of. apply Build_run_events in R as (evs & Ht & G). simpl in *.
  exists evs. split; [done|]. split; [|split].
  - intros k blk r Hk.
    destruct (node_events_transfer _ _ _ _ _ G _ _ _ Hk)
      as (k' & j & node & Hk' & Ha & Hr & Hlf & Hland & Hb & Hpar).
    exists k', j, node. repeat (split; [done|]).
    destruct Hpar as [?|(p & Hp & Hc & Hpb)]; [by left|right].
    exists p. split; [lia|done].
  - intros k r j node Hk Hr Hlf Hland Hroot Hpar.
    eapply node_events_transferred; try done.
    intros p Hp. apply Hpar. lia.
  - intros k Hk Hchunk Hnest.
    destruct (node_events_root _ _ _ _ _ G) as [node Hnode].
    destruct (node_events_transfers_apart _ _ _ _ _ G Hnest node Hnode)
      as (B & -> & Ha & Hd & _).
    rewrite Forall_forall in Ha.
    apply NoDup_fmap_2_strong; [|done].
    intros b b' Hb Hb'. apply (Blockid_inj k); auto.
Qed.
End ownership.

(** ** The theorems at work on a build of three nodes *)

Lemma two_machines_done :
  two_machines_build = Done (two_machines_state, 0, Some two_machines_decomp).
Proof. vm_compute. reflexivity. Qed.

Lemma Build_decomposition_witness :
  decomp_info two_machines_decomp = (0, 2)
  ∧ decomp_ok two_machines_state two_machines_decomp
  ∧ (decomp_info <$> decomp_child0 two_machines_decomp) = Some (0, 1)
  ∧ (decomp_info <$> decomp_child1 two_machines_decomp) = Some (1, 2).
Proof.
  destruct (Build_decomposition two_machines 3 _ _ _ _ _ _ _ _ _ _ _ two_machines_done)
    as (_ & Hinfo & _ & Hok).
  split; [exact Hinfo|]. split; [exact Hok|]. split; reflexivity.
Defined.

Lemma Build_statistics_witness :
  ∃ evs,
    trace two_machines_state = evs
    ∧ finalized evs ≡ₚ [0; 1; 2]
    ∧ evs !! 5%nat = Some (AccumulateChild 0 1)
    ∧ evs !! 6%nat = Some (Postprocess 1).
Proof.
  destruct (Build_statistics two_machines 3 _ _ _ _ _ _ _ _ _ _ _ two_machines_done)
    as (evs & Ht & Hfin & Hacc & _).
  exists evs. split; [exact Ht|]. split; [exact Hfin|].
  assert (evs !! 5%nat = Some (AccumulateChild 0 1)) as H5
    by (simpl in Ht; rewrite <- Ht; reflexivity).
  split; [exact H5|]. exact (proj1 (Hacc _ _ _ H5)).
Defined.

Lemma two_machines_nested : nested two_machines two_machines_state 0.
Proof.
  intros p node c0 c1 n0 n1 Hp Hn Hl Hc0 Hc1 Hn0 Hn1.
  pose proof (read_node_lt _ _ _ Hn) as Hlt.
  change (end_index two_machines_state) with 3 in Hlt.
  assert (p = 0 ∨ p = 1 ∨ p = 2) as [->|[->| ->]] by lia; [|discriminate Hl..].
  vm_compute in Hn. injection Hn as <-.
  injection Hc0 as <-. injection Hc1 as <-.
  vm_compute in Hn0, Hn1. injection Hn0 as <-. injection Hn1 as <-.
  vm_compute. repeat split; discriminate.
Qed.

Lemma Build_ownership_witness :
  ∃ evs,
    trace two_machines_state = evs
    ∧ evs !! 0%nat = Some (Alloc 0 0)
    ∧ evs !! 1%nat = Some (GiveOwnership 0 0)
    ∧ NoDup (transferred evs).
Proof.
  destruct (Build_ownership two_machines 3 _ _ _ _ _ _ _ _ _ _ _ two_machines_done)
    as (evs & Ht & _ & Hgive & Honce).
  exists evs. split; [exact Ht|].
  split; [|split; [|exact (Honce 1 ltac:(lia) eq_refl two_machines_nested)]].
  { simpl in Ht; rewrite <- Ht; reflexivity. }
  assert (evs !! 0%nat = Some (Alloc 0 0)) as H0
    by (simpl in Ht; rewrite <- Ht; reflexivity).
  refine (Hgive 0%nat 0 0
            (set_child (set_child far_point_root false 1) true 2) H0 _ _ _ _ _).
  - vm_compute. reflexivity.
  - reflexivity.
  - reflexivity.
  - intros _. exact I.
  - intros p Hp (_ & n & Hn & Hc). exfalso.
    pose proof (read_node_lt _ _ _ Hn) as Hlt.
    change (end_index two_machines_state) with 3 in Hlt.
    assert (p = 0 ∨ p = 1 ∨ p = 2) as [->|[->| ->]] by lia;
      vm_compute in Hn; injection Hn as <-; destruct Hc as [Hc|Hc]; discriminate Hc.
Defined.

(** ** The bounds of the nodes *)

Section bounds.
Context {Point Range Bound : Type} `{!Bounds Point Range Bound}.
Variable kd : builder Bound.
Implicit Types (st : state Point Bound) (node : Node Bound).




End bounds.

(** ** More on [Partition] *)

Section partition_frame.
Context {Point Bound : Type}.
Variable is_left : Point → bool.
Variable grow : Bound → Point → Bound.
Implicit Types (points : list Point) (lb rb : Bound).

Lemma scan_left_range fuel : ∀ points l r lb rb e l' lb' rb',
  scan_left is_left grow fuel points l r lb rb = Done (e, l', lb', rb') →
  l ≤ l'
  ∧ match e with
    | Broke => l' ≤ r
    | Returned => r < l' ∧ (l ≤ r + 1 → l' = r + 1)
    end.
Proof.
  induction fuel as [|fuel IH]; intros points l r lb rb e l' lb' rb'; [done|].
  simpl. destruct (Z.gtb_spec l r).
  { intros [= <- <- <- <-]. lia. }
  destruct (CacheRead points l) as [v|]; [|done].
  destruct (is_left v); simpl.
  - intros Hs. apply IH in Hs. destruct e; lia.
  - intros [= <- <- <- <-]. lia.
Qed.

Lemma scan_right_range fuel : ∀ points l r lb rb e r' lb' rb',
  scan_right is_left grow fuel points l r lb rb = Done (e, r', lb', rb') →
  r' ≤ r
  ∧ match e with
    | Broke => l ≤ r'
    | Returned => r' < l
    end.
Proof.
  induction fuel as [|fuel IH]; intros points l r lb rb e r' lb' rb'; [done|].
  simpl. destruct (Z.gtb_spec l r).
  { intros [= <- <- <- <-]. lia. }
  destruct (CacheRead points r) as [v|]; [|done].
  destruct (is_left v); simpl.
  - intros [= <- <- <- <-]. lia.
  - intros Hs. apply IH in Hs. destruct e; lia.
Qed.

(** Whenever the outer loop returns, it has only swapped points of
    [l, r] with each other. *)
Lemma partition_loop_frame n fuel : ∀ points l r lb rb p,
  partition_loop is_left grow n fuel points l r lb rb = Done p →
  points_out p ≡ₚ points
  ∧ length (points_out p) = length points
  ∧ (∀ i, i < l ∨ r < i → CacheRead (points_out p) i = CacheRead points i)
  ∧ l ≤ split_index p
  ∧ (l ≤ r + 1 → split_index p ≤ r + 1).
Proof.
  induction fuel as [|fuel IH]; intros points l r lb rb p; [done|].
  simpl.
  destruct (scan_left is_left grow n points l r lb rb)
    as [[[[e1 l1] lb1] rb1]| |] eqn:Hs1; try done.
  simpl. apply scan_left_range in Hs1 as [Hl1 He1].
  destruct e1.
  { intros [= <-]. simpl. repeat split; try done; lia. }
  destruct (scan_right is_left grow n points l1 r lb1 rb1)
    as [[[[e2 r2] lb2] rb2]| |] eqn:Hs2; try done.
  simpl. apply scan_right_range in Hs2 as [Hr2 He2].
  destruct e2.
  { intros [= <-]. simpl. repeat split; try done; lia. }
  destruct (Swap points l1 r2) as [points'|] eqn:Hsw; [|done]. simpl.
  intros Hp. apply IH in Hp as (Hperm & Hlen & Hout & Hlo & Hhi).
  unfold Swap in Hsw.
  destruct (CacheRead points l1) as [vl|] eqn:Hvl; [|done].
  destruct (CacheRead points r2) as [vr|] eqn:Hvr; [|done].
  destruct (Swap_Some points l1 r2 vl vr Hvl Hvr)
    as (points'' & Hsw' & Hlen' & Hperm' & _ & _ & Hother).
  unfold Swap in Hsw'. rewrite Hvl, Hvr in Hsw'.
  assert (points'' = points') as -> by congruence.
  split; [by rewrite Hperm|]. split; [congruence|].
  split; [|lia].
  intros i Hi. rewrite Hout by lia. apply Hother; lia.
Qed.

(** Whenever [Partition] returns, whatever it was called with, it has
    permuted the array, changed nothing outside [begin, begin + count),
    and the split index is not below [begin]. *)
Lemma Partition_frame begin count points lb rb p :
  Partition is_left grow begin count points lb rb = Done p →
  points_out p ≡ₚ points
  ∧ length (points_out p) = length points
  ∧ (∀ i, i < begin ∨ begin + count ≤ i →
          CacheRead (points_out p) i = CacheRead points i)
  ∧ begin ≤ split_index p
  ∧ (0 ≤ count → split_index p ≤ begin + count).
Proof.
  unfold Partition. intros Hp.
  apply partition_loop_frame in Hp as (Hperm & Hlen & Hout & Hlo & Hhi).
  repeat split; try done; [|lia].
  intros i Hi. apply Hout. lia.
Qed.
End partition_frame.

Section partition_sorted.
Context {Point Bound : Type}.
Variable is_left : Point → bool.
Variable grow : Bound → Point → Bound.
Implicit Types (points : list Point) (lb rb : Bound).

Lemma scan_left_sorted points s r fuel : ∀ l lb rb,
  l ≤ s → s ≤ r + 1 →
  (Z.to_nat (s - l) < fuel)%nat →
  (∀ i, l ≤ i < s → ∃ v, CacheRead points i = Some v ∧ is_left v = true) →
  (s ≤ r → ∃ v, CacheRead points s = Some v ∧ is_left v = false) →
  ∃ lb' rb',
    scan_left is_left grow fuel points l r lb rb
    = Done (if decide (s ≤ r) then Broke else Returned, s, lb', rb').
Proof.
  induction fuel as [|fuel IH]; intros l lb rb Hl Hs Hf Hleft Hat; [lia|].
  simpl. destruct (Z.gtb_spec l r) as [Hgt|Hle].
  { assert (l = s) as -> by lia. rewrite decide_False by lia. by eexists _, _. }
  destruct (decide (l = s)) as [->|Hne].
  - destruct (Hat Hle) as (v & -> & ->). simpl. rewrite decide_True by done.
    by eexists _, _.
  - destruct (Hleft l) as (v & -> & ->); [lia|]. simpl.
    apply IH; try lia; [|done]. intros i Hi. apply Hleft. lia.
Qed.

Lemma scan_right_sorted points l fuel : ∀ r lb rb,
  l ≤ r + 1 →
  (Z.to_nat (r + 1 - l) < fuel)%nat →
  (∀ i, l ≤ i ≤ r → ∃ v, CacheRead points i = Some v ∧ is_left v = false) →
  ∃ lb' rb',
    scan_right is_left grow fuel points l r lb rb = Done (Returned, l - 1, lb', rb').
Proof.
  induction fuel as [|fuel IH]; intros r lb rb Hl Hf Hright; [lia|].
  simpl. destruct (Z.gtb_spec l r) as [Hgt|Hle].
  { assert (r = l - 1) as -> by lia. by eexists _, _. }
  destruct (Hright r) as (v & -> & ->); [lia|]. simpl.
  apply IH; try lia. intros i Hi. apply Hright. lia.
Qed.

Lemma partition_loop_unfold n fuel points l r lb rb :
  partition_loop is_left grow n (S fuel) points l r lb rb
  = '(e1, left_i, left_bound, right_bound) ← scan_left is_left grow n points l r lb rb;
    match e1 with
    | Returned => Done (Partitioned left_i points left_bound right_bound)
    | Broke =>
        '(e2, right_i, left_bound, right_bound) ←
           scan_right is_left grow n points left_i r left_bound right_bound;
        match e2 with
        | Returned => Done (Partitioned left_i points left_bound right_bound)
        | Broke =>
            points ← of_option (Swap points left_i right_i);
            partition_loop is_left grow n fuel points left_i (right_i - 1)
              left_bound right_bound
        end
    end.
Proof. done. Qed.

(** On a range that is partitioned already, [Partition] swaps nothing
    and returns the index where the range is split. *)
Lemma Partition_sorted begin count s points lb rb :
  0 ≤ count → begin ≤ s ≤ begin + count →
  (∀ i, begin ≤ i < s → ∃ v, CacheRead points i = Some v ∧ is_left v = true) →
  (∀ i, s ≤ i < begin + count →
        ∃ v, CacheRead points i = Some v ∧ is_left v = false) →
  ∃ lb' rb',
    Partition is_left grow begin count points lb rb
    = Done (Partitioned s points lb' rb').
Proof.
  intros Hc Hs Hleft Hright. unfold Partition. cbv zeta.
  rewrite partition_loop_unfold.
  destruct (scan_left_sorted points s (begin + count - 1)
              (S (S (Z.to_nat count))) begin lb rb) as (lb1 & rb1 & ->);
    try lia; try done.
  { intros Hle. apply Hright. lia. }
  cbn [mbind outcome_bind]. destruct (decide (s ≤ begin + count - 1)) as [Hle|Hgt].
  - destruct (scan_right_sorted points s (S (S (Z.to_nat count)))
                (begin + count - 1) lb1 rb1) as (lb2 & rb2 & ->); try lia.
    { intros i Hi. apply Hright. lia. }
    cbn [mbind outcome_bind]. by eexists _, _.
  - by eexists _, _.
Qed.
End partition_sorted.

Section partition_more.
Context {Point Bound : Type}.
Variable is_left : Point → bool.
Variable grow : Bound → Point → Bound.
Implicit Types (points : list Point) (lb rb : Bound).

(** X1. [Partition] run again on what it returned, with the same
    predicate, returns the same split index and moves no point. *)
Theorem Partition_idempotent begin count points lb rb p lb2 rb2 :
  0 ≤ begin → 0 ≤ count → begin + count ≤ Z.of_nat (length points) →
  Partition is_left grow begin count points lb rb = Done p →
  ∃ p', Partition is_left grow begin count (points_out p) lb2 rb2 = Done p'
    ∧ split_index p' = split_index p
    ∧ points_out p' = points_out p.
Proof.
  intros Hb Hc Hlen Hp.
  destruct (Partition_inv is_left grow begin count points lb rb Hb Hc Hlen)
    as (s & points' & lb' & rb' & L & R & HP & I).
  rewrite HP in Hp. injection Hp as <-. simpl. destruct I.
  assert (∀ i, begin ≤ i < begin + count → is_Some (CacheRead points' i)) as Hread.
  { intros i Hi. apply CacheRead_in_range. lia. }
  destruct (Partition_sorted is_left grow begin count s points' lb2 rb2)
    as (lb3 & rb3 & ->); try lia.
  - intros i Hi. destruct (Hread i) as [v Hv]; [lia|].
    exists v. split; [done|]. eapply inv_left0; [|done]. lia.
  - intros i Hi. destruct (Hread i) as [v Hv]; [lia|].
    exists v. split; [done|]. eapply inv_right0; [|done]. lia.
  - by eexists.
Qed.
End partition_more.

Section range_more.
Context {A : Type}.
Implicit Types (points : list A).

Lemma range_of_app points begin count1 count2 :
  0 ≤ begin → 0 ≤ count1 → 0 ≤ count2 →
  range_of points begin (count1 + count2)
  = range_of points begin count1 ++ range_of points (begin + count1) count2.
Proof.
  intros Hb H1 H2. unfold range_of.
  rewrite !Z2Nat.inj_add by lia. rewrite <- take_take_drop, drop_drop. done.
Qed.

Lemma length_range_of points begin count :
  0 ≤ begin → 0 ≤ count → begin + count ≤ Z.of_nat (length points) →
  Z.of_nat (length (range_of points begin count)) = count.
Proof.
  intros Hb Hc Hlen. unfold range_of. rewrite length_take, length_drop. lia.
Qed.

Lemma filter_all (P : A → Prop) `{!∀ x, Decision (P x)} (l : list A) :
  Forall P l → filter P l = l.
Proof.
  induction 1 as [|x l Hx _ IH]; [done|]. by rewrite filter_cons_True, IH.
Qed.

Lemma filter_none (P : A → Prop) `{!∀ x, Decision (P x)} (l : list A) :
  Forall (λ x, ¬ P x) l → filter P l = [].
Proof.
  induction 1 as [|x l Hx _ IH]; [done|]. by rewrite filter_cons_False.
Qed.
End range_more.

Section partition_counts.
Context {Point Bound : Type}.
Variable is_left : Point → bool.
Variable grow : Bound → Point → Bound.
Implicit Types (points : list Point) (lb rb : Bound).

(** X2. The split index [Partition] returns is [begin] plus the number
    of points of the range that satisfy the predicate. *)
Theorem Partition_split_count begin count points lb rb :
  0 ≤ begin → 0 ≤ count → begin + count ≤ Z.of_nat (length points) →
  ∃ p, Partition is_left grow begin count points lb rb = Done p
    ∧ split_index p
      = begin + Z.of_nat (length (filter (λ v, is_left v = true)
                                    (range_of points begin count))).
Proof.
  intros Hb Hc Hlen.
  destruct (Partition_inv is_left grow begin count points lb rb Hb Hc Hlen)
    as (s & points' & lb' & rb' & L & R & HP & I).
  exists (Partitioned s points' lb' rb'). split; [done|]. simpl. destruct I.
  assert (range_of points' begin count ≡ₚ range_of points begin count) as Hperm.
  { apply range_of_perm; try done. intros i Hi. apply inv_out0. lia. }
  rewrite <- Hperm.
  replace count with ((s - begin) + (begin + count - s)) at 1 by lia.
  rewrite range_of_app by lia. rewrite filter_app, length_app.
  replace (begin + (s - begin)) with s by lia.
  rewrite filter_all, filter_none.
  - simpl. rewrite Nat.add_0_r, length_range_of by lia. lia.
  - apply Forall_forall. intros v Hv.
    apply elem_of_range_of in Hv as (i & Hi & Hr); [|lia].
    assert (is_left v = false) as -> by (eapply inv_right0; [|done]; lia). done.
  - apply Forall_forall. intros v Hv.
    apply elem_of_range_of in Hv as (i & Hi & Hr); [|lia].
    eapply inv_left0; [|done]. lia.
Qed.

(** X3. The two bounds [Partition] grows: the left one grows by the
    points of the range that satisfy the predicate, each of them and no
    other point; the right one by those that do not. *)
Theorem Partition_grows_bounds begin count points lb rb :
  0 ≤ begin → 0 ≤ count → begin + count ≤ Z.of_nat (length points) →
  ∃ p L R,
    Partition is_left grow begin count points lb rb = Done p
    ∧ left_out p = foldl grow lb L
    ∧ right_out p = foldl grow rb R
    ∧ (∀ v, v ∈ L ↔ v ∈ range_of points begin count ∧ is_left v = true)
    ∧ (∀ v, v ∈ R ↔ v ∈ range_of points begin count ∧ is_left v = false).
Proof.
  intros Hb Hc Hlen.
  destruct (Partition_inv is_left grow begin count points lb rb Hb Hc Hlen)
    as (s & points' & lb' & rb' & L & R & HP & I).
  exists (Partitioned s points' lb' rb'), L, R. simpl. destruct I.
  assert (range_of points' begin count ≡ₚ range_of points begin count) as Hperm.
  { apply range_of_perm; try done. intros i Hi. apply inv_out0. lia. }
  assert (∀ v, v ∈ range_of points begin count
               ↔ ∃ i, begin ≤ i < begin + count ∧ CacheRead points' i = Some v) as Hmem.
  { intros v. rewrite <- Hperm. by apply elem_of_range_of. }
  repeat (split; [done|]). split.
  - intros v. rewrite Hmem. split.
    + intros Hv. destruct (inv_L0 v Hv) as [Hl (i & Hi & Hr)].
      split; [|done]. exists i. split; [lia|done].
    + intros [(i & Hi & Hr) Hl]. eapply inv_L_cover0; [|done].
      destruct (decide (i < s)); [lia|].
      assert (is_left v = false) by (eapply inv_right0; [|done]; lia). congruence.
  - intros v. rewrite Hmem. split.
    + intros Hv. destruct (inv_R0 v Hv) as [Hl (i & Hi & Hr)].
      split; [|done]. exists i. split; [lia|done].
    + intros [(i & Hi & Hr) Hl]. eapply inv_R_cover0; [|done].
      destruct (decide (s ≤ i)); [lia|].
      assert (is_left v = true) by (eapply inv_left0; [|done]; lia). congruence.
Qed.
End partition_counts.

(** ** [FindBoundingBox_] *)

Section find_bounding_box.
Context {Point Range Bound : Type} `{!Bounds Point Range Bound}.
Implicit Types (points : list Point) (bound : Bound).

Lemma range_of_one {A : Type} (l : list A) i x :
  CacheRead l i = Some x → range_of l i 1 = [x].
Proof.
  intros [_ Hx]%CacheRead_Some. unfold range_of.
  by rewrite (drop_S _ _ _ Hx).
Qed.

Lemma FindBoundingBox_fold points begin bound (n : nat) :
  0 ≤ begin → begin + Z.of_nat n ≤ Z.of_nat (length points) →
  FindBoundingBox_ points begin (Z.of_nat n) bound
  = Done (foldl bound_or_point bound (range_of points begin (Z.of_nat n))).
Proof.
  intros Hb. unfold FindBoundingBox_. induction n as [|n IH]; intros Hlen; [done|].
  rewrite seqZ_S, foldl_app, IH by lia. simpl.
  destruct (CacheRead_in_range points (begin + Z.of_nat n)) as [x Hx]; [lia|].
  rewrite Hx. simpl.
  replace (Z.of_nat (S n)) with (Z.of_nat n + 1) by lia.
  rewrite range_of_app by lia. rewrite (range_of_one _ _ _ Hx), foldl_app. done.
Qed.

Lemma FindBoundingBox_stops points (o : outcome Bound) (l : list Z) :
  foldl (λ acc i, b ← acc; point ← of_option (CacheRead points i);
                  mret (bound_or_point b point)) o l
  = b ← o;
    foldl (λ acc i, b ← acc; point ← of_option (CacheRead points i);
                    mret (bound_or_point b point)) (Done b) l.
Proof.
  destruct o as [b| |]; [done| |]; induction l as [|i l IH]; done.
Qed.

(** X4. [FindBoundingBox_] over a range of the array grows the bound by
    the points of the range, in the order of their indices; and the box
    of a range is the box of its first part grown over the rest. *)
Theorem FindBoundingBox_spec points begin count bound :
  0 ≤ begin → 0 ≤ count → begin + count ≤ Z.of_nat (length points) →
  FindBoundingBox_ points begin count bound
  = Done (foldl bound_or_point bound (range_of points begin count))
  ∧ ∀ count1 count2, 0 ≤ count1 → 0 ≤ count2 → count = count1 + count2 →
      FindBoundingBox_ points begin count bound
      = b ← FindBoundingBox_ points begin count1 bound;
        FindBoundingBox_ points (begin + count1) count2 b.
Proof.
  intros Hb Hc Hlen. split.
  - rewrite <- (Z2Nat.id count) by done. apply FindBoundingBox_fold; lia.
  - intros count1 count2 H1 H2 ->. unfold FindBoundingBox_.
    rewrite seqZ_app, foldl_app by done. apply FindBoundingBox_stops.
Qed.
End find_bounding_box.

(** ** The widest dimension *)

Section float_order.
Implicit Types (x y z : float) (a b c : SpecFloat.spec_float).

Local Ltac compare_cases :=
  unfold SpecFloat.SFltb, SpecFloat.SFleb, SpecFloat.SFcompare;
  change (Pos.compare_cont Eq ?a ?b) with (Pos.compare a b);
  repeat match goal with
         | |- context [Z.compare ?a ?b] => destruct (Z.compare_spec a b)
         | |- context [Pos.compare ?a ?b] => destruct (Pos.compare_spec a b)
         end;
  simpl; try done; try lia.

Lemma SFltb_trans a b c :
  SpecFloat.SFltb a b = true → SpecFloat.SFltb b c = true → SpecFloat.SFltb a c = true.
Proof.
  destruct a as [[]| [] | |[] ma ea], b as [[]| [] | |[] mb eb], c as [[]| [] | |[] mc ec];
    compare_cases.
Qed.

Lemma SFltb_leb_trans a b c :
  SpecFloat.SFltb a b = true → SpecFloat.SFleb b c = true → SpecFloat.SFltb a c = true.
Proof.
  destruct a as [[]| [] | |[] ma ea], b as [[]| [] | |[] mb eb], c as [[]| [] | |[] mc ec];
    compare_cases.
Qed.

Lemma SFltb_irrefl a : SpecFloat.SFltb a a = false.
Proof. destruct a as [[]| [] | |[] ma ea]; compare_cases. Qed.

Lemma float_ltb_trans x y z : (x <? y)%float = true → (y <? z)%float = true → (x <? z)%float = true.
Proof. rewrite !FloatAxioms.ltb_spec. apply SFltb_trans. Qed.

Lemma float_ltb_leb_trans x y z :
  (x <? y)%float = true → (y <=? z)%float = true → (x <? z)%float = true.
Proof. rewrite !FloatAxioms.ltb_spec, FloatAxioms.leb_spec. apply SFltb_leb_trans. Qed.

Lemma float_ltb_irrefl x : (x <? x)%float = false.
Proof. rewrite FloatAxioms.ltb_spec. apply SFltb_irrefl. Qed.
End float_order.

Section widest.
Context {Point Range Bound : Type} `{!Bounds Point Range Bound}.
Variable kd : builder Bound.

Lemma widest_loop (bound : Bound) (k : nat) :
  (∀ d, 0 ≤ d < Z.of_nat k → is_Some (bound_get bound d)) →
  ∃ split_dim max_width,
    foldl (λ acc d, '(split_dim, max_width) ← acc;
                    range ← of_option (bound_get bound d);
                    let w := range_width range in
                    if PrimFloat.ltb max_width w then mret (d, w)
                    else mret (split_dim, max_width))
      (Done (BIG_BAD_NUMBER, (-1)%float)) (seqZ 0 (Z.of_nat k))
    = Done (split_dim, max_width)
    ∧ ((split_dim = BIG_BAD_NUMBER ∧ max_width = (-1)%float
        ∧ ∀ d range, 0 ≤ d < Z.of_nat k → bound_get bound d = Some range →
            (-1 <? range_width range)%float = false)
       ∨ (0 ≤ split_dim < Z.of_nat k
          ∧ ∃ widest, bound_get bound split_dim = Some widest
              ∧ max_width = range_width widest
              ∧ (-1 <? max_width)%float = true
              ∧ (∀ d range, 0 ≤ d < Z.of_nat k → bound_get bound d = Some range →
                   (max_width <? range_width range)%float = false)
              ∧ (∀ d range, 0 ≤ d < split_dim → bound_get bound d = Some range →
                   (max_width <=? range_width range)%float = false))).
Proof.
  induction k as [|k IH]; intros Hget.
  { eexists _, _. split; [done|]. left. repeat split. intros; lia. }
  destruct IH as (sd & mw & Hfold & Hinv); [intros d Hd; apply Hget; lia|].
  rewrite seqZ_S, Z.add_0_l, foldl_app, Hfold. simpl.
  destruct (Hget (Z.of_nat k)) as [range Hrange]; [lia|].
  rewrite Hrange. simpl.
  assert (∀ d r, 0 ≤ d < Z.of_nat (S k) → bound_get bound d = Some r →
            d = Z.of_nat k ∧ r = range ∨ 0 ≤ d < Z.of_nat k) as Hsplit.
  { intros d r Hd Hr. destruct (decide (d = Z.of_nat k)) as [->|]; [|right; lia].
    left. split; [done|]. congruence. }
  destruct (PrimFloat.ltb mw (range_width range)) eqn:Hlt.
  - eexists _, _. split; [done|]. right. split; [lia|].
    exists range. split; [done|]. split; [done|].
    assert ((-1 <? range_width range)%float = true) as Hpos.
    { destruct Hinv as [(_ & -> & _)|(_ & w & _ & _ & Hw & _)]; [done|].
      by eapply float_ltb_trans. }
    split; [done|].
    assert (∀ d r, 0 ≤ d < Z.of_nat k → bound_get bound d = Some r →
              (mw <? range_width r)%float = false) as Hmax.
    { destruct Hinv as [(_ & -> & Hn)|(_ & w & _ & _ & _ & Hm & _)]; done. }
    split.
    + intros d r Hd Hr. destruct (Hsplit d r Hd Hr) as [[-> ->]|Hd'].
      * apply float_ltb_irrefl.
      * destruct (PrimFloat.ltb (range_width range) (range_width r)) eqn:E; [|done].
        rewrite <- (Hmax d r Hd' Hr). symmetry. by eapply float_ltb_trans.
    + intros d r Hd Hr.
      destruct (PrimFloat.leb (range_width range) (range_width r)) eqn:E; [|done].
      rewrite <- (Hmax d r ltac:(lia) Hr). symmetry. by eapply float_ltb_leb_trans.
  - exists sd, mw. split; [done|].
    destruct Hinv as [(-> & -> & Hn)|(Hsd & w & Hw & -> & Hpos & Hm & Hf)].
    + left. repeat split.
      intros d r Hd Hr. destruct (Hsplit d r Hd Hr) as [[-> ->]|Hd']; eauto.
    + right. split; [lia|]. exists w. repeat (split; [done|]). split; [|done].
      intros d r Hd Hr. destruct (Hsplit d r Hd Hr) as [[-> ->]|Hd']; eauto.
Qed.

(** X5. On a bound that has every dimension below [dim_], the loop of
    [Build_] that looks for the widest dimension returns. It returns
    [BIG_BAD_NUMBER] when no dimension is wider than -1 (there is no
    dimension, or every width is negative or not a number). Otherwise it
    returns a dimension below [dim_] that is wider than -1, such that no
    dimension is wider than it and no dimension before it is as wide. *)
Theorem widest_dimension_spec (bound : Bound) :
  (∀ d, 0 ≤ d < dim_ kd → is_Some (bound_get bound d)) →
  ∃ split_dim,
    widest_dimension kd bound = Done split_dim
    ∧ ((split_dim = BIG_BAD_NUMBER
        ∧ ∀ d range, 0 ≤ d < dim_ kd → bound_get bound d = Some range →
            (-1 <? range_width range)%float = false)
       ∨ (0 ≤ split_dim < dim_ kd
          ∧ ∃ widest, bound_get bound split_dim = Some widest
              ∧ (-1 <? range_width widest)%float = true
              ∧ (∀ d range, 0 ≤ d < dim_ kd → bound_get bound d = Some range →
                   (range_width widest <? range_width range)%float = false)
              ∧ (∀ d range, 0 ≤ d < split_dim → bound_get bound d = Some range →
                   (range_width widest <=? range_width range)%float = false))).
Proof.
  intros Hget. unfold widest_dimension.
  destruct (Z.le_gt_cases (dim_ kd) 0) as [Hle|Hpos].
  { rewrite seqZ_nil by done. simpl. eexists. split; [done|]. left.
    split; [done|]. intros; lia. }
  destruct (widest_loop bound (Z.to_nat (dim_ kd))) as (sd & mw & Hfold & Hinv).
  { intros d Hd. apply Hget. lia. }
  rewrite Z2Nat.id in Hfold, Hinv by lia. cbv zeta in Hfold. rewrite Hfold. simpl.
  exists sd. split; [done|].
  destruct Hinv as [(-> & -> & Hn)|(Hsd & w & Hw & -> & Hpos' & Hm & Hf)].
  - left. done.
  - right. split; [done|]. by exists w.
Qed.
End widest.

(** ** More on the goal and on the interpolation loop of [Split_] *)

Section split_more.
Context {Point Range Bound : Type} `{!Bounds Point Range Bound}.
Variable kd : builder Bound.
Implicit Types (points : list Point) (node : Node Bound)
  (v : @split_vars Point Range Bound) (d : @split_decision Point Bound).

(** The index midpoint of more than [chunk_size_] points, rounded to a
    block boundary, is strictly inside the range. *)
Lemma round_midpoint_inside begin_col end_col :
  0 < chunk_size_ kd → 0 ≤ begin_col → chunk_size_ kd < end_col - begin_col →
  begin_col < round_to_chunk kd ((begin_col + end_col) ÷ 2) < end_col.
Proof.
  intros Hc Hb Hn. unfold round_to_chunk.
  set (c := chunk_size_ kd) in *.
  rewrite (Z.quot_div_nonneg (begin_col + end_col) 2) by lia.
  rewrite (Z.quot_div_nonneg c 2) by lia.
  rewrite Z.quot_div_nonneg
    by (try apply Z.add_nonneg_nonneg; try apply Z.div_pos; lia).
  pose proof (Z.div_mod c 2 ltac:(lia)) as D2.
  pose proof (Z.mod_pos_bound c 2 ltac:(lia)) as M2.
  pose proof (Z.div_mod (begin_col + end_col) 2 ltac:(lia)) as Dg.
  pose proof (Z.mod_pos_bound (begin_col + end_col) 2 ltac:(lia)) as Mg.
  pose proof (Z.div_mod ((begin_col + end_col) / 2 + c / 2) c ltac:(lia)) as D.
  pose proof (Z.mod_pos_bound ((begin_col + end_col) / 2 + c / 2) c ltac:(lia)) as M.
  nia.
Qed.

(** X6. On at most one machine, for a node of more than [chunk_size_]
    points that begins at a non-negative index and whose [begin + end]
    fits [index_t]: the goal is the midpoint as the machine computes it,
    the sum that rounds it fits [index_t] too, and the rounded goal is
    strictly inside the range of the node, so that a split at the goal
    leaves points on both sides. *)
Theorem goal_inside_one_machine bits begin_col end_col begin_rank end_rank :
  0 < bits → 0 < chunk_size_ kd → 0 ≤ begin_col →
  chunk_size_ kd < end_col - begin_col →
  end_rank ≤ begin_rank + 1 →
  index_t_holds bits (begin_col + end_col) →
  goal_col_of kd begin_col end_col begin_rank end_rank
    = midpoint_goal bits begin_col end_col
  ∧ index_t_holds bits
      (goal_col_of kd begin_col end_col begin_rank end_rank + chunk_size_ kd ÷ 2)
  ∧ begin_col
      < round_to_chunk kd (goal_col_of kd begin_col end_col begin_rank end_rank)
      < end_col.
Proof.
  intros Hbits Hc Hb Hn Hr Hfit. rewrite goal_col_one_machine by done.
  split; [|split].
  - unfold midpoint_goal. by rewrite index_t_wrap_holds.
  - unfold index_t_holds in *.
    assert (0 < 2 ^ (bits - 1)) by (apply Z.pow_pos_nonneg; lia).
    Z.to_euclidean_division_equations. lia.
  - by apply round_midpoint_inside.
Qed.

(** Without that, the machine's midpoint is not the midpoint: two
    indices above [2 ^ 30] in an [index_t] of 32 bits. *)
Lemma midpoint_goal_wraps :
  midpoint_goal 32 1073741824 1073741828 = -1073741822
  ∧ (1073741824 + 1073741828) ÷ 2 = 1073741826.
Proof. split; reflexivity. Qed.

(** X7. On several machines of the [n_peers] there are
    ([0 <= begin_rank], [begin_rank + 1 < end_rank <= n_peers]), with at
    least as many points as machines and no overflow of the [uint64]
    product, the goal index is a share of the global point count that
    leaves points on both sides: it lies strictly between 0 and
    [n_points_]. *)
Theorem goal_col_machines_inside begin_col end_col begin_rank end_rank :
  0 ≤ begin_rank → begin_rank + 1 < end_rank → end_rank ≤ n_peers kd →
  n_peers kd < 2 ^ 31 → n_peers kd ≤ n_points_ kd → n_points_ kd < 2 ^ 63 →
  2 * ((begin_rank + end_rank) ÷ 2) * n_points_ kd + n_peers kd < 2 ^ 64 →
  0 < goal_col_of kd begin_col end_col begin_rank end_rank < n_points_ kd.
Proof.
  intros Hb Hr He Hp Hn Hn' Hov.
  assert (begin_rank < (begin_rank + end_rank) ÷ 2 < end_rank) as Hs
    by (Z.to_euclidean_division_equations; lia).
  pose proof (goal_col_machines kd begin_col end_col begin_rank end_rank Hr
                ltac:(lia) ltac:(lia) ltac:(lia) Hov) as Hgoal.
  cbv zeta in Hgoal.
  set (goal := goal_col_of kd begin_col end_col begin_rank end_rank) in *.
  set (s := (begin_rank + end_rank) ÷ 2) in *.
  split; nia.
Qed.

(** One round of the interpolation loop: the points are those
    [Partition] returned; the loop goes round again with one end of the
    range moved to the split index, or is left with the split at the
    goal. *)
Lemma split_step_moves split_dim goal_col v r :
  split_step split_dim goal_col v = Done r →
  ∃ p,
    Partition
      (is_left {| dimension := split_dim;
                  value := range_interpolate (sv_current_range v)
                             (double_of_index (goal_col - sv_begin_col v)
                              / double_of_index (sv_end_col v - sv_begin_col v))%float |})
      bound_or_point (sv_begin_col v) (sv_end_col v - sv_begin_col v) (sv_points v)
      (bound_Reset (sv_left_bound v)) (bound_Reset (sv_right_bound v)) = Done p
    ∧ match r with
      | inl v' =>
          sv_points v' = points_out p
          ∧ ((split_index p < goal_col
              ∧ sv_begin_col v' = split_index p ∧ sv_end_col v' = sv_end_col v)
             ∨ (goal_col < split_index p
                ∧ sv_begin_col v' = sv_begin_col v ∧ sv_end_col v' = split_index p))
      | inr d =>
          sd_points d = points_out p
          ∧ sd_begin_col d = sv_begin_col v
          ∧ sd_split_col d = goal_col
          ∧ sd_end_col d = sv_end_col v
      end.
Proof.
  unfold split_step. destruct (Partition _ _ _ _ _ _ _) as [p| |]; try done.
  simpl. intros Hr. exists p. split; [done|].
  destruct (Z.eqb_spec (split_index p) goal_col) as [Heq|Hne].
  { injection Hr as <-. done. }
  destruct (Z.ltb_spec (split_index p) goal_col).
  - destruct (bound_get (right_out p) split_dim) as [range|]; [|done]. simpl in Hr.
    destruct (PrimFloat.eqb (range_width range) 0); injection Hr as <-; simpl.
    + done.
    + split; [done|]. by left.
  - destruct (bound_get (left_out p) split_dim) as [range|]; [|done]. simpl in Hr.
    destruct (PrimFloat.eqb (range_width range) 0); injection Hr as <-; simpl.
    + done.
    + split; [done|]. right. split; [lia|done].
Qed.

(** The loop as a whole: it permutes the points and is left with the
    split at the goal; when the goal is strictly inside the range it
    started with, the range it ends with is inside that range and has the
    goal strictly inside, and no point outside the first range has moved. *)
Lemma split_loop_moves split_dim goal_col fuel : ∀ v d,
  split_loop fuel split_dim goal_col v = Done d →
  sd_points d ≡ₚ sv_points v
  ∧ length (sd_points d) = length (sv_points v)
  ∧ sd_split_col d = goal_col
  ∧ (sv_begin_col v < goal_col < sv_end_col v →
     sv_begin_col v ≤ sd_begin_col d
     ∧ sd_begin_col d < goal_col
     ∧ goal_col < sd_end_col d
     ∧ sd_end_col d ≤ sv_end_col v
     ∧ ∀ i, i < sv_begin_col v ∨ sv_end_col v ≤ i →
            CacheRead (sd_points d) i = CacheRead (sv_points v) i).
Proof.
  induction fuel as [|fuel IH]; intros v d; [done|].
  simpl. destruct (split_step split_dim goal_col v) as [r| |] eqn:Hstep; try done.
  apply split_step_moves in Hstep as (p & HP & Hr).
  apply Partition_frame in HP as (Hperm & Hlen & Hout & Hlo & Hhi).
  simpl. destruct r as [v'|d'].
  - destruct Hr as (Hpts & Hends). intros Hd.
    apply IH in Hd as (Hperm' & Hlen' & Hsplit & Hin).
    rewrite Hpts in Hperm', Hlen', Hin.
    split; [by rewrite Hperm'|]. split; [congruence|]. split; [done|].
    intros Hgoal.
    destruct Hin as (H1 & H2 & H3 & H4 & Hout'); [destruct Hends; lia|].
    repeat (split; [destruct Hends; lia|]).
    intros i Hi. rewrite Hout' by (destruct Hends; lia). apply Hout. lia.
  - intros [= <-]. destruct Hr as (-> & -> & -> & ->).
    do 3 (split; [done|]). intros Hgoal.
    repeat (split; [lia|]). intros i Hi. apply Hout. lia.
Qed.

(** Whatever [Split_] decides, it has only permuted the points. *)
Lemma choose_split_perm fuel points node begin_rank end_rank split_dim d :
  choose_split kd fuel points node begin_rank end_rank split_dim = Done d →
  sd_points d ≡ₚ points ∧ length (sd_points d) = length points.
Proof.
  unfold choose_split.
  destruct (bound_get (node_bound node) split_dim) as [range|]; [|done]. simpl.
  destruct (node_count node <=? chunk_size_ kd).
  - destruct (PrimFloat.eqb (range_width range) 0).
    + by intros [= <-].
    + destruct (Partition _ _ _ _ _ _ _) as [p| |] eqn:HP; try done.
      simpl. intros [= <-]. simpl.
      apply Partition_frame in HP as (Hperm & Hlen & _). done.
  - intros Hd. apply split_loop_moves in Hd as (Hperm & Hlen & _). done.
Qed.

(** A node of at most [chunk_size_] points: the two children tile it. *)
Lemma choose_split_small fuel points node begin_rank end_rank split_dim d :
  node_count node ≤ chunk_size_ kd →
  choose_split kd fuel points node begin_rank end_rank split_dim = Done d →
  sd_begin_col d = node_begin node
  ∧ sd_end_col d = node_end node
  ∧ (0 ≤ node_count node → node_begin node ≤ sd_split_col d ≤ node_end node)
  ∧ ∀ i, i < node_begin node ∨ node_end node ≤ i →
         CacheRead (sd_points d) i = CacheRead points i.
Proof.
  intros Hsmall. unfold choose_split.
  destruct (bound_get (node_bound node) split_dim) as [range|]; [|done]. simpl.
  destruct (Z.leb_spec (node_count node) (chunk_size_ kd)); [|lia].
  destruct (PrimFloat.eqb (range_width range) 0).
  - intros [= <-]. simpl. repeat (split; [done|]). split; [|done].
    unfold node_end. intros Hc. Z.to_euclidean_division_equations. lia.
  - destruct (Partition _ _ _ _ _ _ _) as [p| |] eqn:HP; try done.
    simpl. intros [= <-]. simpl.
    apply Partition_frame in HP as (_ & _ & Hout & Hlo & Hhi).
    unfold node_end in *.
    replace (node_begin node + node_count node - node_begin node)
      with (node_count node) in * by lia.
    repeat (split; [done|]). split; [lia|]. done.
Qed.

(** X8. A node of more than [chunk_size_] points whose rounded goal is
    strictly inside its range. When the interpolation loop of [Split_]
    is left, the split is at the goal, the two ranges it hands to the
    children lie inside the range of the node, one after the other,
    neither is empty, the points have been permuted, and no point
    outside the range of the node has moved. *)
Theorem Split_children_inside fuel points node begin_rank end_rank split_dim d :
  chunk_size_ kd < node_count node →
  node_begin node
    < round_to_chunk kd
        (goal_col_of kd (node_begin node) (node_end node) begin_rank end_rank)
    < node_end node →
  choose_split kd fuel points node begin_rank end_rank split_dim = Done d →
  sd_split_col d
    = round_to_chunk kd
        (goal_col_of kd (node_begin node) (node_end node) begin_rank end_rank)
  ∧ node_begin node ≤ sd_begin_col d
  ∧ sd_begin_col d < sd_split_col d
  ∧ sd_split_col d < sd_end_col d
  ∧ sd_end_col d ≤ node_end node
  ∧ sd_points d ≡ₚ points
  ∧ ∀ i, i < node_begin node ∨ node_end node ≤ i →
         CacheRead (sd_points d) i = CacheRead points i.
Proof.
  intros Hbig Hgoal Hd.
  destruct (bound_get (node_bound node) split_dim) as [range|] eqn:Hget.
  2:{ unfold choose_split in Hd. by rewrite Hget in Hd. }
  rewrite (choose_split_goal kd fuel points node begin_rank end_rank split_dim range)
    in Hd by done.
  apply split_loop_moves in Hd as (Hperm & _ & Hsplit & Hin). simpl in *.
  destruct (Hin Hgoal) as (H1 & H2 & H3 & H4 & Hout).
  rewrite Hsplit. done.
Qed.

(** On at most one machine, or for a node of at most [chunk_size_]
    points, the ranges [Split_] hands to the children lie inside the
    range of the node, one after the other; a node of more than
    [chunk_size_] points is split at a block boundary with points on
    both sides; and no point outside the range of the node has moved. *)
Lemma choose_split_local fuel points node begin_rank end_rank split_dim d :
  0 < chunk_size_ kd → 0 ≤ node_begin node → 0 ≤ node_count node →
  end_rank ≤ begin_rank + 1 ∨ node_count node ≤ chunk_size_ kd →
  choose_split kd fuel points node begin_rank end_rank split_dim = Done d →
  block_split (chunk_size_ kd) (node_begin node) (node_end node)
    (sd_begin_col d) (sd_split_col d) (sd_end_col d)
  ∧ ∀ i, i < node_begin node ∨ node_end node ≤ i →
         CacheRead (sd_points d) i = CacheRead points i.
Proof.
  intros Hc Hb Hn Hlocal Hd. unfold block_split, inside_split.
  destruct (Z.le_gt_cases (node_count node) (chunk_size_ kd)) as [Hsmall|Hbig].
  - destruct (choose_split_small _ _ _ _ _ _ _ Hsmall Hd) as (-> & -> & Hs & Hout).
    specialize (Hs Hn). unfold node_end in *.
    split; [|done]. split; [lia|]. intros ?. lia.
  - destruct Hlocal as [Hone|?]; [|lia].
    destruct (bound_get (node_bound node) split_dim) as [range|] eqn:Hget.
    2:{ unfold choose_split in Hd. by rewrite Hget in Hd. }
    rewrite (choose_split_goal kd fuel points node begin_rank end_rank split_dim range)
      in Hd by first [lia|done].
    apply split_loop_moves in Hd as (_ & _ & Hsplit & Hin). simpl in *.
    rewrite goal_col_one_machine in Hin, Hsplit by done.
    destruct Hin as (H1 & H2 & H3 & H4 & Hout).
    { apply round_midpoint_inside; try done. unfold node_end. lia. }
    split; [|done]. split; [rewrite Hsplit; lia|]. intros _.
    split; [|rewrite Hsplit; lia]. rewrite Hsplit.
    apply round_to_chunk_nearest; [done|].
    unfold node_end. Z.to_euclidean_division_equations. lia.
Qed.
End split_more.

(** ** What a build does to the points *)

Section build_points.
Context {Point Range Bound : Type} `{!Bounds Point Range Bound}.
Variable kd : builder Bound.
Implicit Types (st : state Point Bound) (node : Node Bound).

Lemma points_Build_leave st i br er parent dpp l r :
  points_ (Build_leave st i br er parent dpp l r).1.1 = points_ st.
Proof. unfold Build_leave. by destruct parent. Qed.

Lemma Build_run_points st b e br er bound parent dpp r :
  Build_run kd st b e br er bound parent dpp r →
  points_ r.1.1 ≡ₚ points_ st ∧ length (points_ r.1.1) = length (points_ st).
Proof.
  induction 1 as
    [st b e br er bound parent dpp st1 i st2 HE HL
    |fuel st b e br er bound parent dpp st1 i st2 d st3 c0 d0 st4 c1 d1
       HE HS _ IH0 _ IH1].
  - pose proof (Build_enter_spec _ _ _ _ _ _ _ _ _ HE) as (Hi & _ & _ & Hp1 & _).
    pose proof (end_index_nonneg st). assert (0 ≤ i) as Hi0 by lia.
    destruct (Build_leaf_spec _ _ _ Hi0 HL) as (node & _ & _ & Hp2 & _).
    rewrite points_Build_leave, Hp2. simpl. by rewrite Hp1.
  - pose proof (Build_enter_spec _ _ _ _ _ _ _ _ _ HE) as (Hi & _ & _ & Hp1 & _).
    destruct (Split_enter_spec _ _ _ _ _ _ _ _ _ HS)
      as (node & sdim & _ & _ & Hd & _ & Hp2 & _ & _).
    apply choose_split_perm in Hd as (Hperm & Hlen).
    rewrite points_Build_leave. simpl in *.
    destruct IH0 as (P0 & L0). destruct IH1 as (P1 & L1).
    split.
    + rewrite P1, P0, Hp2, Hperm, Hp1. done.
    + congruence.
Qed.

(** X9. A build only reorders the points: the array it leaves is a
    permutation of the array it was given. *)
Theorem Build_points_permuted fuel st begin_col end_col begin_rank end_rank bound parent
    decomp_pp st' node_i decomp :
  Build_ kd fuel st begin_col end_col begin_rank end_rank bound parent decomp_pp
    = Done (st', node_i, decomp) →
  points_ st' ≡ₚ points_ st ∧ length (points_ st') = length (points_ st).
Proof. intros R%Build_run_of. by apply Build_run_points in R. Qed.

(** The rank range of at most one machine stays one when it is split. *)
Lemma one_machine_split begin_rank end_rank :
  end_rank ≤ begin_rank + 1 →
  (begin_rank + end_rank) ÷ 2 ≤ begin_rank + 1
  ∧ end_rank ≤ (begin_rank + end_rank) ÷ 2 + 1.
Proof. intros H. Z.to_euclidean_division_equations. lia. Qed.

Lemma Build_run_local st b e br er bound parent dpp r :
  Build_run kd st b e br er bound parent dpp r →
  0 < chunk_size_ kd → 0 ≤ b ≤ e →
  er ≤ br + 1 ∨ e - b ≤ chunk_size_ kd →
  ∀ j, j < b ∨ e ≤ j → CacheRead (points_ r.1.1) j = CacheRead (points_ st) j.
Proof.
  intros R Hc. induction R as
    [st b e br er bound parent dpp st1 i st2 HE HL
    |fuel st b e br er bound parent dpp st1 i st2 d st3 c0 d0 st4 c1 d1
       HE HS _ IH0 _ IH1];
    intros Hbe Hlocal j Hj.
  - pose proof (Build_enter_spec _ _ _ _ _ _ _ _ _ HE) as (Hi & _ & _ & Hp1 & _).
    pose proof (end_index_nonneg st). assert (0 ≤ i) as Hi0 by lia.
    destruct (Build_leaf_spec _ _ _ Hi0 HL) as (node & _ & _ & Hp2 & _).
    rewrite points_Build_leave, Hp2. simpl. by rewrite Hp1.
  - pose proof (Build_enter_spec _ _ _ _ _ _ _ _ _ HE) as (Hi & _ & _ & Hp1 & _).
    pose proof (Build_enter_reads kd _ _ _ _ _ _ _ _ HE) as (_ & Hr1 & _).
    destruct (Split_enter_spec _ _ _ _ _ _ _ _ _ HS)
      as (node & sdim & Hnode & _ & Hd & _ & Hp2 & _ & _).
    rewrite Hr1 in Hnode. injection Hnode as <-.
    rewrite points_Build_leave.
    apply choose_split_local in Hd as ([Hin _] & Hout); try done; [|simpl; lia..].
    unfold inside_split, node_end in Hin, Hout. simpl in *.
    rewrite IH1, IH0, Hp2, Hout, Hp1; try done; try lia.
    + destruct Hlocal as [Hone|Hsmall]; [left|right; lia].
      by apply one_machine_split.
    + destruct Hlocal as [Hone|Hsmall]; [left|right; lia].
      by apply one_machine_split.
Qed.

(** X10. On at most one machine, or from a node of at most [chunk_size_]
    points down, a build moves no point that lies outside the range it
    was called on, and it permutes the points of that range among
    themselves. *)
Theorem Build_local_frame fuel st begin_col end_col begin_rank end_rank bound parent
    decomp_pp st' node_i decomp :
  0 < chunk_size_ kd → 0 ≤ begin_col ≤ end_col →
  end_rank ≤ begin_rank + 1 ∨ end_col - begin_col ≤ chunk_size_ kd →
  Build_ kd fuel st begin_col end_col begin_rank end_rank bound parent decomp_pp
    = Done (st', node_i, decomp) →
  (∀ j, j < begin_col ∨ end_col ≤ j →
        CacheRead (points_ st') j = CacheRead (points_ st) j)
  ∧ range_of (points_ st') begin_col (end_col - begin_col)
    ≡ₚ range_of (points_ st) begin_col (end_col - begin_col).
Proof.
  intros Hc Hbe Hlocal R%Build_run_of.
  pose proof (Build_run_points _ _ _ _ _ _ _ _ _ R) as (Hperm & Hlen).
  pose proof (Build_run_local _ _ _ _ _ _ _ _ _ R Hc Hbe Hlocal) as Hout.
  simpl in *. split; [done|].
  apply range_of_perm; try done; try lia.
  intros j Hj. apply Hout. lia.
Qed.
End build_points.

(** ** How a build lays the tree out in the node array *)

Section build_layout.
Context {Point Range Bound : Type} `{!Bounds Point Range Bound}.
Variable kd : builder Bound.
Variable fits : Z → Z → Z → Z → Z → Prop.
Implicit Types (st : state Point Bound) (node : Node Bound).

Lemma laid_out_range st i ei b e : laid_out kd fits st i ei b e → i < ei.
Proof. induction 1; lia. Qed.

(** [laid_out] only looks at the nodes it spans. *)
Lemma laid_out_stable st st' i ei b e :
  laid_out kd fits st i ei b e →
  (∀ j, i ≤ j < ei → read_node st' j = read_node st j) →
  laid_out kd fits st' i ei b e.
Proof.
  induction 1 as [i node Hn Hl Hf
                 |i node e0 e1 b0 s ec1 Hn Hl Hlf Hch0 Hch1 Hfits R0 IH0 R1 IH1];
    intros Hsame.
  - apply laid_leaf; [|done..]. rewrite Hsame by lia. done.
  - pose proof (laid_out_range _ _ _ _ _ R0). pose proof (laid_out_range _ _ _ _ _ R1).
    apply laid_split with (end0 := e0) (begin0 := b0) (split_col := s) (end_col1 := ec1);
      try done.
    + rewrite Hsame by lia. done.
    + apply IH0. intros j Hj. apply Hsame. lia.
    + apply IH1. intros j Hj. apply Hsame. lia.
Qed.

Lemma laid_out_root st i ei b e :
  laid_out kd fits st i ei b e →
  ∃ node, read_node st i = Some node ∧ node_begin node = b ∧ node_end node = e.
Proof. destruct 1; eauto. Qed.

(** The two children of a node that was split, read off the array. *)
Lemma laid_out_children st i ei b e :
  laid_out kd fits st i ei b e →
  ∀ p node c0 c1 n0 n1,
    i ≤ p < ei →
    read_node st p = Some node → took_leaf kd p = false →
    node_child0 node = Some c0 → node_child1 node = Some c1 →
    read_node st c0 = Some n0 → read_node st c1 = Some n1 →
    node_end n0 = node_begin n1
    ∧ fits (node_begin node) (node_end node)
        (node_begin n0) (node_begin n1) (node_end n1).
Proof.
  induction 1 as [i node Hn Hl Hf
                 |i node e0 e1 b0 s ec1 Hn Hl Hlf Hch0 Hch1 Hfits R0 IH0 R1 IH1];
    intros p nodep c0 c1 n0 n1 Hp Hnp Hlp Hc0 Hc1 Hn0 Hn1.
  - assert (p = i) as -> by lia. congruence.
  - pose proof (laid_out_range _ _ _ _ _ R0). pose proof (laid_out_range _ _ _ _ _ R1).
    destruct (decide (p = i)) as [->|Hne].
    + assert (nodep = node) as -> by congruence.
      assert (c0 = i + 1) as -> by congruence.
      assert (c1 = e0) as -> by congruence.
      destruct (laid_out_root _ _ _ _ _ R0) as (m0 & Hm0 & Hb0 & He0).
      destruct (laid_out_root _ _ _ _ _ R1) as (m1 & Hm1 & Hb1 & He1).
      assert (n0 = m0) as -> by congruence. assert (n1 = m1) as -> by congruence.
      rewrite He0, Hb1, Hb0, He1. done.
    + destruct (decide (p < e0)).
      * apply (IH0 p nodep c0 c1 n0 n1); try done. lia.
      * apply (IH1 p nodep c0 c1 n0 n1); try done. lia.
Qed.

(** What holds of the range of the first node and is handed down from a
    node to its children holds of every node. *)
Lemma laid_out_ranges (Q : Z → Z → Prop) st i ei b e :
  laid_out kd fits st i ei b e →
  (∀ b e b0 s e1, Q b e → fits b e b0 s e1 → Q b0 s ∧ Q s e1) →
  Q b e →
  ∀ j node, i ≤ j < ei → read_node st j = Some node →
    Q (node_begin node) (node_end node).
Proof.
  intros L Hstep. induction L as [i node Hn Hl Hf
                 |i node e0 e1 b0 s ec1 Hn Hl Hlf Hch0 Hch1 Hfits R0 IH0 R1 IH1];
    intros HQ j nodej Hj Hnj.
  - assert (j = i) as -> by lia. assert (nodej = node) as -> by congruence. done.
  - pose proof (laid_out_range _ _ _ _ _ R0). pose proof (laid_out_range _ _ _ _ _ R1).
    destruct (Hstep _ _ _ _ _ HQ Hfits) as [HQ0 HQ1].
    destruct (decide (j = i)) as [->|Hne].
    + assert (nodej = node) as -> by congruence. done.
    + destruct (decide (j < e0)).
      * apply (IH0 HQ0 j nodej); [lia|done].
      * apply (IH1 HQ1 j nodej); [lia|done].
Qed.

(** What has to hold of the ranges of a call of [Build_] for [fits] to
    hold of every node it splits: [inv] holds of the call, it makes
    [Split_] hand out ranges that fit, and it holds again of the two
    calls [Split_] makes. *)
Variable inv : Z → Z → Z → Z → Prop.
Hypothesis inv_split : ∀ fuel (points : list Point) node begin_rank end_rank split_dim d,
  inv (node_begin node) (node_end node) begin_rank end_rank →
  choose_split kd fuel points node begin_rank end_rank split_dim = Done d →
  fits (node_begin node) (node_end node)
    (sd_begin_col d) (sd_split_col d) (sd_end_col d)
  ∧ inv (sd_begin_col d) (sd_split_col d) begin_rank ((begin_rank + end_rank) ÷ 2)
  ∧ inv (sd_split_col d) (sd_end_col d) ((begin_rank + end_rank) ÷ 2) end_rank.

Lemma Build_run_laid_out st b e br er bound parent dpp r :
  Build_run kd st b e br er bound parent dpp r →
  inv b e br er →
  laid_out kd fits r.1.1 r.1.2 (end_index r.1.1) b e.
Proof.
  induction 1 as
    [st b e br er bound parent dpp st1 i st2 HE HL
    |fuel st b e br er bound parent dpp st1 i st2 d st3 c0 d0 st4 c1 d1
       HE HS R0 IH0 R1 IH1];
    intros Hinv.
  - pose proof (Build_enter_spec _ _ _ _ _ _ _ _ _ HE) as (Hi & Hleaf & _ & _ & _).
    pose proof (Build_enter_reads kd _ _ _ _ _ _ _ _ HE) as (He1 & Hr1 & Hf1).
    pose proof (end_index_nonneg st). assert (0 ≤ i) as Hi0 by lia.
    destruct (Build_leaf_spec _ _ _ Hi0 HL) as (node & Hnode & Hn2 & _ & _).
    pose proof (nodes_Build_leave st2 i br er parent dpp None None) as HnL.
    rewrite index_Build_leave.
    remember (Build_leave st2 i br er parent dpp None None) as r eqn:Er. clear Er.
    assert (nodes_ r.1.1 = nodes_ (write_node st1 i set_leaf)) as Hnr
      by (rewrite HnL, Hn2; reflexivity).
    replace (end_index r.1.1) with (i + 1).
    2:{ rewrite (end_index_same_nodes _ _ Hnr), end_index_write_node. lia. }
    assert (read_node r.1.1 i = Some (set_leaf (entered kd i b e bound))) as Hrr.
    { rewrite (read_node_same_nodes _ _ _ Hnr).
      rewrite read_write_node, decide_True by done. by rewrite Hr1. }
    pose proof (laid_leaf kd fits r.1.1 i _ Hrr (eq_sym Hleaf) eq_refl) as L.
    unfold node_end in L. simpl in L.
    by replace (b + (e - b)) with e in L by lia.
  - pose proof (Build_enter_spec _ _ _ _ _ _ _ _ _ HE) as (Hi & Hleaf & _ & _ & _).
    pose proof (Build_enter_reads kd _ _ _ _ _ _ _ _ HE) as (He1 & Hr1 & Hf1).
    pose proof (end_index_nonneg st). assert (0 ≤ i) as Hi0 by lia.
    destruct (Split_enter_spec _ _ _ _ _ _ _ _ _ HS)
      as (node & sdim & Hnode & _ & Hd & Hn2 & _ & _ & _).
    rewrite Hr1 in Hnode. injection Hnode as <-.
    assert (node_end (entered kd i b e bound) = e) as Hend
      by (unfold node_end; simpl; lia).
    destruct (inv_split _ _ (entered kd i b e bound) _ _ _ _
                ltac:(by rewrite Hend) Hd) as (Hfits & Hinv0 & Hinv1).
    rewrite Hend in Hfits. simpl in Hfits.
    pose proof (Build_run_frame kd _ _ _ _ _ _ _ _ _ R0) as (Hc0 & He3 & Hf3).
    pose proof (Build_run_frame kd _ _ _ _ _ _ _ _ _ R1) as (Hc1 & He4 & Hf4).
    specialize (IH0 Hinv0). specialize (IH1 Hinv1).
    simpl in Hc0, He3, Hf3, Hc1, He4, Hf4, IH0, IH1.
    rewrite end_index_write_node in *.
    rewrite (end_index_same_nodes _ _ Hn2) in *.
    pose proof (nodes_Build_leave (write_node st4 i (λ node, set_child node true c1))
                  i br er parent dpp d0 d1) as HnL.
    rewrite index_Build_leave.
    remember (Build_leave (write_node st4 i (λ node, set_child node true c1))
                i br er parent dpp d0 d1) as r eqn:Er. clear Er.
    assert (end_index r.1.1 = end_index st4) as HeL.
    { rewrite (end_index_same_nodes _ _ HnL). apply end_index_write_node. }
    assert (∀ j, j ≠ i → read_node r.1.1 j = read_node st4 j) as Hrd4.
    { intros j Hj. rewrite (read_node_same_nodes _ _ _ HnL).
      rewrite read_write_node, decide_False by lia. done. }
    assert (∀ j, c0 ≤ j < c1 → read_node r.1.1 j = read_node st3 j) as Hrd3.
    { intros j Hj. rewrite Hrd4 by lia. rewrite Hf4 by lia.
      rewrite read_write_node, decide_False by lia. done. }
    assert (read_node st3 i = Some (entered kd i b e bound)) as Hr3.
    { rewrite Hf3 by lia. rewrite (read_node_same_nodes _ _ _ Hn2). done. }
    assert (read_node st4 i
            = Some (set_child (entered kd i b e bound) false c0)) as Hr4.
    { rewrite Hf4 by lia. rewrite read_write_node, decide_True by done.
      by rewrite Hr3. }
    assert (read_node r.1.1 i
            = Some (set_child (set_child (entered kd i b e bound) false c0) true c1))
      as Hrr.
    { rewrite (read_node_same_nodes _ _ _ HnL).
      rewrite read_write_node, decide_True by done. by rewrite Hr4. }
    rewrite HeL.
    assert (laid_out kd fits r.1.1 i (end_index st4)
              (node_begin (set_child (set_child (entered kd i b e bound) false c0) true c1))
              (node_end (set_child (set_child (entered kd i b e bound) false c0) true c1)))
      as L.
    { apply laid_split with (end0 := c1) (begin0 := sd_begin_col d)
        (split_col := sd_split_col d) (end_col1 := sd_end_col d).
      - done.
      - done.
      - done.
      - simpl. f_equal. lia.
      - done.
      - unfold node_end. simpl. by replace (b + (e - b)) with e by lia.
      - replace (i + 1) with c0 by lia.
        apply (laid_out_stable st3); [by rewrite Hc1|done].
      - apply (laid_out_stable st4); [done|]. intros j Hj. apply Hrd4. lia. }
    unfold node_end in L. simpl in L.
    by replace (b + (e - b)) with e in L by lia.
Qed.
End build_layout.

Section build_layouts.
Context {Point Range Bound : Type} `{!Bounds Point Range Bound}.
Variable kd : builder Bound.
Implicit Types (st : state Point Bound) (node : Node Bound).

(** X11. A build appends the nodes of its tree to the node array in
    preorder and leaves the nodes that were there alone: the node it
    returns is the first one it appended; a node that went through
    [Split_] has its first child right after it and its second child
    right after the last node below the first, and its leaf mark is the
    one the node cache gave it; a node that took the leaf branch is
    marked as a leaf; and the first child of a node ends where the
    second begins. *)
Theorem Build_layout fuel st begin_col end_col begin_rank end_rank bound parent
    decomp_pp st' node_i decomp :
  Build_ kd fuel st begin_col end_col begin_rank end_rank bound parent decomp_pp
    = Done (st', node_i, decomp) →
  node_i = end_index st
  ∧ laid_out kd any_split st' node_i (end_index st') begin_col end_col
  ∧ ∀ j, j < end_index st → read_node st' j = read_node st j.
Proof.
  intros R%Build_run_of.
  pose proof (Build_run_frame kd _ _ _ _ _ _ _ _ _ R) as (Hi & _ & Hf).
  split; [done|]. split; [|done].
  by apply (Build_run_laid_out kd any_split (λ _ _ _ _, True)) in R.
Qed.

(** On at most one machine, or from a node of at most [chunk_size_]
    points down: the children of every node lie inside it, and a node of
    more than [chunk_size_] points is split at a block boundary, with
    points on both sides. *)
Lemma Build_run_local_layout st b e br er bound parent dpp r :
  0 < chunk_size_ kd → 0 ≤ b ≤ e →
  er ≤ br + 1 ∨ e - b ≤ chunk_size_ kd →
  Build_run kd st b e br er bound parent dpp r →
  laid_out kd (block_split (chunk_size_ kd)) r.1.1 r.1.2 (end_index r.1.1) b e.
Proof.
  intros Hc Hbe Hlocal R.
  apply (Build_run_laid_out kd (block_split (chunk_size_ kd))
           (λ b e br er, 0 ≤ b ≤ e ∧ (er ≤ br + 1 ∨ e - b ≤ chunk_size_ kd))) in R;
    [done| |done].
  intros fuel' points node br' er' sdim d [Hbe' Hlocal'] Hd.
  unfold node_end in Hbe', Hlocal'.
  apply choose_split_local in Hd as (Hfits & _); try done; try lia.
  split; [exact Hfits|]. destruct Hfits as [Hin _].
  unfold inside_split, node_end in Hin.
  destruct Hlocal' as [Hone|Hsmall].
  - destruct (one_machine_split _ _ Hone). split; (split; [lia|by left]).
  - split; (split; [lia|right; lia]).
Qed.

(** X12. On at most one machine, or from a node of at most
    [chunk_size_] points down: for every node of the build that went
    through [Split_], the ranges of its two children lie inside its
    range, the first before the second and ending where the second
    begins; when the node has more than [chunk_size_] points, the second
    child begins on a block boundary and neither child is empty. *)
Theorem Build_local_layout fuel st begin_col end_col begin_rank end_rank bound parent
    decomp_pp st' node_i decomp :
  0 < chunk_size_ kd → 0 ≤ begin_col ≤ end_col →
  end_rank ≤ begin_rank + 1 ∨ end_col - begin_col ≤ chunk_size_ kd →
  Build_ kd fuel st begin_col end_col begin_rank end_rank bound parent decomp_pp
    = Done (st', node_i, decomp) →
  ∀ p node c0 c1 n0 n1,
    node_i ≤ p →
    read_node st' p = Some node → took_leaf kd p = false →
    node_child0 node = Some c0 → node_child1 node = Some c1 →
    read_node st' c0 = Some n0 → read_node st' c1 = Some n1 →
    node_begin node ≤ node_begin n0
    ∧ node_begin n0 ≤ node_end n0
    ∧ node_end n0 = node_begin n1
    ∧ node_begin n1 ≤ node_end n1
    ∧ node_end n1 ≤ node_end node
    ∧ (chunk_size_ kd < node_count node →
       (chunk_size_ kd | node_begin n1)
       ∧ node_begin n0 < node_end n0
       ∧ node_begin n1 < node_end n1).
Proof.
  intros Hc Hbe Hlocal R%Build_run_of p node c0 c1 n0 n1 Hp Hn Hl Hc0 Hc1 Hn0 Hn1.
  apply Build_run_local_layout in R; try done. simpl in R.
  pose proof (read_node_lt _ _ _ Hn) as Hlt.
  destruct (laid_out_children kd _ _ _ _ _ _ R p node c0 c1 n0 n1)
    as (Hadj & [Hin Hbig]); try done; [lia|].
  unfold inside_split, node_end in *. repeat (split; [lia|]).
  intros Hcount. destruct Hbig as (Hdiv & H1 & H2); [lia|].
  split; [done|]. lia.
Qed.

(** X13. From a node of at most [chunk_size_] points down, the two
    children of every node of the build that went through [Split_] tile
    the range of the node: the first begins where the node begins, the
    second ends where the node ends, and the first ends where the second
    begins. *)
Theorem Build_small_tiles fuel st begin_col end_col begin_rank end_rank bound parent
    decomp_pp st' node_i decomp :
  begin_col ≤ end_col → end_col - begin_col ≤ chunk_size_ kd →
  Build_ kd fuel st begin_col end_col begin_rank end_rank bound parent decomp_pp
    = Done (st', node_i, decomp) →
  ∀ p node c0 c1 n0 n1,
    node_i ≤ p →
    read_node st' p = Some node → took_leaf kd p = false →
    node_child0 node = Some c0 → node_child1 node = Some c1 →
    read_node st' c0 = Some n0 → read_node st' c1 = Some n1 →
    node_begin n0 = node_begin node
    ∧ node_end n0 = node_begin n1
    ∧ node_end n1 = node_end node
    ∧ node_begin node ≤ node_begin n1 ≤ node_end node.
Proof.
  intros Hbe Hsmall R%Build_run_of p node c0 c1 n0 n1 Hp Hn Hl Hc0 Hc1 Hn0 Hn1.
  apply (Build_run_laid_out kd tiled_split
           (λ b e _ _, b ≤ e ∧ e - b ≤ chunk_size_ kd)) in R; [| |done].
  - simpl in R. pose proof (read_node_lt _ _ _ Hn) as Hlt.
    destruct (laid_out_children kd _ _ _ _ _ _ R p node c0 c1 n0 n1)
      as (Hadj & Ht); try done; [lia|].
    unfold tiled_split in Ht. lia.
  - intros fuel' points nd br er sdim d [Hbe' Hsmall'] Hd.
    unfold node_end in *.
    apply choose_split_small in Hd as (Hb & He & Hs & _); [|lia].
    unfold tiled_split, node_end in *. rewrite Hb, He. lia.
Qed.

Lemma one_block_within c b e b' e' :
  0 < c → b ≤ b' → b' < e' → e' ≤ e → b / c = (e - 1) / c → b' / c = (e' - 1) / c.
Proof.
  intros Hc H1 H2 H3 Hsame.
  pose proof (Z.div_le_mono b b' c Hc H1).
  pose proof (Z.div_le_mono b' (e' - 1) c Hc ltac:(lia)).
  pose proof (Z.div_le_mono (e' - 1) (e - 1) c Hc ltac:(lia)).
  lia.
Qed.

Lemma one_block_below c k b0 :
  0 < c → k * c - b0 ≤ c → b0 < k * c → b0 / c = (k * c - 1) / c.
Proof.
  intros Hc H1 H2.
  rewrite <- (Z.div_unique_pos b0 c (k - 1) (b0 - (k - 1) * c)) by lia.
  rewrite <- (Z.div_unique_pos (k * c - 1) c (k - 1) (c - 1)) by lia. done.
Qed.

Lemma one_block_above c k e1 :
  0 < c → e1 - k * c ≤ c → k * c < e1 → k * c / c = (e1 - 1) / c.
Proof.
  intros Hc H1 H2.
  rewrite <- (Z.div_unique_pos (k * c) c k 0) by lia.
  rewrite <- (Z.div_unique_pos (e1 - 1) c k (e1 - 1 - k * c)) by lia. done.
Qed.

(** X14. On at most one machine, or from a node of at most
    [chunk_size_] points down, when the range the build is called on has
    more than [chunk_size_] points or lies in one block: every node of
    the build with at most [chunk_size_] points lies in one block of the
    point array. *)
Theorem Build_local_blocks fuel st begin_col end_col begin_rank end_rank bound parent
    decomp_pp st' node_i decomp :
  0 < chunk_size_ kd → 0 ≤ begin_col ≤ end_col →
  end_rank ≤ begin_rank + 1 ∨ end_col - begin_col ≤ chunk_size_ kd →
  (end_col - begin_col ≤ chunk_size_ kd → in_one_block kd begin_col end_col) →
  Build_ kd fuel st begin_col end_col begin_rank end_rank bound parent decomp_pp
    = Done (st', node_i, decomp) →
  ∀ j node,
    node_i ≤ j → read_node st' j = Some node →
    node_count node ≤ chunk_size_ kd →
    in_one_block kd (node_begin node) (node_end node).
Proof.
  intros Hc Hbe Hlocal Hroot R%Build_run_of j node Hj Hn Hcount.
  apply Build_run_local_layout in R; try done. simpl in R.
  pose proof (read_node_lt _ _ _ Hn) as Hlt.
  pose proof (laid_out_ranges kd _
                (λ b e, 0 ≤ b ≤ e ∧ (e - b ≤ chunk_size_ kd → in_one_block kd b e))
                _ _ _ _ _ R) as HQ.
  destruct (HQ) with (j := j) (node := node) as [_ Hblock]; try done; try lia.
  2:{ apply Hblock. unfold node_end. lia. }
  clear -Hc. intros b e b0 s e1 [Hbe HQ] [Hin Hbig].
  unfold inside_split, in_one_block, Blockid in *.
  set (c := chunk_size_ kd) in *.
  destruct (Z.le_gt_cases (e - b) c) as [Hsmall|Hlarge].
  - specialize (HQ Hsmall).
    split; (split; [lia|]); intros _ Hne;
      apply (one_block_within c b e); try lia; apply HQ; lia.
  - destruct Hbig as ([k ->] & H1 & H2); [lia|].
    split; (split; [lia|]); intros Hsm Hne.
    + apply one_block_below; lia.
    + apply one_block_above; lia.
Qed.
End build_layouts.

(** ** More on the calls of a build *)

Section build_calls.
Context {Point Range Bound : Type} `{!Bounds Point Range Bound}.
Variable kd : builder Bound.
Implicit Types (st : state Point Bound) (node : Node Bound) (evs : list event).

Lemma served_transfer node br er pb :
  br ≤ er → Forall (served br er) (transfer kd node br pb).
Proof.
  intros Hr. unfold transfer. destruct (_ && _); [|done].
  apply Forall_singleton. simpl. lia.
Qed.

Lemma served_points br er i (l : list Z) :
  Forall (served br er) (AccumulatePoint i <$> l).
Proof. apply Forall_fmap, Forall_true. done. Qed.

Lemma served_stat br er parent i : Forall (served br er) (stat_events parent i).
Proof. destruct parent; repeat constructor. Qed.

Lemma served_mono br er br' er' e :
  br ≤ br' → (∀ rank, br' ≤ rank → rank < er' ∨ rank = br' → rank < er ∨ rank = br) →
  served br' er' e → served br er e.
Proof. intros Hb He. destruct e; simpl; try done; intros [? ?]; split; auto; lia. Qed.

Lemma Build_run_served st b e br er bound parent dpp r :
  Build_run kd st b e br er bound parent dpp r →
  0 ≤ br ≤ er →
  ∃ evs, trace r.1.1 = trace st ++ evs ∧ Forall (served br er) evs.
Proof.
  induction 1 as
    [st b e br er bound parent dpp st1 i st2 HE HL
    |fuel st b e br er bound parent dpp st1 i st2 d st3 c0 d0 st4 c1 d1
       HE HS _ IH0 _ IH1];
    intros Hr.
  - pose proof (Build_enter_spec _ _ _ _ _ _ _ _ _ HE) as (Hi & _ & _ & _ & Ht1).
    pose proof (end_index_nonneg st). assert (0 ≤ i) as Hi0 by lia.
    destruct (Build_leaf_spec _ _ _ Hi0 HL) as (node & _ & _ & _ & Ht2).
    eexists. split.
    { rewrite trace_Build_leave, Ht2, Ht1. rewrite <- !app_assoc. reflexivity. }
    apply Forall_app. split; [apply Forall_singleton; simpl; lia|].
    apply Forall_app. split; [apply served_points|apply served_stat].
  - pose proof (Build_enter_spec _ _ _ _ _ _ _ _ _ HE) as (Hi & _ & _ & _ & Ht1).
    destruct (Split_enter_spec _ _ _ _ _ _ _ _ _ HS)
      as (node & sdim & _ & _ & _ & _ & _ & _ & Ht2).
    assert (br ≤ (br + er) ÷ 2 ≤ er ∧ (br < er → (br + er) ÷ 2 < er)) as Hs
      by (Z.to_euclidean_division_equations; lia).
    destruct IH0 as (evs0 & Ht3 & F0); [lia|].
    destruct IH1 as (evs1 & Ht4 & F1); [lia|].
    simpl in Ht3, Ht4.
    eexists. split.
    { rewrite trace_Build_leave. simpl. rewrite Ht4. simpl.
      rewrite Ht3, Ht2, Ht1. rewrite <- !app_assoc. reflexivity. }
    apply Forall_app. split; [apply Forall_singleton; simpl; lia|].
    apply Forall_app. split; [apply served_transfer; lia|].
    apply Forall_app. split.
    { eapply Forall_impl; [exact F0|]. intros ev. apply served_mono; lia. }
    apply Forall_app. split; [|apply served_stat].
    eapply Forall_impl; [exact F1|]. intros ev. apply served_mono; lia.
Qed.

(** X15. A build for the rank range [begin_rank, end_rank) allocates
    nodes and gives blocks away to machines of that range only (to
    [begin_rank] when the range is empty). *)
Theorem Build_ranks_served fuel st begin_col end_col begin_rank end_rank bound parent
    decomp_pp st' node_i decomp :
  0 ≤ begin_rank ≤ end_rank →
  Build_ kd fuel st begin_col end_col begin_rank end_rank bound parent decomp_pp
    = Done (st', node_i, decomp) →
  ∃ evs, trace st' = trace st ++ evs ∧ Forall (served begin_rank end_rank) evs.
Proof. intros Hr R%Build_run_of. by apply Build_run_served in R. Qed.

(** *** The points a leaf accumulates *)

Lemma accumulated_into_app j evs1 evs2 :
  accumulated_into j (evs1 ++ evs2) = accumulated_into j evs1 ++ accumulated_into j evs2.
Proof. apply omap_app. Qed.

Lemma accumulated_into_points j i (l : list Z) :
  accumulated_into j (AccumulatePoint i <$> l) = if decide (i = j) then l else [].
Proof.
  unfold accumulated_into. destruct (decide (i = j)) as [->|Hne].
  - induction l as [|x l IH]; [done|]. csimpl.
    rewrite decide_True by done. by rewrite IH.
  - induction l as [|x l IH]; [done|]. csimpl.
    rewrite decide_False by done. by rewrite IH.
Qed.

Lemma accumulated_into_stat j parent i : accumulated_into j (stat_events parent i) = [].
Proof. by destruct parent. Qed.

Lemma accumulated_into_transfer j node br pb :
  accumulated_into j (transfer kd node br pb) = [].
Proof. unfold transfer. by destruct (_ && _). Qed.

Lemma accumulated_into_outside j lo hi evs :
  Forall (event_within lo hi) evs → j < lo ∨ hi ≤ j → accumulated_into j evs = [].
Proof.
  intros F Hj. induction F as [|ev evs Hev _ IH]; [done|].
  unfold accumulated_into in *. csimpl. rewrite IH.
  destruct ev; try done. simpl in Hev. rewrite decide_False by lia. done.
Qed.

Lemma node_events_accumulated_into st parent i ei evs :
  node_events kd st parent i ei evs →
  ∀ j node, i ≤ j < ei → read_node st j = Some node →
    accumulated_into j evs
    = if took_leaf kd j then seqZ (node_begin node) (node_count node) else [].
Proof.
  induction 1 as [parent i br node Hn Hl
                 |parent i br node e0 e1 evs0 evs1 Hn Hl Hch0 Hch1 R0 IH0 R1 IH1];
    intros j nodej Hj Hnj.
  - assert (j = i) as -> by lia. rewrite Hl.
    assert (nodej = node) as -> by congruence.
    change (Alloc br i :: ?l) with ([Alloc br i] ++ l).
    rewrite !accumulated_into_app, accumulated_into_points, accumulated_into_stat.
    rewrite decide_True by done. simpl. by rewrite app_nil_r.
  - pose proof (node_events_range _ _ _ _ _ _ R0).
    pose proof (node_events_range _ _ _ _ _ _ R1).
    pose proof (node_events_within _ _ _ _ _ _ R0) as W0.
    pose proof (node_events_within _ _ _ _ _ _ R1) as W1.
    change (Alloc br i :: ?l) with ([Alloc br i] ++ l).
    rewrite !accumulated_into_app, accumulated_into_transfer, accumulated_into_stat.
    simpl. rewrite app_nil_r.
    destruct (decide (j = i)) as [->|Hne].
    + rewrite Hl.
      rewrite (accumulated_into_outside _ _ _ _ W0) by lia.
      rewrite (accumulated_into_outside _ _ _ _ W1) by lia. done.
    + destruct (decide (j < e0)).
      * rewrite (IH0 j nodej) by first [lia|done].
        rewrite (accumulated_into_outside _ _ _ _ W1) by lia. by rewrite app_nil_r.
      * rewrite (accumulated_into_outside _ _ _ _ W0) by lia.
        rewrite (IH1 j nodej) by first [lia|done]. done.
Qed.

(** X16. In the calls of a build, a node that took the leaf branch
    accumulates every point index of its range into its statistic, once
    and in ascending order; a node that went through [Split_]
    accumulates no point itself. *)
Theorem Build_leaf_accumulates fuel st begin_col end_col begin_rank end_rank bound parent
    decomp_pp st' node_i decomp :
  Build_ kd fuel st begin_col end_col begin_rank end_rank bound parent decomp_pp
    = Done (st', node_i, decomp) →
  ∃ evs,
    trace st' = trace st ++ evs
    ∧ ∀ j node, node_i ≤ j < end_index st' → read_node st' j = Some node →
        accumulated_into j evs
        = if took_leaf kd j then seqZ (node_begin node) (node_count node) else [].
Proof.
  intros R%Build_run_of. apply Build_run_events in R as (evs & Ht & G). simpl in *.
  exists evs. split; [done|]. exact (node_events_accumulated_into _ _ _ _ _ G).
Qed.

(** *** The points a small build accumulates *)

Lemma accumulated_points_app evs1 evs2 :
  accumulated_points (evs1 ++ evs2) = accumulated_points evs1 ++ accumulated_points evs2.
Proof. apply omap_app. Qed.

Lemma accumulated_points_points i (l : list Z) :
  accumulated_points (AccumulatePoint i <$> l) = l.
Proof.
  unfold accumulated_points. induction l as [|x l IH]; [done|]. csimpl. by rewrite IH.
Qed.

Lemma accumulated_points_stat parent i : accumulated_points (stat_events parent i) = [].
Proof. by destruct parent. Qed.

Lemma accumulated_points_transfer node br pb :
  accumulated_points (transfer kd node br pb) = [].
Proof. unfold transfer. by destruct (_ && _). Qed.

Lemma Build_run_small_accumulates st b e br er bound parent dpp r :
  Build_run kd st b e br er bound parent dpp r →
  b ≤ e → e - b ≤ chunk_size_ kd →
  ∃ evs, trace r.1.1 = trace st ++ evs ∧ accumulated_points evs = seqZ b (e - b).
Proof.
  induction 1 as
    [st b e br er bound parent dpp st1 i st2 HE HL
    |fuel st b e br er bound parent dpp st1 i st2 d st3 c0 d0 st4 c1 d1
       HE HS _ IH0 _ IH1];
    intros Hbe Hsmall.
  - pose proof (Build_enter_spec _ _ _ _ _ _ _ _ _ HE) as (Hi & _ & _ & _ & Ht1).
    pose proof (Build_enter_reads kd _ _ _ _ _ _ _ _ HE) as (_ & Hr1 & _).
    pose proof (end_index_nonneg st). assert (0 ≤ i) as Hi0 by lia.
    destruct (Build_leaf_spec _ _ _ Hi0 HL) as (node & Hnode & _ & _ & Ht2).
    rewrite Hr1 in Hnode. injection Hnode as <-. simpl in Ht2.
    eexists. split.
    { rewrite trace_Build_leave, Ht2, Ht1. rewrite <- !app_assoc. reflexivity. }
    rewrite !accumulated_points_app, accumulated_points_points, accumulated_points_stat.
    simpl. by rewrite app_nil_r.
  - pose proof (Build_enter_spec _ _ _ _ _ _ _ _ _ HE) as (Hi & _ & _ & _ & Ht1).
    pose proof (Build_enter_reads kd _ _ _ _ _ _ _ _ HE) as (_ & Hr1 & _).
    destruct (Split_enter_spec _ _ _ _ _ _ _ _ _ HS)
      as (node & sdim & Hnode & _ & Hd & _ & _ & _ & Ht2).
    rewrite Hr1 in Hnode. injection Hnode as <-.
    apply choose_split_small in Hd as (Hb & He & Hs & _); [|simpl; lia].
    unfold node_end in He, Hs. simpl in Hb, He, Hs.
    replace (b + (e - b)) with e in He, Hs by lia.
    rewrite Hb, He in *.
    destruct IH0 as (evs0 & Ht3 & A0); [lia..|].
    destruct IH1 as (evs1 & Ht4 & A1); [lia..|].
    simpl in Ht3, Ht4.
    eexists. split.
    { rewrite trace_Build_leave. simpl. rewrite Ht4. simpl.
      rewrite Ht3, Ht2, Ht1. rewrite <- !app_assoc. reflexivity. }
    rewrite !accumulated_points_app, accumulated_points_transfer,
      accumulated_points_stat, A0, A1.
    simpl. rewrite app_nil_r.
    replace (seqZ (sd_split_col d) (e - sd_split_col d))
      with (seqZ (b + (sd_split_col d - b)) (e - sd_split_col d)) by (f_equal; lia).
    rewrite <- seqZ_app by lia. f_equal. lia.
Qed.

(** X17. From a node of at most [chunk_size_] points down, the leaves
    of a build accumulate every point index of the range the build was
    called on, each once, in ascending order. *)
Theorem Build_small_accumulates fuel st begin_col end_col begin_rank end_rank bound parent
    decomp_pp st' node_i decomp :
  begin_col ≤ end_col → end_col - begin_col ≤ chunk_size_ kd →
  Build_ kd fuel st begin_col end_col begin_rank end_rank bound parent decomp_pp
    = Done (st', node_i, decomp) →
  ∃ evs,
    trace st' = trace st ++ evs
    ∧ accumulated_points evs = seqZ begin_col (end_col - begin_col).
Proof. intros Hbe Hsmall R%Build_run_of. by apply Build_run_small_accumulates in R. Qed.
(** *** No point is accumulated twice *)

Lemma seqZ_inside b e b0 e1 :
  b ≤ b0 → b0 ≤ e1 → e1 ≤ e →
  seqZ b (e - b) = seqZ b (b0 - b) ++ seqZ b0 (e1 - b0) ++ seqZ e1 (e - e1).
Proof.
  intros H0 H1 H2.
  replace (e - b) with ((b0 - b) + ((e1 - b0) + (e - e1))) by lia.
  rewrite seqZ_app by lia. rewrite seqZ_app by lia.
  replace (b + (b0 - b)) with b0 by lia.
  by replace (b0 + (e1 - b0)) with e1 by lia.
Qed.

Lemma Build_run_local_accumulates st b e br er bound parent dpp r :
  Build_run kd st b e br er bound parent dpp r →
  0 < chunk_size_ kd → 0 ≤ b ≤ e →
  er ≤ br + 1 ∨ e - b ≤ chunk_size_ kd →
  ∃ evs, trace r.1.1 = trace st ++ evs
       ∧ accumulated_points evs `sublist_of` seqZ b (e - b).
Proof.
  intros R Hc. induction R as
    [st b e br er bound parent dpp st1 i st2 HE HL
    |fuel st b e br er bound parent dpp st1 i st2 d st3 c0 d0 st4 c1 d1
       HE HS _ IH0 _ IH1];
    intros Hbe Hlocal.
  - pose proof (Build_enter_spec _ _ _ _ _ _ _ _ _ HE) as (Hi & _ & _ & _ & Ht1).
    pose proof (Build_enter_reads kd _ _ _ _ _ _ _ _ HE) as (_ & Hr1 & _).
    pose proof (end_index_nonneg st). assert (0 ≤ i) as Hi0 by lia.
    destruct (Build_leaf_spec _ _ _ Hi0 HL) as (node & Hnode & _ & _ & Ht2).
    rewrite Hr1 in Hnode. injection Hnode as <-. simpl in Ht2.
    eexists. split.
    { rewrite trace_Build_leave, Ht2, Ht1. rewrite <- !app_assoc. reflexivity. }
    rewrite !accumulated_points_app, accumulated_points_points, accumulated_points_stat.
    simpl. by rewrite app_nil_r.
  - pose proof (Build_enter_spec _ _ _ _ _ _ _ _ _ HE) as (Hi & _ & _ & _ & Ht1).
    pose proof (Build_enter_reads kd _ _ _ _ _ _ _ _ HE) as (_ & Hr1 & _).
    destruct (Split_enter_spec _ _ _ _ _ _ _ _ _ HS)
      as (node & sdim & Hnode & _ & Hd & _ & _ & _ & Ht2).
    rewrite Hr1 in Hnode. injection Hnode as <-.
    apply choose_split_local in Hd as ([Hin _] & _); try done; [|simpl; lia..].
    unfold inside_split, node_end in Hin. simpl in Hin.
    destruct IH0 as (evs0 & Ht3 & A0); [lia| |].
    { destruct Hlocal as [Hone|Hsmall]; [left|right; lia].
      by apply one_machine_split. }
    destruct IH1 as (evs1 & Ht4 & A1); [lia| |].
    { destruct Hlocal as [Hone|Hsmall]; [left|right; lia].
      by apply one_machine_split. }
    simpl in Ht3, Ht4.
    eexists. split.
    { rewrite trace_Build_leave. simpl. rewrite Ht4. simpl.
      rewrite Ht3, Ht2, Ht1. rewrite <- !app_assoc. reflexivity. }
    rewrite !accumulated_points_app, accumulated_points_transfer,
      accumulated_points_stat.
    simpl. rewrite app_nil_r.
    rewrite (seqZ_inside b e (sd_begin_col d) (sd_end_col d)) by lia.
    apply sublist_inserts_l, sublist_inserts_r.
    rewrite (seqZ_inside (sd_begin_col d) (sd_end_col d) (sd_split_col d) (sd_end_col d))
      by lia.
    rewrite Z.sub_diag, app_nil_r. by apply sublist_app.
Qed.

(** X18. On at most one machine, or from a node of at most
    [chunk_size_] points down, the point indices the leaves of a build
    accumulate, in the order of the calls, are a subsequence of the
    indices of the range the build was called on: no index outside the
    range is accumulated, none is accumulated twice, and they come in
    ascending order. *)
Theorem Build_local_accumulates_once fuel st begin_col end_col begin_rank end_rank bound
    parent decomp_pp st' node_i decomp :
  0 < chunk_size_ kd → 0 ≤ begin_col ≤ end_col →
  end_rank ≤ begin_rank + 1 ∨ end_col - begin_col ≤ chunk_size_ kd →
  Build_ kd fuel st begin_col end_col begin_rank end_rank bound parent decomp_pp
    = Done (st', node_i, decomp) →
  ∃ evs,
    trace st' = trace st ++ evs
    ∧ accumulated_points evs `sublist_of` seqZ begin_col (end_col - begin_col).
Proof.
  intros Hc Hbe Hlocal R%Build_run_of.
  by apply Build_run_local_accumulates in R.
Qed.

(** *** No block is given away twice *)

(** X19. With blocks of a power of two elements, on at most one
    machine, or from a node of at most [chunk_size_] points down, in a
    build where no empty node went through [Split_]: no block of the
    point array is given away twice. *)
Theorem Build_local_ownership_once k fuel st begin_col end_col begin_rank end_rank bound
    parent decomp_pp st' node_i decomp :
  0 ≤ k → chunk_size_ kd = 2 ^ k → 0 ≤ begin_col ≤ end_col →
  end_rank ≤ begin_rank + 1 ∨ end_col - begin_col ≤ chunk_size_ kd →
  Build_ kd fuel st begin_col end_col begin_rank end_rank bound parent decomp_pp
    = Done (st', node_i, decomp) →
  (∀ j node, node_i ≤ j → read_node st' j = Some node → took_leaf kd j = false →
     node_begin node < node_end node) →
  ∃ evs, trace st' = trace st ++ evs ∧ NoDup (transferred evs).
Proof.
  intros Hk Hchunk Hbe Hlocal R%Build_run_of Hfull.
  assert (0 < chunk_size_ kd) as Hc by (rewrite Hchunk; apply Z.pow_pos_nonneg; lia).
  pose proof (Build_run_local_layout kd _ _ _ _ _ _ _ _ _ Hc Hbe Hlocal R) as L.
  apply Build_run_events in R as (evs & Ht & G). simpl in *.
  exists evs. split; [done|].
  assert (nested kd st' node_i) as Hnest.
  { intros p node c0 c1 n0 n1 Hp Hn Hl Hc0 Hc1 Hn0 Hn1.
    pose proof (read_node_lt _ _ _ Hn) as Hlt.
    destruct (laid_out_children kd _ _ _ _ _ _ L p node c0 c1 n0 n1)
      as (Hadj & [Hin _]); try done; [lia|].
    specialize (Hfull p node Hp Hn Hl).
    unfold inside_split in Hin. lia. }
  destruct (node_events_root _ _ _ _ _ _ G) as [node Hnode].
  destruct (node_events_transfers_apart _ _ _ _ _ _ G Hnest node Hnode)
    as (B & -> & Ha & Hd & _).
  rewrite Forall_forall in Ha.
  apply NoDup_fmap_2_strong; [|done].
  intros b b' Hb Hb'. apply (Blockid_inj kd k); auto.
Qed.
End build_calls.

(** ** The leaf branch as a whole *)

Section leaf_branch.
Context {Point Range Bound : Type} `{!Bounds Point Range Bound}.
Variable kd : builder Bound.
Implicit Types (st : state Point Bound) (node : Node Bound).

Lemma accumulate_points_total st node_i node :
  0 ≤ node_begin node → node_end node ≤ Z.of_nat (length (points_ st)) →
  ∃ st', accumulate_points st node_i node = Done st'.
Proof.
  unfold accumulate_points, node_end. intros Hb He.
  assert (Forall (λ i, 0 ≤ i < Z.of_nat (length (points_ st)))
            (seqZ (node_begin node) (node_count node))) as Hin.
  { apply Forall_forall. intros i Hi%elem_of_seqZ. lia. }
  revert Hin. generalize (seqZ (node_begin node) (node_count node)) as l.
  intros l Hin.
  assert (∃ st', foldl (λ acc i, st ← acc; _ ← of_option (CacheRead (points_ st) i);
                                 mret (emit st (AccumulatePoint node_i i)))
                   (Done st) l = Done st'
                 ∧ points_ st' = points_ st) as (st' & Hst' & _); [|by exists st'].
  induction l as [|i l IH] using rev_ind.
  - by eexists.
  - apply Forall_app in Hin as [Hl Hi]. apply Forall_inv in Hi.
    destruct (IH Hl) as (st1 & Hst1 & Hp). rewrite foldl_app, Hst1. simpl.
    destruct (CacheRead_in_range (points_ st1) i) as [v ->]; [rewrite Hp; apply Hi|].
    simpl. by eexists.
Qed.

(** X20. When the node the cache hands out reports at most
    [leaf_size_] points, one call of [Build_] on a range that lies inside
    the point array and in one block (what [DEBUG_SAME_INT] checks)
    returns, also when the range holds more than [leaf_size_] points: it
    has appended one node, a leaf over the whole range with the bound it
    was given, which passes the check of a DEBUG build; it has moved no
    point, and accumulated every point index of the range into the
    statistic of that node, between its allocation and the calls that
    fold it into its parent and finalize it. *)
Theorem Build_fresh_leaf fuel st begin_col end_col begin_rank end_rank bound parent
    decomp_pp :
  node_count (fresh_node kd (end_index st)) ≤ leaf_size_ kd →
  0 ≤ begin_col → end_col ≤ Z.of_nat (length (points_ st)) →
  0 < chunk_size_ kd → leaf_same_block kd begin_col end_col →
  ∃ st' decomp leaf,
    Build_ kd (S fuel) st begin_col end_col begin_rank end_rank bound parent decomp_pp
    = Done (st', end_index st, decomp)
    ∧ leaf = set_leaf (entered kd (end_index st) begin_col end_col bound)
    ∧ nodes_ st' = nodes_ st ++ [leaf]
    ∧ leaf_same_block kd (node_begin leaf) (node_end leaf)
    ∧ points_ st' = points_ st
    ∧ trace st'
      = trace st
        ++ Alloc begin_rank (end_index st)
           :: (AccumulatePoint (end_index st) <$> seqZ begin_col (end_col - begin_col))
           ++ stat_events parent (end_index st).
Proof.
  intros Hfresh Hb He Hc Hblock.
  destruct (Build_enter_leaf kd st begin_col end_col begin_rank bound) as [st1 HE].
  destruct (Z.leb_spec (node_count (fresh_node kd (end_index st))) (leaf_size_ kd))
    as [_|]; [|lia].
  pose proof (Build_enter_spec _ _ _ _ _ _ _ _ _ HE) as (_ & _ & Hn1 & Hp1 & Ht1).
  pose proof (Build_enter_reads kd _ _ _ _ _ _ _ _ HE) as (_ & Hr1 & _).
  pose proof (end_index_nonneg st) as Hi0.
  assert (∃ st2, Build_leaf st1 (end_index st) = Done st2) as [st2 HL].
  { unfold Build_leaf. rewrite read_write_node, decide_True by done.
    rewrite Hr1. simpl. apply accumulate_points_total; simpl.
    - done.
    - unfold node_end. simpl. rewrite Hp1. lia. }
  destruct (Build_leaf_spec _ _ _ Hi0 HL) as (node & Hnode & Hn2 & Hp2 & Ht2).
  rewrite Hr1 in Hnode. injection Hnode as <-. simpl in Ht2.
  exists (Build_leave st2 (end_index st) begin_rank end_rank parent decomp_pp None None).1.1,
    (Build_leave st2 (end_index st) begin_rank end_rank parent decomp_pp None None).2,
    (set_leaf (entered kd (end_index st) begin_col end_col bound)).
  split.
  { simpl. rewrite HE. simpl. rewrite HL. reflexivity. }
  split; [done|]. split; [|split; [|split]].
  - rewrite nodes_Build_leave, Hn2, Hn1.
    rewrite alter_app_r_alt by (unfold end_index; lia).
    replace (Z.to_nat (end_index st) - length (nodes_ st))%nat with 0%nat
      by (unfold end_index; lia).
    done.
  - unfold leaf_same_block, node_end in *. simpl.
    by replace (begin_col + (end_col - begin_col) - 1) with (end_col - 1) by lia.
  - rewrite points_Build_leave, Hp2. done.
  - rewrite trace_Build_leave, Ht2, Ht1. rewrite <- !app_assoc. done.
Qed.
End leaf_branch.

(** ** Values that are not numbers, and goals on a block boundary *)

Section nan.
Context {Point Range Bound : Type} `{!Bounds Point Range Bound}.
Implicit Types (points : list Point) (lb rb : Bound) (v : Point).

Lemma SFeqb_refl a :
  SpecFloat.SFeqb a a = match a with SpecFloat.S754_nan => false | _ => true end.
Proof.
  unfold SpecFloat.SFeqb, SpecFloat.SFcompare.
  destruct a as [[]| [] | |[] m e]; try done;
    by rewrite Z.compare_refl, Pos.compare_cont_refl.
Qed.

Lemma float_ltb_nan (x y : float) :
  PrimFloat.is_nan x = true ∨ PrimFloat.is_nan y = true → (x <? y)%float = false.
Proof.
  unfold PrimFloat.is_nan. rewrite !FloatAxioms.eqb_spec, FloatAxioms.ltb_spec, !SFeqb_refl.
  unfold SpecFloat.SFltb, SpecFloat.SFcompare.
  destruct (Prim2SF x) as [[]| [] | |[] mx ex], (Prim2SF y) as [[]| [] | |[] my ey];
    simpl; intros [?|?]; done.
Qed.

(** X21. What [Partition] does, under the condition of [Split_], with
    values that are not numbers. A point whose coordinate in the split
    dimension is not a number ends on the right of the split index. When
    the split value itself is not a number, no point is on the left:
    [Partition] returns [begin] and moves nothing. *)
Theorem Partition_nan (splitcond : HrectPartitionCondition) begin count points lb rb :
  0 ≤ begin → 0 ≤ count → begin + count ≤ Z.of_nat (length points) →
  ∃ p,
    Partition (is_left splitcond) bound_or_point begin count points lb rb = Done p
    ∧ (∀ i v, begin ≤ i < begin + count →
         CacheRead (points_out p) i = Some v →
         PrimFloat.is_nan (point_get v (dimension splitcond)) = true →
         split_index p ≤ i)
    ∧ (PrimFloat.is_nan (value splitcond) = true →
       split_index p = begin ∧ points_out p = points).
Proof.
  intros Hb Hc Hlen.
  destruct (Partition_inv (is_left splitcond) bound_or_point begin count points lb rb
              Hb Hc Hlen) as (s & points' & lb' & rb' & L & R & HP & I).
  exists (Partitioned s points' lb' rb'). split; [done|]. simpl. split.
  - intros i v Hi Hv Hnan. destruct (decide (s ≤ i)) as [|Hlt]; [done|].
    destruct I. assert (is_left splitcond v = true) as Hl
      by (eapply inv_left0; [|done]; lia).
    unfold is_left in Hl. rewrite float_ltb_nan in Hl by (by left). done.
  - intros Hnan.
    destruct (Partition_sorted (is_left splitcond) bound_or_point begin count begin
                points lb rb) as (lb2 & rb2 & HP2); try lia.
    + intros i Hi.
      destruct (CacheRead_in_range points i) as [v Hv]; [lia|].
      exists v. split; [done|]. unfold is_left. apply float_ltb_nan. by right.
    + rewrite HP in HP2. by injection HP2 as -> ->.
Qed.
End nan.

Section boundary.
Context {Bound : Type}.
Variable kd : builder Bound.

(** X22. Rounding the goal to the nearest block leaves a goal that is
    on a block boundary where it is, so rounding twice is rounding
    once. *)
Theorem round_to_chunk_boundary goal_col :
  0 < chunk_size_ kd → 0 ≤ goal_col →
  ((chunk_size_ kd | goal_col) → round_to_chunk kd goal_col = goal_col)
  ∧ round_to_chunk kd (round_to_chunk kd goal_col) = round_to_chunk kd goal_col.
Proof.
  intros Hc Hg.
  assert (∀ k, 0 ≤ k → round_to_chunk kd (k * chunk_size_ kd) = k * chunk_size_ kd)
    as Hfix.
  { intros k Hk. unfold round_to_chunk. set (c := chunk_size_ kd) in *.
    rewrite (Z.quot_div_nonneg c 2) by lia.
    pose proof (Z.div_mod c 2 ltac:(lia)) as D2.
    pose proof (Z.mod_pos_bound c 2 ltac:(lia)) as M2.
    rewrite Z.quot_div_nonneg by nia.
    rewrite Z.add_comm, Z.div_add by lia.
    rewrite Z.div_small by lia. lia. }
  split.
  - intros [k ->]. apply Hfix. nia.
  - unfold round_to_chunk at 2 3. set (c := chunk_size_ kd) in *.
    apply Hfix.
    rewrite (Z.quot_div_nonneg c 2) by lia.
    rewrite Z.quot_div_nonneg by (try apply Z.add_nonneg_nonneg; try apply Z.div_pos; lia).
    apply Z.div_pos; [|lia]. apply Z.add_nonneg_nonneg; [lia|]. apply Z.div_pos; lia.
Qed.
End boundary.

(** ** The further theorems at work *)

Lemma Partition_split_count_witness :
  ∃ p, Partition below_five (λ (b : list Z) x, x :: b) 1 5 seven_numbers [] [] = Done p
     ∧ split_index p = 4.
Proof.
  destruct (Partition_split_count below_five (λ (b : list Z) x, x :: b) 1 5
              seven_numbers [] []) as (p & Hp & Hs); [lia | lia | simpl; lia |].
  exists p. split; [exact Hp|]. rewrite Hs. reflexivity.
Defined.

Lemma Partition_grows_bounds_witness :
  ∃ p L R,
    Partition below_five (λ (b : list Z) x, x :: b) 1 5 seven_numbers [] [] = Done p
    ∧ left_out p = foldl (λ (b : list Z) x, x :: b) [] L
    ∧ right_out p = foldl (λ (b : list Z) x, x :: b) [] R
    ∧ (∀ v, v ∈ L ↔ v ∈ [7; 1; 8; 2; 3] ∧ below_five v = true)
    ∧ (∀ v, v ∈ R ↔ v ∈ [7; 1; 8; 2; 3] ∧ below_five v = false).
Proof.
  apply (Partition_grows_bounds below_five (λ (b : list Z) x, x :: b) 1 5
           seven_numbers [] []); [lia | lia | simpl; lia].
Defined.

Lemma Partition_idempotent_witness :
  ∃ p', Partition below_five (λ (b : list Z) x, x :: b) 1 5 [9; 3; 1; 2; 8; 7; 0] [] []
        = Done p'
      ∧ split_index p' = 4
      ∧ points_out p' = [9; 3; 1; 2; 8; 7; 0].
Proof.
  apply (Partition_idempotent below_five (λ (b : list Z) x, x :: b) 1 5
           seven_numbers [] [] (Partitioned 4 [9; 3; 1; 2; 8; 7; 0] [2; 2; 1; 3; 3] [8; 7])
           [] []); [lia | lia | simpl; lia | vm_compute; reflexivity].
Defined.

Lemma FindBoundingBox_spec_witness :
  FindBoundingBox_ column_points 0 4 (bound_Init 2) = Done column_box.
Proof.
  destruct (FindBoundingBox_spec column_points 0 4 (bound_Init 2)) as [Hbox _];
    [lia | lia | simpl; lia |].
  rewrite Hbox. vm_compute. reflexivity.
Defined.

Lemma widest_dimension_spec_witness :
  widest_dimension (plane_builder 2) column_box = Done 0.
Proof.
  destruct (widest_dimension_spec (plane_builder 2) column_box) as (split_dim & Hw & _).
  { intros d Hd. simpl in Hd.
    assert (d = 0 ∨ d = 1) as [-> | ->] by lia; eexists; reflexivity. }
  rewrite Hw. vm_compute in Hw. injection Hw as <-. reflexivity.
Defined.

Lemma goal_inside_one_machine_witness :
  goal_col_of line_builder 0 4 0 1 = midpoint_goal 32 0 4
  ∧ index_t_holds 32 (goal_col_of line_builder 0 4 0 1 + chunk_size_ line_builder ÷ 2)
  ∧ 0 < round_to_chunk line_builder (goal_col_of line_builder 0 4 0 1) < 4.
Proof.
  apply (goal_inside_one_machine line_builder 32 0 4 0 1);
    first [ simpl; lia
          | vm_compute; split; [intros ?; discriminate | reflexivity] ].
Defined.

Lemma Split_children_inside_witness :
  ∃ d, choose_split line_builder 2 far_point far_point_root 0 1 0 = Done d
     ∧ (sd_begin_col d, sd_split_col d, sd_end_col d) = (0, 2, 3)
     ∧ sd_points d ≡ₚ far_point.
Proof.
  destruct (choose_split line_builder 2 far_point far_point_root 0 1 0)
    as [d| |] eqn:Hd; [|discriminate Hd..].
  destruct (Split_children_inside line_builder 2 far_point far_point_root 0 1 0 d)
    as (_ & _ & _ & _ & _ & Hperm & _); [simpl; lia | vm_compute; split; reflexivity | exact Hd |].
  exists d. split; [reflexivity|]. split; [|exact Hperm].
  vm_compute in Hd. injection Hd as <-. reflexivity.
Defined.

Lemma one_machine_done :
  ∃ decomp, one_machine_build = Done (one_machine_state, 0, decomp).
Proof. eexists. vm_compute. reflexivity. Qed.

Lemma one_block_done :
  ∃ decomp, one_block_build = Done (one_block_state, 0, decomp).
Proof. eexists. vm_compute. reflexivity. Qed.

Lemma Build_points_permuted_witness :
  points_ two_machines_state ≡ₚ far_point.
Proof.
  exact (proj1 (Build_points_permuted two_machines 3 _ _ _ _ _ _ _ _ _ _ _
                  two_machines_done)).
Defined.

Lemma Build_local_frame_witness :
  range_of (points_ one_machine_state) 0 4 ≡ₚ far_point.
Proof.
  destruct one_machine_done as [decomp Hdone].
  destruct (Build_local_frame one_machine 3 (initial_state far_point) 0 4 0 1
              (node_bound far_point_root) None true one_machine_state 0 decomp)
    as [_ Hperm]; [simpl; lia | lia | left; lia | exact Hdone |].
  exact Hperm.
Defined.

Lemma Build_layout_witness :
  laid_out two_machines any_split two_machines_state 0 3 0 4.
Proof.
  exact (proj1 (proj2 (Build_layout two_machines 3 _ _ _ _ _ _ _ _ _ _ _
                         two_machines_done))).
Defined.

Lemma Build_local_layout_witness :
  ∃ node n0 n1,
    read_node one_machine_state 0 = Some node
    ∧ read_node one_machine_state 1 = Some n0
    ∧ read_node one_machine_state 2 = Some n1
    ∧ node_end n0 = node_begin n1
    ∧ node_end n1 ≤ node_end node
    ∧ (chunk_size_ one_machine | node_begin n1).
Proof.
  destruct one_machine_done as [decomp Hdone].
  assert (0 < chunk_size_ one_machine) as Hc by (simpl; lia).
  assert (0 ≤ 0 ≤ 4) as Hbe by lia.
  assert (1 ≤ 0 + 1 ∨ 4 - 0 ≤ chunk_size_ one_machine) as Hlocal by (left; lia).
  assert (0 ≤ 0) as Hp by lia.
  assert (chunk_size_ one_machine < 4) as Hbig by (simpl; lia).
  pose proof (Build_local_layout one_machine 3 (initial_state far_point) 0 4 0 1
                (node_bound far_point_root) None true one_machine_state 0 decomp
                Hc Hbe Hlocal Hdone 0 _ 1 2 _ _ Hp eq_refl eq_refl eq_refl eq_refl
                eq_refl eq_refl) as (_ & _ & Hadj & _ & Hend & Hblock).
  eexists _, _, _. do 3 (split; [reflexivity|]).
  split; [exact Hadj|]. split; [exact Hend|]. exact (proj1 (Hblock Hbig)).
Defined.

Lemma Build_small_tiles_witness :
  ∃ node n0 n1,
    read_node one_block_state 0 = Some node
    ∧ read_node one_block_state 1 = Some n0
    ∧ read_node one_block_state 2 = Some n1
    ∧ node_begin n0 = node_begin node
    ∧ node_end n0 = node_begin n1
    ∧ node_end n1 = node_end node.
Proof.
  destruct one_block_done as [decomp Hdone].
  assert (0 ≤ 4) as Hbe by lia.
  assert (4 - 0 ≤ chunk_size_ one_block) as Hsmall by (simpl; lia).
  assert (0 ≤ 0) as Hp by lia.
  pose proof (Build_small_tiles one_block 3 (initial_state column_points) 0 4 0 1
                column_box None true one_block_state 0 decomp
                Hbe Hsmall Hdone 0 _ 1 2 _ _ Hp eq_refl eq_refl eq_refl eq_refl
                eq_refl eq_refl) as (Hb & Hadj & He & _).
  eexists _, _, _. do 3 (split; [reflexivity|]).
  split; [exact Hb|]. split; [exact Hadj|]. exact He.
Defined.

Lemma Build_local_blocks_witness :
  ∃ node, read_node one_machine_state 1 = Some node
        ∧ in_one_block one_machine (node_begin node) (node_end node).
Proof.
  destruct one_machine_done as [decomp Hdone].
  assert (0 < chunk_size_ one_machine) as Hc by (simpl; lia).
  assert (0 ≤ 0 ≤ 4) as Hbe by lia.
  assert (1 ≤ 0 + 1 ∨ 4 - 0 ≤ chunk_size_ one_machine) as Hlocal by (left; lia).
  assert (4 - 0 ≤ chunk_size_ one_machine → in_one_block one_machine 0 4) as Hroot
    by (simpl; lia).
  assert (0 ≤ 1) as Hj by lia.
  eexists. split; [reflexivity|].
  refine (Build_local_blocks one_machine 3 (initial_state far_point) 0 4 0 1
            (node_bound far_point_root) None true one_machine_state 0 decomp
            Hc Hbe Hlocal Hroot Hdone 1 _ Hj eq_refl _).
  simpl. lia.
Defined.

Lemma Build_ranks_served_witness :
  Forall (served 0 2) (trace two_machines_state).
Proof.
  assert (0 ≤ 0 ≤ 2) as Hranks by lia.
  destruct (Build_ranks_served two_machines 3 _ _ _ _ _ _ _ _ _ _ _
              Hranks two_machines_done) as (evs & Ht & Hserved).
  change (trace two_machines_state = evs) in Ht. rewrite Ht. exact Hserved.
Defined.

Lemma Build_leaf_accumulates_witness :
  accumulated_into 0 (trace two_machines_state) = []
  ∧ accumulated_into 1 (trace two_machines_state) = [0; 1]
  ∧ accumulated_into 2 (trace two_machines_state) = [2].
Proof.
  destruct (Build_leaf_accumulates two_machines 3 _ _ _ _ _ _ _ _ _ _ _
              two_machines_done) as (evs & Ht & Hacc).
  change (trace two_machines_state = evs) in Ht. rewrite Ht.
  split; [|split].
  - exact (Hacc 0 _ ltac:(vm_compute; split; [discriminate|reflexivity]) eq_refl).
  - exact (Hacc 1 _ ltac:(vm_compute; split; [discriminate|reflexivity]) eq_refl).
  - exact (Hacc 2 _ ltac:(vm_compute; split; [discriminate|reflexivity]) eq_refl).
Defined.

Lemma Build_small_accumulates_witness :
  accumulated_points (trace one_block_state) = [0; 1; 2; 3].
Proof.
  destruct one_block_done as [decomp Hdone].
  destruct (Build_small_accumulates one_block 3 (initial_state column_points) 0 4 0 1
              column_box None true one_block_state 0 decomp)
    as (evs & Ht & Hacc); [lia | simpl; lia | exact Hdone |].
  change (trace one_block_state = evs) in Ht. rewrite Ht. exact Hacc.
Defined.

Lemma Partition_nan_witness :
  ∃ p, Partition (is_left {| dimension := 0; value := nan |}) bound_or_point 0 4
         far_point [InitEmptySet] [InitEmptySet] = Done p
     ∧ split_index p = 0
     ∧ points_out p = far_point.
Proof.
  destruct (Partition_nan {| dimension := 0; value := nan |} 0 4 far_point
              [InitEmptySet] [InitEmptySet]) as (p & Hp & _ & Hnan);
    [lia | lia | simpl; lia |].
  exists p. split; [exact Hp|]. exact (Hnan eq_refl).
Defined.

Lemma round_to_chunk_boundary_witness :
  round_to_chunk line_builder 4 = 4
  ∧ round_to_chunk line_builder (round_to_chunk line_builder 3)
    = round_to_chunk line_builder 3.
Proof.
  destruct (round_to_chunk_boundary line_builder 4) as [Hfix _]; [simpl; lia | lia |].
  split; [apply Hfix; by exists 2|].
  apply (round_to_chunk_boundary line_builder 3); [simpl; lia | lia].
Defined.

Lemma goal_col_machines_inside_witness :
  0 < goal_col_of four_machines 0 100 0 4 < 100.
Proof.
  apply (goal_col_machines_inside four_machines 0 100 0 4);
    first [simpl; lia | vm_compute; reflexivity].
Defined.

Lemma Build_local_accumulates_once_witness :
  accumulated_points (trace one_machine_state) `sublist_of` [0; 1; 2; 3].
Proof.
  destruct one_machine_done as [decomp Hdone].
  assert (0 < chunk_size_ one_machine) as Hc by (simpl; lia).
  assert (0 ≤ 0 ≤ 4) as Hbe by lia.
  assert (1 ≤ 0 + 1 ∨ 4 - 0 ≤ chunk_size_ one_machine) as Hlocal by (left; lia).
  destruct (Build_local_accumulates_once one_machine 3 (initial_state far_point) 0 4 0 1
              (node_bound far_point_root) None true one_machine_state 0 decomp
              Hc Hbe Hlocal Hdone) as (evs & Ht & Hsub).
  change (trace one_machine_state = evs) in Ht. rewrite Ht. exact Hsub.
Defined.

Lemma two_splits_done :
  ∃ decomp, two_splits_build = Done (two_splits_state, 0, decomp).
Proof. eexists. vm_compute. reflexivity. Qed.

(** The two nodes of [two_splits_build] that went through [Split_], the
    first and its second child, each hold points. *)
Lemma two_splits_full j node :
  0 ≤ j → read_node two_splits_state j = Some node →
  took_leaf two_splits j = false → node_begin node < node_end node.
Proof.
  intros Hj Hn Hl. pose proof (read_node_lt _ _ _ Hn) as Hlt.
  change (end_index two_splits_state) with 5 in Hlt.
  assert (j = 0 ∨ j = 1 ∨ j = 2 ∨ j = 3 ∨ j = 4) as [->|[->|[->|[->| ->]]]] by lia;
    try discriminate Hl; vm_compute in Hn; injection Hn as <-; vm_compute; reflexivity.
Qed.

Lemma Build_local_ownership_once_witness :
  transferred (trace two_splits_state) = [0; 2]
  ∧ NoDup (transferred (trace two_splits_state)).
Proof.
  split; [reflexivity|].
  destruct two_splits_done as [decomp Hdone].
  assert (0 ≤ 1) as Hk by lia.
  assert (0 ≤ 0 ≤ 8) as Hbe by lia.
  assert (1 ≤ 0 + 1 ∨ 8 - 0 ≤ chunk_size_ two_splits) as Hlocal by (left; lia).
  destruct (Build_local_ownership_once two_splits 1 4 (initial_state eight_points) 0 8 0 1
              [ {| lo := 0; hi := 7 |} ]%float None true two_splits_state 0 decomp
              Hk eq_refl Hbe Hlocal Hdone two_splits_full) as (evs & Ht & Hnd).
  change (trace two_splits_state = evs) in Ht. rewrite Ht. exact Hnd.
Defined.

Lemma Build_fresh_leaf_witness :
  ∃ st' decomp,
    Build_ (plane_builder 4) 1 (initial_state column_points) 0 4 0 1
      column_box None true = Done (st', 0, decomp)
    ∧ leaf_size_ (plane_builder 4) = 1
    ∧ points_ st' = column_points
    ∧ accumulated_points (trace st') = [0; 1; 2; 3].
Proof.
  destruct (Build_fresh_leaf (plane_builder 4) 0 (initial_state column_points) 0 4 0 1
              column_box None true)
    as (st' & decomp & leaf & Hdone & _ & _ & _ & Hpoints & Htrace);
    [simpl; lia | lia | simpl; lia | simpl; lia | reflexivity |].
  exists st', decomp. split; [exact Hdone|]. split; [reflexivity|].
  split; [exact Hpoints|]. rewrite Htrace. reflexivity.
Defined.
